(** * Partial image layer applier (containers/storage, pkg/chunked)

    A shallow embedding of the parts of [storage_linux.go] that plan the
    remote requests, write and validate destination files, merge the TOC
    entries and decide hard-link deduplication, together with the
    properties the specification states about them. *)

From Stdlib Require Import ZArith List Lia Bool String Ascii.
From stdpp Require Import base option list gmap strings sorting.
Import ListNotations.

Local Open Scope Z_scope.

(** ** Go machine integers

    The target is linux/amd64: [int], [int64] are 64-bit two's complement
    and [uint64] is 64-bit unsigned.  Values are carried as [Z]; every
    arithmetic operation of the source is followed by the wrap-around of
    its Go type. *)

Definition wrap64 (z : Z) : Z := z mod 2 ^ 64.

Definition to_int (z : Z) : Z := (z + 2 ^ 63) mod 2 ^ 64 - 2 ^ 63.

(** ** Data model *)

(** [internal.FileMetadata], one TOC entry.  [Xattrs] is a Go map, which
    may be nil ([None]): the TOC decoder allocates it only when the entry
    has an xattrs object.  [Chunks] holds pointers to private copies made
    by [mergeTocEntries]; they are carried by value. *)
#[warnings="-register-all"]
Inductive FileMetadata : Type := mkFileMetadata {
  Type_ : string;
  Name : string;
  Linkname : string;
  Mode : Z;
  Size : Z;
  UID : Z;
  GID : Z;
  ModTime : option Z;
  AccessTime : option Z;
  ChangeTime : option Z;
  Devmajor : Z;
  Devminor : Z;
  Xattrs : option (gmap string string);
  Digest : string;
  Offset : Z;
  EndOffset : Z;
  ChunkSize : Z;
  ChunkOffset : Z;
  ChunkDigest : string;
  ChunkType : string;
  Chunks : list FileMetadata
}.

Definition TypeReg : string := "reg"%string.
Definition TypeChunk : string := "chunk"%string.

(** [ImageSourceChunk]: a byte range of the remote blob (both [uint64]). *)
Record ImageSourceChunk := mkImageSourceChunk {
  sc_Offset : Z;
  sc_Length : Z
}.

Record originFile := mkOriginFile {
  of_Root : string;
  of_Path : string;
  of_Offset : Z
}.

(** [missingFileChunk]: [mfc_File] is a pointer, nil for a gap chunk. *)
Record missingFileChunk := mkMissingFileChunk {
  mfc_Gap : Z;
  mfc_Hole : bool;
  mfc_File : option FileMetadata;
  mfc_CompressedSize : Z;
  mfc_UncompressedSize : Z
}.

(** [missingPart].  [SourceChunk] is a pointer in the source; every part
    built by [ApplyDiff] owns a fresh [ImageSourceChunk], so the pointee
    is carried by value (see the note at [sameFileLoop]). *)
Record missingPart := mkMissingPart {
  mp_Hole : bool;
  mp_SourceChunk : ImageSourceChunk;
  mp_OriginFile : option originFile;
  mp_Chunks : list missingFileChunk
}.

(** ** 4.F Request planner: [mergeMissingChunks] *)

(** [getGap(missingParts, i)], with [prev] standing for
    [missingParts[i-1]] and [cur] for [missingParts[i]]. *)
Definition getGap (prev cur : missingPart) : Z :=
  let prevEnd := wrap64 (sc_Offset (mp_SourceChunk prev) + sc_Length (mp_SourceChunk prev)) in
  to_int (wrap64 (sc_Offset (mp_SourceChunk cur) - prevEnd)).

(** [getCost(missingParts, i)]. *)
Definition getCost (prev cur : missingPart) : Z :=
  let cost := getGap prev cur in
  let cost :=
    if mp_OriginFile prev is Some _
    then to_int (cost + to_int (sc_Length (mp_SourceChunk prev)))
    else cost in
  if mp_OriginFile cur is Some _
  then to_int (cost + to_int (sc_Length (mp_SourceChunk cur)))
  else cost.

(** Results of code that can hit a Go run-time panic (nil dereference,
    index out of range) are [None]. *)
Definition fileName (c : missingFileChunk) : option string :=
  Name <$> mfc_File c.

(** The condition of the first loop, evaluated left to right with Go's
    short-circuit [&&]: the chunk names are only read once both chunk
    lists are known to have length one. *)
Definition sameFileCond (gap : Z) (absorber cur : missingPart) : option bool :=
  if negb (gap =? 0) then Some false
  else if mp_OriginFile absorber is Some _ then Some false
  else if mp_OriginFile cur is Some _ then Some false
  else if mp_Hole absorber then Some false
  else if mp_Hole cur then Some false
  else
    match mp_Chunks absorber, mp_Chunks cur with
    | [ca], [cc] =>
        na ← fileName ca; nc ← fileName cc; Some (String.eqb na nc)
    | _, _ => Some false
    end.

(** The body of the first loop's [then] branch. *)
Definition sameFileMerge (gap : Z) (absorber cur : missingPart) : missingPart :=
  let sc := mp_SourceChunk absorber in
  let sc' := {| sc_Offset := sc_Offset sc;
                sc_Length := wrap64 (sc_Length sc +
                               wrap64 (wrap64 gap + sc_Length (mp_SourceChunk cur))) |} in
  let chunks' :=
    match mp_Chunks absorber, mp_Chunks cur with
    | ca :: rest, cc :: _ =>
        {| mfc_Gap := mfc_Gap ca; mfc_Hole := mfc_Hole ca; mfc_File := mfc_File ca;
           mfc_CompressedSize := to_int (mfc_CompressedSize ca + mfc_CompressedSize cc);
           mfc_UncompressedSize := to_int (mfc_UncompressedSize ca + mfc_UncompressedSize cc) |}
        :: rest
    | cs, _ => cs
    end in
  {| mp_Hole := mp_Hole absorber; mp_SourceChunk := sc';
     mp_OriginFile := mp_OriginFile absorber; mp_Chunks := chunks' |}.

(** The first loop of [mergeMissingChunks].

    [front ++ [absorber]] is [newMissingParts]; [absorber] is
    [missingParts[prevIndex]], its last element.  [prev] is
    [missingParts[i-1]] and [rest] is [missingParts[i:]].

    In the source [newMissingParts] shares its backing array with
    [missingParts], and the struct copies share their [SourceChunk]
    pointee.  Slot [i-1] of the array is read by [getGap] at iteration
    [i]: it holds the struct of input part [i-1] (appends write slot
    [prevIndex+1 <= i-1], and only with that same struct), and its
    pointee is mutated only while that part is the absorber, from
    iteration [i] on and after [getGap] has run.  So [getGap] sees the
    input values of parts [i-1] and [i], which is what [prev] and the
    head of [rest] carry. *)
Fixpoint sameFileLoop (front : list missingPart) (absorber prev : missingPart)
    (rest : list missingPart) : option (list missingPart) :=
  match rest with
  | [] => Some (front ++ [absorber])
  | cur :: rest' =>
      let gap := getGap prev cur in
      c ← sameFileCond gap absorber cur;
      if c : bool then sameFileLoop front (sameFileMerge gap absorber cur) cur rest'
      else sameFileLoop (front ++ [absorber]) cur cur rest'
  end.

(** "simple case: merge chunks from the same file".  [missingParts[0:1]]
    panics on an empty slice. *)
Definition sameFileCoalescing (missingParts : list missingPart) : option (list missingPart) :=
  match missingParts with
  | [] => None
  | p0 :: rest => sameFileLoop [] p0 p0 rest
  end.

(** [costs[i-1] = getCost(missingParts, i)] for [i = 1 .. len-1]. *)
Fixpoint adjacentCosts (prev : missingPart) (rest : list missingPart) : list Z :=
  match rest with
  | [] => []
  | cur :: rest' => getCost prev cur :: adjacentCosts cur rest'
  end.

(** [sort.Ints]: the ascending rearrangement of the slice. *)
Definition sortInts (l : list Z) : list Z := merge_sort Z.le l.

(** The synthetic chunk appended for a positive gap. *)
Definition gapFile (gap : Z) : missingFileChunk :=
  {| mfc_Gap := gap; mfc_Hole := false; mfc_File := None;
     mfc_CompressedSize := 0; mfc_UncompressedSize := 0 |}.

(** The [else] branch of the second loop: [cur] is absorbed by [prev],
    the last element of [newMissingParts]. *)
Definition costMerge (gap : Z) (prev cur : missingPart) : missingPart :=
  let sc := mp_SourceChunk prev in
  {| mp_Hole := false;
     mp_SourceChunk :=
       {| sc_Offset := sc_Offset sc;
          sc_Length := wrap64 (sc_Length sc +
                         wrap64 (wrap64 gap + sc_Length (mp_SourceChunk cur))) |};
     mp_OriginFile := None;
     mp_Chunks :=
       (if 0 <? gap then mp_Chunks prev ++ [gapFile gap] else mp_Chunks prev)
       ++ mp_Chunks cur |}.

(** The second loop.  [front ++ [prev]] is [newMissingParts], [orig] is
    [missingParts[i-1]] and [rest] is [missingParts[i:]].  As in the
    first loop the slots read by [getCost] and [getGap] still hold the
    values the loop started with: [prev] points into a slot below [i-1]
    as soon as one merge has happened, and a slot that is [prev] is
    changed only after the reads of its iteration. *)
Fixpoint costLoop (targetValue : Z) (front : list missingPart) (prev orig : missingPart)
    (rest : list missingPart) : list missingPart :=
  match rest with
  | [] => front ++ [prev]
  | cur :: rest' =>
      if targetValue <? getCost orig cur
      then costLoop targetValue (front ++ [prev]) cur cur rest'
      else costLoop targetValue front (costMerge (getGap orig cur) prev cur) cur rest'
  end.

(** [targetValue := costs[toShrink]] with the clamping of [toShrink];
    [None] is the index-out-of-range panic. *)
Definition pickTargetValue (costs : list Z) (len target : Z) : option Z :=
  let toShrink := to_int (len - target) in
  let toShrink :=
    if Z.of_nat (length costs) <=? toShrink then Z.of_nat (length costs) - 1
    else toShrink in
  if toShrink <? 0 then None else costs !! Z.to_nat toShrink.

(** "cost-driven coalescing": the part of [mergeMissingChunks] after the
    early return. *)
Definition costCoalescing (missingParts : list missingPart) (target : Z)
    : option (list missingPart) :=
  match missingParts with
  | [] => None
  | p0 :: rest =>
      let costs := sortInts (adjacentCosts p0 rest) in
      targetValue ← pickTargetValue costs (Z.of_nat (length missingParts)) target;
      Some (costLoop targetValue [] p0 p0 rest)
  end.

Definition mergeMissingChunks (missingParts : list missingPart) (target : Z)
    : option (list missingPart) :=
  missingParts ← sameFileCoalescing missingParts;
  if Z.of_nat (length missingParts) <=? target then Some missingParts
  else costCoalescing missingParts target.

(** *** Small inputs *)

Definition mkFile (name : string) : FileMetadata :=
  {| Type_ := TypeReg; Name := name; Linkname := ""; Mode := 420; Size := 0;
     UID := 0; GID := 0; ModTime := None; AccessTime := None; ChangeTime := None;
     Devmajor := 0; Devminor := 0; Xattrs := None; Digest := "";
     Offset := 0; EndOffset := 0; ChunkSize := 0; ChunkOffset := 0;
     ChunkDigest := ""; ChunkType := ""; Chunks := [] |}.

Definition fileChunk (name : string) (csize usize : Z) : missingFileChunk :=
  {| mfc_Gap := 0; mfc_Hole := false; mfc_File := Some (mkFile name);
     mfc_CompressedSize := csize; mfc_UncompressedSize := usize |}.

(** A remote part as [ApplyDiff] builds it: one chunk, no origin file. *)
Definition remotePart (name : string) (off len usize : Z) : missingPart :=
  {| mp_Hole := false; mp_SourceChunk := {| sc_Offset := off; sc_Length := len |};
     mp_OriginFile := None; mp_Chunks := [fileChunk name len usize] |}.

(** A part whose chunk was found in another layer. *)
Definition originPart (name : string) (off len usize : Z) : missingPart :=
  {| mp_Hole := false; mp_SourceChunk := {| sc_Offset := off; sc_Length := len |};
     mp_OriginFile := Some {| of_Root := "/layers/1"; of_Path := name; of_Offset := 0 |};
     mp_Chunks := [fileChunk name len usize] |}.

(** *** Same-file coalescing, as the specification words it *)

(** The byte range of a part in the blob, in 64-bit unsigned
    arithmetic: where it starts and where it ends. *)
Definition partStart (p : missingPart) : Z :=
  wrap64 (sc_Offset (mp_SourceChunk p)).

Definition partEnd (p : missingPart) : Z :=
  wrap64 (sc_Offset (mp_SourceChunk p) + sc_Length (mp_SourceChunk p)).

(** A part that carries exactly one chunk has a destination file on it
    (the [File] pointer is not nil).  [ApplyDiff] builds every part so;
    the only chunks without a file are the gap chunks added by the
    cost-driven pass, to parts that then carry several chunks. *)
Definition singleHasFile (p : missingPart) : Prop :=
  forall c, mp_Chunks p = [c] -> is_Some (mfc_File c).

(** Two adjacent parts may be merged: no gap between them (the second
    starts at the byte where the first ends), both remote, one chunk
    each, same destination file name. *)
Definition sameFileMergeable (a b : missingPart) : Prop :=
  partStart b = partEnd a /\
  mp_OriginFile a = None /\ mp_OriginFile b = None /\
  mp_Hole a = false /\ mp_Hole b = false /\
  exists ca cb, mp_Chunks a = [ca] /\ mp_Chunks b = [cb] /\
                Name <$> mfc_File ca = Name <$> mfc_File cb.

Definition sameFileMergeableb (a b : missingPart) : bool :=
  (partStart b =? partEnd a) &&
  bool_decide (mp_OriginFile a = None) && bool_decide (mp_OriginFile b = None) &&
  negb (mp_Hole a) && negb (mp_Hole b) &&
  match mp_Chunks a, mp_Chunks b with
  | [ca], [cb] => bool_decide (Name <$> mfc_File ca = Name <$> mfc_File cb)
  | _, _ => false
  end.

(** The merged part: the second length added to the first, the sizes of
    the two chunks summed. *)
Definition sameFileMerged (a b : missingPart) : missingPart :=
  {| mp_Hole := mp_Hole a;
     mp_SourceChunk :=
       {| sc_Offset := sc_Offset (mp_SourceChunk a);
          sc_Length := wrap64 (sc_Length (mp_SourceChunk a) + sc_Length (mp_SourceChunk b)) |};
     mp_OriginFile := mp_OriginFile a;
     mp_Chunks :=
       match mp_Chunks a, mp_Chunks b with
       | ca :: rest, cb :: _ =>
           {| mfc_Gap := mfc_Gap ca; mfc_Hole := mfc_Hole ca; mfc_File := mfc_File ca;
              mfc_CompressedSize := to_int (mfc_CompressedSize ca + mfc_CompressedSize cb);
              mfc_UncompressedSize := to_int (mfc_UncompressedSize ca + mfc_UncompressedSize cb) |}
           :: rest
       | cs, _ => cs
       end |}.

(** One left-to-right sweep that merges a part into the last kept one
    exactly when the two are mergeable. *)
Fixpoint sameFileSweep (front : list missingPart) (a : missingPart)
    (rest : list missingPart) : list missingPart :=
  match rest with
  | [] => front ++ [a]
  | b :: rest' =>
      if sameFileMergeableb a b then sameFileSweep front (sameFileMerged a b) rest'
      else sameFileSweep (front ++ [a]) b rest'
  end.

Definition sameFileCoalescingSpec (missingParts : list missingPart) : list missingPart :=
  match missingParts with
  | [] => []
  | p0 :: rest => sameFileSweep [] p0 rest
  end.

(** *** The planner invariant of the specification *)

(** The destination file names of the chunks of a part (gap chunks have
    none). *)
Definition targetFiles (p : missingPart) : list string :=
  omap fileName (mp_Chunks p).

(** Both parts write to one and the same file: every chunk of either
    part names it. *)
Definition sameTargetFileb (a b : missingPart) : bool :=
  match targetFiles a, targetFiles b with
  | n :: _, _ :: _ =>
      forallb (String.eqb n) (targetFiles a) && forallb (String.eqb n) (targetFiles b)
  | _, _ => false
  end.

(** The adjacency the invariant forbids: same file, gap of exactly zero
    between the byte ranges, and neither part a hole or an OriginFile. *)
Definition zeroGapSameFileRemote (a b : missingPart) : bool :=
  (getGap a b =? 0) && sameTargetFileb a b &&
  negb (mp_Hole a) && negb (mp_Hole b) &&
  bool_decide (mp_OriginFile a = None) && bool_decide (mp_OriginFile b = None).

Fixpoint noAdjacent (bad : missingPart -> missingPart -> bool) (l : list missingPart) : bool :=
  match l with
  | a :: (b :: _) as t => negb (bad a b) && noAdjacent bad t
  | _ => true
  end.


Definition singleChunk (p : missingPart) : Prop := length (mp_Chunks p) = 1%nat.

(** *** What a part of the cost-driven pass's output is made of *)

(** The number of bytes between the end of [a] and the start of [b], as
    a signed 64-bit number: positive when there are bytes to discard
    between the two ranges, zero when [b] starts where [a] ends. *)
Definition gapBytes (a b : missingPart) : Z := to_int (partStart b - partEnd a).

(** A synthetic chunk that tells the fetch driver to discard [n] bytes:
    it has no file and no size of its own. *)
Definition discardChunk (n : Z) : missingFileChunk :=
  {| mfc_Gap := n; mfc_Hole := false; mfc_File := None;
     mfc_CompressedSize := 0; mfc_UncompressedSize := 0 |}.

(** What a merge puts between the chunks of [a] and the chunks of [b],
    the part that follows it: one gap chunk when the gap is positive,
    nothing otherwise. *)
Definition gapChunks (a b : missingPart) : list missingFileChunk :=
  if 0 <? gapBytes a b then [discardChunk (gapBytes a b)] else [].

(** The chunk list of a run of consecutive parts merged into one: the
    chunks of every part in order, with the gap chunks in between. *)
Fixpoint chunksOfRun (g : list missingPart) : list missingFileChunk :=
  match g with
  | [] => []
  | a :: rest =>
      mp_Chunks a ++
      match rest with
      | [] => []
      | b :: _ => gapChunks a b ++ chunksOfRun rest
      end
  end.

(** [mergedRun g p]: the output part [p] stands for the run [g] of
    consecutive input parts.  A run of one part is that part unchanged;
    a longer run (its first part absorbed the others) is a remote part
    that starts where the first one started, with [chunksOfRun g] as its
    chunk list. *)
Definition mergedRun (g : list missingPart) (p : missingPart) : Prop :=
  exists q g',
    g = q :: g' /\
    (g' = [] -> p = q) /\
    (g' <> [] -> mp_Hole p = false /\ mp_OriginFile p = None) /\
    sc_Offset (mp_SourceChunk p) = sc_Offset (mp_SourceChunk q) /\
    mp_Chunks p = chunksOfRun g.

(** [appendedChunks g cs]: the chunk list [cs] is made, for every part
    of [g] in turn, of at most one gap chunk followed by all the chunks
    of that part. *)
Fixpoint appendedChunks (g : list missingPart) (cs : list missingFileChunk) : Prop :=
  match g with
  | [] => cs = []
  | x :: g' =>
      exists sep rest,
        cs = sep ++ mp_Chunks x ++ rest /\
        (sep = [] \/ exists n, sep = [discardChunk n]) /\
        appendedChunks g' rest
  end.

(** [absorbs g p]: the output part [p] stands for the run [g] of
    consecutive input parts.  A run of one part is that part unchanged;
    in a longer run the first part has absorbed the others: the result
    is a remote part whatever the parts of the run were, and its chunk
    list is the chunk list of the first part with all the chunks of
    every absorbed part appended in order. *)
Definition absorbs (g : list missingPart) (p : missingPart) : Prop :=
  exists q g',
    g = q :: g' /\
    (g' = [] -> p = q) /\
    (g' <> [] -> mp_Hole p = false /\ mp_OriginFile p = None) /\
    exists rest, mp_Chunks p = mp_Chunks q ++ rest /\ appendedChunks g' rest.

(** ** 4.F/4.G [retrieveMissingFiles]: the bad-range retry loop *)

(** The errors the loop distinguishes: [ErrBadRequest] and all others. *)
Inductive error :=
  | ErrBadRequest
  | ErrOther (msg : string).

(** The blob source, an external collaborator: [GetBlobAt] answers a
    list of ranges with the streams or with a set-up error, and may
    change its own state [S]. *)
Class ImageSourceSeekable (S Streams : Type) :=
  GetBlobAt : S -> list ImageSourceChunk -> S * (Streams + error).

(** The closure [calculateChunksToRequest]: the source chunks of the
    parts that are neither local nor holes. *)
Definition calculateChunksToRequest (missingParts : list missingPart) : list ImageSourceChunk :=
  omap (fun c =>
          if bool_decide (mp_OriginFile c = None) && negb (mp_Hole c)
          then Some (mp_SourceChunk c) else None) missingParts.

(** How a run of [retrieveMissingFiles] ends: it returns ([None] is the
    nil error), it panics inside [mergeMissingChunks], or the model ran
    out of fuel. *)
Inductive outcome (S : Type) :=
  | Returned (s : S) (err : option error)
  | Panicked (s : S)
  | OutOfFuel.
Arguments Returned {S} s err.
Arguments Panicked {S} s.
Arguments OutOfFuel {S}.

(** [retrieveMissingFiles]; [fuel] bounds the iterations of its [for]
    loop.  [storeMissingFiles] consumes the streams and is a parameter
    here. *)
Fixpoint retrieveMissingFiles {S Streams : Type} `{!ImageSourceSeekable S Streams}
    (storeMissingFiles : Streams -> list missingPart -> option error)
    (fuel : nat) (stream : S) (missingParts : list missingPart) : outcome S :=
  match fuel with
  | O => OutOfFuel
  | Datatypes.S fuel' =>
      let chunksToRequest := calculateChunksToRequest missingParts in
      match GetBlobAt stream chunksToRequest with
      | (stream', inl streams) => Returned stream' (storeMissingFiles streams missingParts)
      | (stream', inr ErrBadRequest) =>
          let requested := Z.of_nat (length missingParts) in
          if requested <? 64 then Returned stream' (Some ErrBadRequest)
          else
            match mergeMissingChunks missingParts (Z.quot requested 2) with
            | Some missingParts' =>
                retrieveMissingFiles storeMissingFiles fuel' stream' missingParts'
            | None => Panicked stream'
            end
      | (stream', inr err) => Returned stream' (Some err)
      end
  end.

(** Every part has a first chunk and that chunk has a destination file.
    Both passes of [mergeMissingChunks] keep it. *)
Definition headHasFile (p : missingPart) : Prop :=
  exists c rest, mp_Chunks p = c :: rest /\ is_Some (mfc_File c).

(** A source that rejects every request as a bad range, and counts the
    requests it received. *)
Definition rejectingSource : ImageSourceSeekable nat unit :=
  fun n _ => (Datatypes.S n, inr ErrBadRequest).

(** [n] single-chunk remote parts of different files, 10 bytes each,
    4 bytes apart. *)
Definition manyParts (n : nat) : list missingPart :=
  map (fun i => remotePart (String (ascii_of_nat i) EmptyString) (Z.of_nat i * 14) 10 10) (seq 0 n).

(** ** 4.B/4.E Destination writer *)

(** The constants of the first [const] block: [fileTypeZstdChunked] is
    declared with [iota] as the ninth constant of the block. *)
Definition fileTypeZstdChunked : Z := 8.
Definition fileTypeEstargz : Z := 9.
Definition fileTypeNoCompression : Z := 10.
Definition fileTypeHole : Z := 11.

(** The go-digest library, an external collaborator.  [FromBytes bs] is
    what a canonical digester's [Digest()] returns once [bs] has been
    written to its hash; [Validate] is the check [digest.Parse] runs.
    Digests computed by the library are valid. *)
Class Digester := {
  FromBytes : list Byte.byte -> string;
  Validate : string -> bool;
  FromBytes_valid : forall bs, Validate (FromBytes bs) = true
}.

Inductive closeError :=
  | ErrInvalidDigest (s : string)
  | ErrChecksumMismatch (path got expected : string)
  | ErrIO (msg : string).

(** [digest.Parse]: the string itself when it validates. *)
Definition Parse `{Digester} (s : string) : string + closeError :=
  if Validate s then inl s else inr (ErrInvalidDigest s).

Definition zeros (n : Z) : list Byte.byte := replicate (Z.to_nat n) Byte.x00.

(** An open regular file: its name, its content and the offset of the
    descriptor. *)
Record osFile := mkOsFile {
  f_name : string;
  f_data : list Byte.byte;
  f_pos : Z
}.

(** [write(2)] at the current offset; a write past the end fills the
    hole with zeros. *)
Definition fileWrite (f : osFile) (bs : list Byte.byte) : osFile :=
  let pos := Z.to_nat (f_pos f) in
  {| f_name := f_name f;
     f_data := take pos (f_data f) ++ replicate (pos - length (f_data f)) Byte.x00
               ++ bs ++ drop (pos + length bs) (f_data f);
     f_pos := f_pos f + Z.of_nat (length bs) |}.

(** [unix.Seek(fd, size, SEEK_CUR)]: the new offset, or EINVAL when it
    would be negative. *)
Definition seekCur (f : osFile) (size : Z) : (osFile * Z) + closeError :=
  let off := f_pos f + size in
  if off <? 0 then inr (ErrIO "invalid argument")
  else inl ({| f_name := f_name f; f_data := f_data f; f_pos := off |}, off).

(** [unix.Ftruncate(fd, off)]: cut the content or extend it with zeros. *)
Definition ftruncate (f : osFile) (off : Z) : osFile + closeError :=
  if off <? 0 then inr (ErrIO "invalid argument")
  else
    let n := Z.to_nat off in
    inl {| f_name := f_name f;
           f_data := take n (f_data f) ++ replicate (n - length (f_data f)) Byte.x00;
           f_pos := f_pos f |}.

(** [appendHole]. *)
Definition appendHole (f : osFile) (size : Z) : osFile + closeError :=
  match seekCur f size with
  | inr e => inr e
  | inl (f', off) => ftruncate f' off
  end.

(** The second loop of [hashHole]; the hash is the list of the bytes
    written to it so far, and [hash.Hash.Write] never fails.  [None]:
    the loop is still running when the fuel is used up. *)
Fixpoint hashHoleLoop (fuel : nat) (h : list Byte.byte) (size : Z)
    (copyBuffer : list Byte.byte) : option (list Byte.byte) :=
  if size <=? 0 then Some h
  else
    match fuel with
    | O => None
    | S fuel' =>
        let count := Z.of_nat (length copyBuffer) in
        let count := if size <? count then size else count in
        hashHoleLoop fuel' (h ++ take (Z.to_nat count) copyBuffer) (size - count) copyBuffer
    end.

(** [hashHole]: zero the head of the buffer, then feed the hash from it.
    Returns the hash and the buffer, which the caller keeps using. *)
Definition hashHole (fuel : nat) (h : list Byte.byte) (size : Z)
    (copyBuffer : list Byte.byte) : option (list Byte.byte * list Byte.byte) :=
  let count := Z.of_nat (length copyBuffer) in
  let count := if size <? count then size else count in
  let copyBuffer' := zeros count ++ drop (Z.to_nat count) copyBuffer in
  h' ← hashHoleLoop fuel h size copyBuffer';
  Some (h', copyBuffer').

(** [destinationFile].  [digester] and [hash] are one object, the hash
    state; both are nil ([None]) when the file is not validated.  [to] is
    [file] itself or [io.MultiWriter(file, hash)], according to [hash].
    [recordFsVerity] records whether the callback is set. *)
Record destinationFile := mkDestinationFile {
  file : osFile;
  hash : option (list Byte.byte);
  metadata : FileMetadata;
  skipValidation : bool;
  recordFsVerity : bool
}.

(** [openDestinationFile]; [openErr] is the outcome of
    [openFileUnderRoot] with [newFileFlags] (O_CREAT, O_TRUNC, O_EXCL,
    O_WRONLY), which on success yields an empty file. *)
Definition openDestinationFile (openErr : option string) (metadata : FileMetadata)
    (skipValidation recordFsVerity : bool) : destinationFile + closeError :=
  match openErr with
  | Some msg => inr (ErrIO msg)
  | None =>
      let file := {| f_name := Name metadata; f_data := []; f_pos := 0 |} in
      inl {| file := file;
             hash := if skipValidation then None else Some [];
             metadata := metadata;
             skipValidation := skipValidation;
             recordFsVerity := recordFsVerity |}
  end.

(** A [Write] to [destFile.to]. *)
Definition writeTo (d : destinationFile) (bs : list Byte.byte) : destinationFile :=
  {| file := fileWrite (file d) bs;
     hash := (fun h => h ++ bs) <$> hash d;
     metadata := metadata d;
     skipValidation := skipValidation d;
     recordFsVerity := recordFsVerity d |}.

Inductive appendResult :=
  | Appended (d : destinationFile) (copyBuffer : list Byte.byte)
  | AppendFailed (e : closeError)
  | AppendNoFuel.

(** [appendCompressedStreamToFile].  [decoded] is what the reader of the
    current compression yields before [io.EOF]; [io.LimitReader] stops
    it after [size] bytes and [io.CopyBuffer] sends them to
    [destFile.to].  The data cases stand for the copies that succeed: a
    copy that the reader or the file ends with an error is not a result
    of this function, and what a copy leaves in the copy buffer is not
    tracked ([hashHole] overwrites the part of the buffer it uses before
    it reads it). *)
Definition appendCompressedStreamToFile (fuel : nat) (compression : Z)
    (decoded : list Byte.byte) (destFile : destinationFile) (size : Z)
    (copyBuffer : list Byte.byte) : appendResult :=
  if (compression =? fileTypeZstdChunked) || (compression =? fileTypeEstargz)
     || (compression =? fileTypeNoCompression)
  then Appended (writeTo destFile (take (Z.to_nat size) decoded)) copyBuffer
  else if compression =? fileTypeHole then
    match appendHole (file destFile) size with
    | inr e => AppendFailed e
    | inl f' =>
        let d' := {| file := f'; hash := hash destFile; metadata := metadata destFile;
                     skipValidation := skipValidation destFile;
                     recordFsVerity := recordFsVerity destFile |} in
        match hash destFile with
        | None => Appended d' copyBuffer
        | Some h =>
            match hashHole fuel h size copyBuffer with
            | None => AppendNoFuel
            | Some (h', copyBuffer') =>
                Appended {| file := f'; hash := Some h'; metadata := metadata destFile;
                            skipValidation := skipValidation destFile;
                            recordFsVerity := recordFsVerity destFile |} copyBuffer'
            end
        end
    end
  else AppendFailed (ErrIO "unknown file type").

(** The outcomes of the system calls [Close] makes after validation
    ([None]: success). *)
Record closeEnv := mkCloseEnv {
  setFileAttrsErr : option string;
  reopenErr : option string;
  fileCloseErr : option string;
  recordFsVerityErr : option string
}.

(** The deferred function of [Close], applied to the value [Err] of the
    named result at the [return]. *)
Definition closeDeferred (env : closeEnv) (d : destinationFile)
    (Err : option closeError) : option closeError :=
  let '(roFile, Err) :=
    if recordFsVerity d then
      match reopenErr env with
      | None => (true, Err)
      | Some msg => (false, if Err is None then Some (ErrIO msg) else Err)
      end
    else (false, Err) in
  let Err := if Err is None then ErrIO <$> fileCloseErr env else Err in
  if Err is None then (if roFile then ErrIO <$> recordFsVerityErr env else None)
  else Err.

(** [destinationFile.Close].  The outer [None] is the nil dereference of
    a file that is validated without a digester; [openDestinationFile]
    never builds one. *)
Definition Close `{Digester} (env : closeEnv) (d : destinationFile)
    : option (option closeError) :=
  if negb (skipValidation d) then
    match Parse (Digest (metadata d)) with
    | inr err => Some (closeDeferred env d (Some err))
    | inl manifestChecksum =>
        h ← hash d;
        if negb (String.eqb (FromBytes h) manifestChecksum)
        then Some (closeDeferred env d
                     (Some (ErrChecksumMismatch (f_name (file d)) (FromBytes h) manifestChecksum)))
        else Some (closeDeferred env d (ErrIO <$> setFileAttrsErr env))
    end
  else Some (closeDeferred env d (ErrIO <$> setFileAttrsErr env)).

(** One call of [appendCompressedStreamToFile] made by
    [storeMissingFiles] for a chunk of the file that is open. *)
Record appendCall := mkAppendCall {
  ac_compression : Z;
  ac_decoded : list Byte.byte;
  ac_size : Z
}.

(** The bytes a call sends to the file: the decoded payload up to
    [size], or [size] zeros for a hole. *)
Definition callBytes (c : appendCall) : list Byte.byte :=
  if ac_compression c =? fileTypeHole then zeros (ac_size c)
  else take (Z.to_nat (ac_size c)) (ac_decoded c).

(** [Written md skip rv d bs]: [d] is a destination file that
    [openDestinationFile] has opened for the entry [md] and that has
    been written since by successful calls of
    [appendCompressedStreamToFile], the only code that writes to it, none
    of them a hole of negative size; [bs] is what these calls have sent
    to the file, in order.  Every call comes with its own reader, fuel
    and copy buffer: what an earlier copy has left in the copy buffer
    is not constrained. *)
Inductive Written (md : FileMetadata) (skip rv : bool)
    : destinationFile -> list Byte.byte -> Prop :=
  | Written_open d :
      openDestinationFile None md skip rv = inl d ->
      Written md skip rv d []
  | Written_append d bs fuel c copyBuffer d' copyBuffer' :
      Written md skip rv d bs ->
      (ac_compression c = fileTypeHole -> 0 <= ac_size c) ->
      appendCompressedStreamToFile fuel (ac_compression c) (ac_decoded c) d (ac_size c)
        copyBuffer = Appended d' copyBuffer' ->
      Written md skip rv d' (bs ++ callBytes c).

(** A freshly opened destination file. *)
Definition freshFile (metadata : FileMetadata) (skipValidation recordFsVerity : bool)
    : destinationFile :=
  {| file := {| f_name := Name metadata; f_data := []; f_pos := 0 |};
     hash := if skipValidation then None else Some [];
     metadata := metadata;
     skipValidation := skipValidation;
     recordFsVerity := recordFsVerity |}.

(** Every system call of [Close] succeeds. *)
Definition okEnv : closeEnv :=
  {| setFileAttrsErr := None; reopenErr := None; fileCloseErr := None;
     recordFsVerityErr := None |}.

(** ** 4.C Entry merger: [mergeTocEntries] *)

(** The names of the eStargz metadata files (package [estargz]). *)
Definition PrefetchLandmark : string := ".prefetch.landmark"%string.
Definition NoPrefetchLandmark : string := ".no.prefetch.landmark"%string.
Definition TOCTarName : string := "stargz.index.json"%string.

Definition mustSkipFile (fileType : Z) (e : FileMetadata) : bool :=
  if negb (fileType =? fileTypeEstargz) then false
  else String.eqb (Name e) PrefetchLandmark
       || String.eqb (Name e) NoPrefetchLandmark
       || String.eqb (Name e) TOCTarName.

Definition isChunk (e : FileMetadata) : bool := String.eqb (Type_ e) TypeChunk.
Definition isReg (e : FileMetadata) : bool := String.eqb (Type_ e) TypeReg.

(** The closure [countNextChunks], applied to [entries[start:]]. *)
Fixpoint countNextChunks (entries : list FileMetadata) : nat :=
  match entries with
  | [] => O
  | e :: rest => if negb (isChunk e) then O else S (countNextChunks rest)
  end.

(** The first loop: the length of [mergedEntries]. *)
Fixpoint mergedSize (fileType : Z) (entries : list FileMetadata) : nat :=
  match entries with
  | [] => O
  | entry :: rest =>
      if mustSkipFile fileType entry then mergedSize fileType rest
      else if negb (isChunk entry) then S (mergedSize fileType rest)
      else mergedSize fileType rest
  end.

(** The zero value of the struct, which [make] fills the slice with. *)
Definition zeroFileMetadata : FileMetadata :=
  {| Type_ := ""; Name := ""; Linkname := ""; Mode := 0; Size := 0;
     UID := 0; GID := 0; ModTime := None; AccessTime := None; ChangeTime := None;
     Devmajor := 0; Devminor := 0; Xattrs := None; Digest := "";
     Offset := 0; EndOffset := 0; ChunkSize := 0; ChunkOffset := 0;
     ChunkDigest := ""; ChunkType := ""; Chunks := [] |}.

(** [e.Chunks = chunks; e.EndOffset = endOffset]. *)
Definition withChunks (e : FileMetadata) (chunks : list FileMetadata) (endOffset : Z)
    : FileMetadata :=
  {| Type_ := Type_ e; Name := Name e; Linkname := Linkname e; Mode := Mode e;
     Size := Size e; UID := UID e; GID := GID e; ModTime := ModTime e;
     AccessTime := AccessTime e; ChangeTime := ChangeTime e;
     Devmajor := Devmajor e; Devminor := Devminor e; Xattrs := Xattrs e;
     Digest := Digest e; Offset := Offset e; EndOffset := endOffset;
     ChunkSize := ChunkSize e; ChunkOffset := ChunkOffset e;
     ChunkDigest := ChunkDigest e; ChunkType := ChunkType e; Chunks := chunks |}.

(** [c.EndOffset = endOffset; c.Size = c.EndOffset - c.Offset]. *)
Definition withEndAndSize (c : FileMetadata) (endOffset : Z) : FileMetadata :=
  {| Type_ := Type_ c; Name := Name c; Linkname := Linkname c; Mode := Mode c;
     Size := to_int (endOffset - Offset c); UID := UID c; GID := GID c;
     ModTime := ModTime c; AccessTime := AccessTime c; ChangeTime := ChangeTime c;
     Devmajor := Devmajor c; Devminor := Devminor c; Xattrs := Xattrs c;
     Digest := Digest c; Offset := Offset c; EndOffset := endOffset;
     ChunkSize := ChunkSize c; ChunkOffset := ChunkOffset c;
     ChunkDigest := ChunkDigest c; ChunkType := ChunkType c; Chunks := Chunks c |}.

Inductive mergeResult :=
  | Merged (mergedEntries : list FileMetadata) (totalFilesSize : Z)
  | MergeError (msg : string)
  | MergePanic.

(** The body of [if e.Type == TypeReg]: the copies of [entries[i..i+nChunks]]
    become the chunks, and [EndOffset] is that of the last of them. *)
Definition absorbChunks (e : FileMetadata) (rest : list FileMetadata) : FileMetadata * nat :=
  let nChunks := countNextChunks rest in
  let chunks := e :: take nChunks rest in
  (withChunks e chunks (EndOffset (List.last chunks e)), nChunks).

(** The second loop.  [entries] is [entries[i:]]; [skip] counts the
    entries still to step over after [i += nChunks].  An index outside
    [mergedEntries] is a panic. *)
Fixpoint mergeLoop (fileType : Z) (skip : nat) (entries : list FileMetadata)
    (m : nat) (mergedEntries : list FileMetadata) (totalFilesSize : Z) : mergeResult :=
  match entries with
  | [] => Merged mergedEntries totalFilesSize
  | e :: rest =>
      match skip with
      | S skip' => mergeLoop fileType skip' rest m mergedEntries totalFilesSize
      | O =>
          if mustSkipFile fileType e
          then mergeLoop fileType 0 rest m mergedEntries totalFilesSize
          else
            let totalFilesSize := to_int (totalFilesSize + Size e) in
            if isChunk e then MergeError "chunk type without a regular file"
            else
              let '(e', nChunks) := if isReg e then absorbChunks e rest else (e, O) in
              if (m <? length mergedEntries)%nat
              then mergeLoop fileType nChunks rest (S m) (<[m := e']> mergedEntries)
                     totalFilesSize
              else MergePanic
      end
  end.

(** The inner loop of the last pass, over the chunks from the last to
    the first; returns the chunks and the final [lastChunkOffset]. *)
Fixpoint fixChunks (endOffset : Z) (chunks : list FileMetadata) : list FileMetadata * Z :=
  match chunks with
  | [] => ([], endOffset)
  | c :: chunks' =>
      let '(fixed, lastChunkOffset) := fixChunks endOffset chunks' in
      (withEndAndSize c lastChunkOffset :: fixed, Offset c)
  end.

(** The last pass, over the merged entries from the last to the first;
    returns the entries and the final [lastOffset]. *)
Fixpoint fixEndOffsets (tocOffset : Z) (mergedEntries : list FileMetadata)
    : list FileMetadata * Z :=
  match mergedEntries with
  | [] => ([], tocOffset)
  | e :: rest =>
      let '(fixed, lastOffset) := fixEndOffsets tocOffset rest in
      let endOffset := if EndOffset e =? 0 then lastOffset else EndOffset e in
      let lastOffset := if negb (Offset e =? 0) then Offset e else lastOffset in
      (withChunks e (fixChunks endOffset (Chunks e)).1 endOffset :: fixed, lastOffset)
  end.

(** [mergeTocEntries]; [tocOffset] is [c.tocOffset]. *)
Definition mergeTocEntries (tocOffset fileType : Z) (entries : list FileMetadata)
    : mergeResult :=
  let size := mergedSize fileType entries in
  match mergeLoop fileType 0 entries 0 (replicate size zeroFileMetadata) 0 with
  | Merged mergedEntries totalFilesSize =>
      Merged (fixEndOffsets tocOffset mergedEntries).1 totalFilesSize
  | r => r
  end.

(** *** Small inputs *)

Definition tocEntry (type name : string) (size offset : Z) : FileMetadata :=
  {| Type_ := type; Name := name; Linkname := ""; Mode := 420; Size := size;
     UID := 0; GID := 0; ModTime := None; AccessTime := None; ChangeTime := None;
     Devmajor := 0; Devminor := 0; Xattrs := None; Digest := "";
     Offset := offset; EndOffset := 0; ChunkSize := 0; ChunkOffset := 0;
     ChunkDigest := ""; ChunkType := ""; Chunks := [] |}.

(** The second loop again, building the result by appending instead of
    writing into the preallocated slice; [mergeLoop_list] shows that the
    two agree. *)
Fixpoint mergeLoopList (fileType : Z) (skip : nat) (entries : list FileMetadata)
    (totalFilesSize : Z) : mergeResult :=
  match entries with
  | [] => Merged [] totalFilesSize
  | e :: rest =>
      match skip with
      | S skip' => mergeLoopList fileType skip' rest totalFilesSize
      | O =>
          if mustSkipFile fileType e then mergeLoopList fileType 0 rest totalFilesSize
          else
            let totalFilesSize := to_int (totalFilesSize + Size e) in
            if isChunk e then MergeError "chunk type without a regular file"
            else
              let '(e', nChunks) := if isReg e then absorbChunks e rest else (e, O) in
              match mergeLoopList fileType nChunks rest totalFilesSize with
              | Merged l t => Merged (e' :: l) t
              | r => r
              end
      end
  end.

(** *** The merge, as the specification words it *)

(** The chunk-continuation entries that are not immediately preceded by
    a regular-file entry or by one of its continuation chunks.
    [afterReg] tells whether the previous entry was one of these. *)
Fixpoint strayChunks (afterReg : bool) (entries : list FileMetadata) : list FileMetadata :=
  match entries with
  | [] => []
  | e :: rest =>
      if isChunk e then
        if afterReg then strayChunks true rest else e :: strayChunks false rest
      else strayChunks (isReg e) rest
  end.

(** The same, taking the dropped codec metadata into account: a dropped
    regular file starts no run, and a dropped chunk entry outside a run
    is not counted. *)
Fixpoint orphanChunks (fileType : Z) (inRun : bool) (entries : list FileMetadata)
    : list FileMetadata :=
  match entries with
  | [] => []
  | e :: rest =>
      if isChunk e then
        if inRun then orphanChunks fileType true rest
        else (if mustSkipFile fileType e then [] else [e])
             ++ orphanChunks fileType false rest
      else orphanChunks fileType (isReg e && negb (mustSkipFile fileType e)) rest
  end.

Definition startsWithChunk (entries : list FileMetadata) : bool :=
  match entries with
  | e :: _ => isChunk e
  | [] => false
  end.

(** [MergesTo fileType entries l]: [l] is [entries] with the codec
    metadata dropped and every regular file followed by a run of
    continuation entries turned into one entry whose chunk list is the
    file entry itself and then the run. *)
Inductive MergesTo (fileType : Z) : list FileMetadata -> list FileMetadata -> Prop :=
  | MergesTo_nil : MergesTo fileType [] []
  | MergesTo_skip e rest l :
      mustSkipFile fileType e = true ->
      MergesTo fileType rest l ->
      MergesTo fileType (e :: rest) l
  | MergesTo_other e rest l :
      mustSkipFile fileType e = false -> isChunk e = false -> isReg e = false ->
      MergesTo fileType rest l ->
      MergesTo fileType (e :: rest) (e :: l)
  | MergesTo_reg r run rest l :
      mustSkipFile fileType r = false -> isReg r = true ->
      forallb isChunk run = true -> startsWithChunk rest = false ->
      MergesTo fileType rest l ->
      MergesTo fileType (r :: run ++ rest)
        (withChunks r (r :: run) (EndOffset (List.last (r :: run) r)) :: l).

(** An entry without its chunk list. *)
Definition withoutChunks (e : FileMetadata) : FileMetadata :=
  withChunks e [] (EndOffset e).

(** The running sum [totalFilesSize += e.Size] over a list of entries. *)
Definition sumSizes (l : list FileMetadata) (total : Z) : Z :=
  fold_left (fun t e => to_int (t + Size e)) l total.

(** What a second merge makes of an entry of a merged list: a regular
    entry gets itself as its only chunk. *)
Definition remerged (e : FileMetadata) : FileMetadata :=
  if isReg e then withChunks e [e] (EndOffset e) else e.

(** A regular file of 100 bytes stored as two chunks, at offsets 10 and
    50 of the blob. *)
Definition twoChunkFileEntries : list FileMetadata :=
  [tocEntry TypeReg "a" 100 10; tocEntry TypeChunk "a" 0 50].

(** ** 4.D Dedup probe: metadata compatibility for hard links *)

(** [xattrsToIgnore], a map used as a set. *)
Definition xattrsToIgnore : gset string := {[ "security.selinux"%string ]}.

(** [reflect.DeepEqual] on two [map[string]string]: both nil, or both
    non-nil with the same keys and values.  A nil map and an empty map
    are not deeply equal. *)
Definition deepEqualXattrs (a b : option (gmap string string)) : bool :=
  bool_decide (a = b).

Definition canDedupMetadataWithHardLink (file otherFile : FileMetadata) : bool :=
  if negb (UID file =? UID otherFile) then false
  else if negb (GID file =? GID otherFile) then false
  else if negb (Mode file =? Mode otherFile) then false
  else if negb (deepEqualXattrs (Xattrs file) (Xattrs otherFile)) then false
  else true.

(** The fields of [syscall.Stat_t] that are read (all [uint32]). *)
Record Stat_t := mkStat_t {
  st_Uid : Z;
  st_Gid : Z;
  st_Mode : Z
}.

(** What the system answers about the open candidate file: [s.Sys()]
    ([None] when it is not a [*syscall.Stat_t]), [Llistxattr] and
    [Lgetxattr] ([None] for an error). *)
Record candidateFile := mkCandidateFile {
  c_Sys : option Stat_t;
  c_Llistxattr : option (list string);
  c_Lgetxattr : string -> option string
}.

(** The loop over [listXattrs], filling [xattrs]. *)
Fixpoint readXattrs (Lgetxattr : string -> option string) (listXattrs : list string)
    (xattrs : gmap string string) : option (gmap string string) :=
  match listXattrs with
  | [] => Some xattrs
  | x :: rest =>
      match Lgetxattr x with
      | None => None
      | Some v =>
          if bool_decide (x ∈ xattrsToIgnore) then readXattrs Lgetxattr rest xattrs
          else readXattrs Lgetxattr rest (<[x := v]> xattrs)
      end
  end.

Definition canDedupFileWithHardLink (file : FileMetadata) (cand : candidateFile) : bool :=
  match c_Sys cand with
  | None => false
  | Some st =>
      match c_Llistxattr cand with
      | None => false
      | Some listXattrs =>
          match readXattrs (c_Lgetxattr cand) listXattrs ∅ with
          | None => false
          | Some xattrs =>
              let otherFile :=
                {| Type_ := ""; Name := ""; Linkname := ""; Mode := st_Mode st; Size := 0;
                   UID := st_Uid st; GID := st_Gid st;
                   ModTime := None; AccessTime := None; ChangeTime := None;
                   Devmajor := 0; Devminor := 0; Xattrs := Some xattrs; Digest := "";
                   Offset := 0; EndOffset := 0; ChunkSize := 0; ChunkOffset := 0;
                   ChunkDigest := ""; ChunkType := ""; Chunks := [] |} in
              canDedupMetadataWithHardLink file otherFile
          end
      end
  end.

(** A candidate whose metadata can be read: owner, mode and the
    extended attributes [xattrs], listed in the order [names]. *)
Definition readableCandidate (uid gid mode : Z) (names : list string)
    (xattrs : gmap string string) : candidateFile :=
  {| c_Sys := Some {| st_Uid := uid; st_Gid := gid; st_Mode := mode |};
     c_Llistxattr := Some names;
     c_Lgetxattr := fun x => xattrs !! x |}.

(** The extended attributes of the candidate without the ignored ones. *)
Definition withoutIgnored (xattrs : gmap string string) : gmap string string :=
  filter (fun kv => kv.1 ∉ xattrsToIgnore) xattrs.

(** Metadata compatibility as the specification words it: same owner and
    mode, and the candidate's attributes without the ignored ones are
    the attributes of the TOC entry.  A nil Go map has no entries. *)
Definition metadataCompatible (file : FileMetadata) (uid gid mode : Z)
    (xattrs : gmap string string) : Prop :=
  UID file = uid /\ GID file = gid /\ Mode file = mode /\
  default ∅ (Xattrs file) = withoutIgnored xattrs.

(** The metadata the TOC requires: a regular file owned by 1000:1000
    with mode 0100644 and no xattrs object in its TOC entry. *)
Definition plainFileEntry : FileMetadata :=
  {| Type_ := TypeReg; Name := "etc/motd"; Linkname := ""; Mode := 33188; Size := 12;
     UID := 1000; GID := 1000; ModTime := None; AccessTime := None; ChangeTime := None;
     Devmajor := 0; Devminor := 0; Xattrs := None; Digest := "";
     Offset := 0; EndOffset := 0; ChunkSize := 0; ChunkOffset := 0;
     ChunkDigest := ""; ChunkType := ""; Chunks := [] |}.

(** A candidate with the same owner and mode whose only extended
    attribute is the ignored SELinux label. *)
Definition selinuxLabel : gmap string string :=
  {[ "security.selinux"%string := "system_u:object_r:etc_t:s0"%string ]}.

Definition labelledCandidate : candidateFile :=
  readableCandidate 1000 1000 33188 ["security.selinux"%string] selinuxLabel.

(** *** Inputs used by the properties below *)

(** The input on which the cost-driven pass breaks the invariant: four
    consecutive chunks of one file, the two in the middle found in
    another layer. *)
Definition interleavedOriginParts : list missingPart :=
  [remotePart "f" 0 10 10; originPart "f" 10 50 50;
   originPart "f" 60 30 30; remotePart "f" 90 5 5].

(** The input on which a merged adjacency adds no gap chunk: two files
    stored back to back in the blob. *)
Definition backToBackParts : list missingPart :=
  [remotePart "a" 0 10 10; remotePart "b" 10 10 10].

(** Two files stored four bytes apart in the blob. *)
Definition gappedParts : list missingPart :=
  [remotePart "a" 0 10 10; remotePart "b" 14 10 10].

Definition errChunkWithoutFile : string := "chunk type without a regular file".

(** The input on which no error is returned although a chunk entry has
    no regular file before it: an eStargz TOC whose only entry is a chunk
    entry named like the prefetch landmark. *)
Definition landmarkChunkEntries : list FileMetadata :=
  [tocEntry TypeChunk PrefetchLandmark 0 0].

(** A digester for small examples: the digest of a byte string is the
    string itself behind the prefix "raw:", and a digest validates when
    it has that prefix. *)
Definition rawDigest (bs : list Byte.byte) : string :=
  String "r" (String "a" (String "w" (String ":" (string_of_list_byte bs)))).

Definition rawDigester : Digester :=
  {| FromBytes := rawDigest;
     Validate := fun s =>
       match s with
       | String "r" (String "a" (String "w" (String ":" _))) => true
       | _ => false
       end;
     FromBytes_valid := fun _ => eq_refl |}.

(** A TOC entry for a file of four zero bytes followed by "ab". *)
Definition sparseFileEntry : FileMetadata :=
  {| Type_ := TypeReg; Name := "var/sparse"; Linkname := ""; Mode := 420; Size := 6;
     UID := 0; GID := 0; ModTime := None; AccessTime := None; ChangeTime := None;
     Devmajor := 0; Devminor := 0; Xattrs := None;
     Digest := rawDigest [Byte.x00; Byte.x00; Byte.x00; Byte.x00; Byte.x61; Byte.x62];
     Offset := 0; EndOffset := 0; ChunkSize := 0; ChunkOffset := 0;
     ChunkDigest := ""; ChunkType := ""; Chunks := [] |}.

(** The two calls that write it: a hole of four bytes, then two bytes
    of an uncompressed stream that holds three. *)
Definition sparseFileHole : appendCall :=
  {| ac_compression := fileTypeHole; ac_decoded := []; ac_size := 4 |}.

Definition sparseFileData : appendCall :=
  {| ac_compression := fileTypeNoCompression;
     ac_decoded := [Byte.x61; Byte.x62; Byte.x63]; ac_size := 2 |}.

(** The same entry with a manifest digest that does not parse. *)
Definition malformedDigestEntry : FileMetadata :=
  {| Type_ := TypeReg; Name := "var/sparse"; Linkname := ""; Mode := 420; Size := 6;
     UID := 0; GID := 0; ModTime := None; AccessTime := None; ChangeTime := None;
     Devmajor := 0; Devminor := 0; Xattrs := None;
     Digest := "not-a-digest";
     Offset := 0; EndOffset := 0; ChunkSize := 0; ChunkOffset := 0;
     ChunkDigest := ""; ChunkType := ""; Chunks := [] |}.

(** A TOC entry of one byte whose manifest digest is that of "abc", and
    the two calls planned for it when its first chunk states a size of
    three bytes and its second chunk is a run of zeros: three bytes of
    data, then a hole of minus two bytes. *)
Definition shortFileEntry : FileMetadata :=
  {| Type_ := TypeReg; Name := "var/short"; Linkname := ""; Mode := 420; Size := 1;
     UID := 0; GID := 0; ModTime := None; AccessTime := None; ChangeTime := None;
     Devmajor := 0; Devminor := 0; Xattrs := None;
     Digest := rawDigest [Byte.x61; Byte.x62; Byte.x63];
     Offset := 0; EndOffset := 0; ChunkSize := 0; ChunkOffset := 0;
     ChunkDigest := ""; ChunkType := ""; Chunks := [] |}.

(** A copy buffer of three bytes left dirty by an earlier copy. *)
Definition dirtyBuffer : list Byte.byte := [Byte.x41; Byte.x42; Byte.x43].

(** A TOC entry whose content is 4096 zero bytes. *)
Definition zeroFileEntry : FileMetadata :=
  {| Type_ := TypeReg; Name := "var/zero"; Linkname := ""; Mode := 420; Size := 4096;
     UID := 0; GID := 0; ModTime := None; AccessTime := None; ChangeTime := None;
     Devmajor := 0; Devminor := 0; Xattrs := None;
     Digest := rawDigest (zeros 4096);
     Offset := 0; EndOffset := 0; ChunkSize := 0; ChunkOffset := 0;
     ChunkDigest := ""; ChunkType := ""; Chunks := [] |}.

(** Three consecutive chunks of one file, the last one after a gap of
    five bytes. *)
Definition threeChunkParts : list missingPart :=
  [remotePart "a" 0 10 10; remotePart "a" 10 10 10; remotePart "a" 25 10 10].

(** ** Further properties: definitions *)

(** *** Request planner *)

(** [spans g p]: the byte range of the output part [p] starts where the
    first part of the run [g] starts and ends where its last part ends
    (end offsets are [uint64] sums). *)
Definition spans (g : list missingPart) (p : missingPart) : Prop :=
  exists first final,
    head g = Some first /\ last g = Some final /\
    sc_Offset (mp_SourceChunk p) = sc_Offset (mp_SourceChunk first) /\
    partEnd p = partEnd final.

(** The compressed and the uncompressed sizes of all chunks of a list of
    parts, added up. *)
Definition sumChunks (size : missingFileChunk -> Z) (parts : list missingPart) : Z :=
  foldr Z.add 0 (size <$> concat (mp_Chunks <$> parts)).

Definition sumCompressed : list missingPart -> Z := sumChunks mfc_CompressedSize.

Definition sumUncompressed : list missingPart -> Z := sumChunks mfc_UncompressedSize.

(** *** Destination writer *)

(** The validation step of [Close] lets the file through: it is trusted,
    or its manifest digest parses and equals the digest of the hash
    state [h]. *)
Definition validationPasses `{Digester} (d : destinationFile) (h : list Byte.byte) : Prop :=
  skipValidation d = true \/
  (Validate (Digest (metadata d)) = true /\ FromBytes h = Digest (metadata d)).

(** The system calls of [Close] that are made all succeed; the two calls
    about fs-verity are made only when the callback is set. *)
Definition closeCallsSucceed (env : closeEnv) (d : destinationFile) : Prop :=
  setFileAttrsErr env = None /\ fileCloseErr env = None /\
  (recordFsVerity d = true -> reopenErr env = None /\ recordFsVerityErr env = None).

(** *** [chunkedDiffer.recordFsVerity] *)

(** [graphdriver.DifferFsVerity]: disabled, used when the filesystem
    supports it, or required. *)
Inductive DifferFsVerity :=
  | DifferFsVerityDisabled
  | DifferFsVerityEnabled
  | DifferFsVerityRequired.

(** The errors of [fsverity.EnableVerity] and [fsverity.MeasureVerity]
    as [errors.Is] tells them apart. *)
Inductive verityError :=
  | ENOTSUP
  | ENOTTY
  | EVerityOther (msg : string).

(** [recordFsVerity] of the differ.  [enable] is the outcome of
    [fsverity.EnableVerity] and [measure] that of
    [fsverity.MeasureVerity]; the first component of the result is the
    map [c.fsVerityDigests] afterwards (the mutex only orders the
    writers). *)
Definition differRecordFsVerity (useFsVerity : DifferFsVerity)
    (fsVerityDigests : gmap string string) (path : string)
    (enable : option verityError) (measure : string + verityError)
    : gmap string string * option verityError :=
  match useFsVerity with
  | DifferFsVerityDisabled => (fsVerityDigests, None)
  | _ =>
      let proceed :=
        match measure with
        | inr err => (fsVerityDigests, Some err)
        | inl verity => (<[path := verity]> fsVerityDigests, None)
        end in
      match enable with
      | Some err =>
          if useFsVerity is DifferFsVerityRequired then (fsVerityDigests, Some err)
          else
            match err with
            | ENOTSUP | ENOTTY => (fsVerityDigests, None)
            | _ => proceed
            end
      | None => proceed
      end
  end.

(** *** Entry merger *)

(** The entries the merger keeps as entries of their own. *)
Definition keptEntry (fileType : Z) (e : FileMetadata) : bool :=
  negb (mustSkipFile fileType e) && negb (isChunk e).

(** An entry without what the merger computes: its chunk list and its
    end offset. *)
Definition asListed (e : FileMetadata) : FileMetadata := withChunks e [] 0.

(** [tiles endOffset chunks]: every chunk ends where the next one
    starts, the last one ends at [endOffset], and the size of a chunk is
    the length of its range. *)
Fixpoint tiles (endOffset : Z) (chunks : list FileMetadata) : Prop :=
  match chunks with
  | [] => True
  | c :: rest =>
      Size c = to_int (EndOffset c - Offset c) /\
      match rest with
      | [] => EndOffset c = endOffset
      | c' :: _ => EndOffset c = Offset c'
      end /\
      tiles endOffset rest
  end.

(** The offset of the first entry of the list that has one, [tocOffset]
    when there is none. *)
Fixpoint firstOffset (tocOffset : Z) (l : list FileMetadata) : Z :=
  match l with
  | [] => tocOffset
  | e :: rest => if negb (Offset e =? 0) then Offset e else firstOffset tocOffset rest
  end.

(** *** Dedup probe *)

(** A TOC entry of a file owned by 1000:1000 that carries one extended
    attribute, and a candidate file with the same metadata. *)
Definition userXattrs : gmap string string := {[ "user.origin"%string := "build"%string ]}.

Definition xattrFileEntry : FileMetadata :=
  {| Type_ := TypeReg; Name := "usr/bin/tool"; Linkname := ""; Mode := 33261; Size := 12;
     UID := 1000; GID := 1000; ModTime := None; AccessTime := None; ChangeTime := None;
     Devmajor := 0; Devminor := 0; Xattrs := Some userXattrs; Digest := "";
     Offset := 0; EndOffset := 0; ChunkSize := 0; ChunkOffset := 0;
     ChunkDigest := ""; ChunkType := ""; Chunks := [] |}.

(** A candidate whose SELinux label cannot be read. *)
Definition unreadableLabelCandidate : candidateFile :=
  {| c_Sys := Some {| st_Uid := 1000; st_Gid := 1000; st_Mode := 33261 |};
     c_Llistxattr := Some ["security.selinux"%string; "user.origin"%string];
     c_Lgetxattr := fun x => if String.eqb x "security.selinux" then None
                             else userXattrs !! x |}.

(** *** ID remapping: [maybeDoIDRemap] *)

(** [idtools.IDPair]. *)
Record IDPair := mkIDPair {
  ip_UID : Z;
  ip_GID : Z
}.

(** The fields of [archive.TarOptions] that are read here; the type of
    an ID map entry is left open. *)
Record TarOptions (IDMap : Type) := mkTarOptions {
  ChownOpts : option IDPair;
  UIDMaps : list IDMap;
  GIDMaps : list IDMap
}.
Arguments ChownOpts {IDMap} _.
Arguments UIDMaps {IDMap} _.
Arguments GIDMaps {IDMap} _.

(** The ID mappings, an external collaborator: [ToContainer uidMaps
    gidMaps pair] is [NewIDMappingsFromMaps(uidMaps,
    gidMaps).ToContainer(pair)], which returns two ids and an error. *)
Class IDMappings (IDMap : Type) :=
  ToContainer : list IDMap -> list IDMap -> IDPair -> Z * Z * option error.

(** [manifest[i].UID, manifest[i].GID = uid, gid]. *)
Definition withIDs (e : FileMetadata) (uid gid : Z) : FileMetadata :=
  {| Type_ := Type_ e; Name := Name e; Linkname := Linkname e; Mode := Mode e;
     Size := Size e; UID := uid; GID := gid; ModTime := ModTime e;
     AccessTime := AccessTime e; ChangeTime := ChangeTime e;
     Devmajor := Devmajor e; Devminor := Devminor e; Xattrs := Xattrs e;
     Digest := Digest e; Offset := Offset e; EndOffset := EndOffset e;
     ChunkSize := ChunkSize e; ChunkOffset := ChunkOffset e;
     ChunkDigest := ChunkDigest e; ChunkType := ChunkType e; Chunks := Chunks e |}.

(** The loop over the manifest, which is changed in place: the result is
    the manifest as the caller finds it afterwards, and the error.  The
    triple assignment stores the ids that [ToContainer] returns also
    when it returns an error. *)
Fixpoint remapLoop (chownOpts : option IDPair)
    (toContainer : IDPair -> Z * Z * option error)
    (manifest : list FileMetadata) : list FileMetadata * option error :=
  match manifest with
  | [] => ([], None)
  | e :: rest =>
      match chownOpts with
      | Some ids =>
          let '(rest', err) := remapLoop chownOpts toContainer rest in
          (withIDs e (ip_UID ids) (ip_GID ids) :: rest', err)
      | None =>
          let '(uid, gid, err) := toContainer {| ip_UID := UID e; ip_GID := GID e |} in
          match err with
          | Some _ => (withIDs e uid gid :: rest, err)
          | None =>
              let '(rest', err') := remapLoop chownOpts toContainer rest in
              (withIDs e uid gid :: rest', err')
          end
      end
  end.

Definition isNil {A : Type} (o : option A) : bool :=
  if o is Some _ then false else true.

Definition maybeDoIDRemap {IDMap : Type} `{IDMappings IDMap}
    (manifest : list FileMetadata) (options : TarOptions IDMap)
    : list FileMetadata * option error :=
  if isNil (ChownOpts options) && (length (UIDMaps options) =? 0)%nat
     || (length (GIDMaps options) =? 0)%nat
  then (manifest, None)
  else remapLoop (ChownOpts options)
         (ToContainer (UIDMaps options) (GIDMaps options)) manifest.

(** An entry without its owner. *)
Definition withoutIDs (e : FileMetadata) : FileMetadata := withIDs e 0 0.

(** A mapping for small examples: one map entry [(first, n)] maps the
    ids [first .. first+n-1] to [0 .. n-1]; anything else is an error
    with the ids -1. *)
Definition shiftMappings : IDMappings (Z * Z) :=
  fun uidMaps gidMaps pair =>
    let toContainer maps id :=
      match maps with
      | (first, n) :: _ =>
          if (first <=? id) && (id <? first + n) then Some (id - first) else None
      | [] => None
      end in
    match toContainer uidMaps (ip_UID pair) with
    | None => (-1, -1, Some (ErrOther "host ID not mapped"))
    | Some uid =>
        match toContainer gidMaps (ip_GID pair) with
        | None => (uid, -1, Some (ErrOther "host ID not mapped"))
        | Some gid => (uid, gid, None)
        end
    end.

(** A manifest of three files owned by 1000:1000, 70000:1000 and
    1001:1001. *)
Definition ownedEntry (name : string) (uid gid : Z) : FileMetadata :=
  withIDs (mkFile name) uid gid.

Definition threeOwners : list FileMetadata :=
  [ownedEntry "a" 1000 1000; ownedEntry "b" 70000 1000; ownedEntry "c" 1001 1001].

(** *** Planning the missing parts: the last loop of [ApplyDiff] *)

Definition maxNumberMissingChunks : Z := 1024.

(** The two chunk types the loop distinguishes, constants of the package
    [internal]; a Go [switch] requires its case constants to differ. *)
Class ChunkTypes := {
  ChunkTypeData : string;
  ChunkTypeZeros : string;
  ChunkTypes_differ : ChunkTypeData <> ChunkTypeZeros
}.

(** The layers cache and the checksum test, external collaborators:
    [findChunkInOtherLayers chunk] answers root, path and offset, or an
    error; [validateChunkChecksum chunk root path offset] (the copy
    buffer is scratch space). *)
Class ChunkCache := {
  findChunkInOtherLayers : FileMetadata -> (string * string * Z) + error;
  validateChunkChecksum : FileMetadata -> string -> string -> Z -> bool
}.

(** The part [mp] built for one chunk of the entry [r], before the
    [switch]. *)
Definition chunkPart (r chunk : FileMetadata) (size : Z) : missingPart :=
  let compressedSize := to_int (EndOffset chunk - Offset chunk) in
  {| mp_Hole := false;
     mp_SourceChunk := {| sc_Offset := wrap64 (Offset chunk);
                          sc_Length := wrap64 compressedSize |};
     mp_OriginFile := None;
     mp_Chunks := [ {| mfc_Gap := 0; mfc_Hole := false; mfc_File := Some r;
                       mfc_CompressedSize := compressedSize;
                       mfc_UncompressedSize := size |} ] |}.

(** [mp.OriginFile = &originFile{...}]. *)
Definition withOriginFile (mp : missingPart) (o : originFile) : missingPart :=
  {| mp_Hole := mp_Hole mp; mp_SourceChunk := mp_SourceChunk mp;
     mp_OriginFile := Some o; mp_Chunks := mp_Chunks mp |}.

(** [mp.Hole = true] and [Hole = true] on every chunk of the part. *)
Definition asHole (mp : missingPart) : missingPart :=
  {| mp_Hole := true; mp_SourceChunk := mp_SourceChunk mp;
     mp_OriginFile := mp_OriginFile mp;
     mp_Chunks := map (fun c => {| mfc_Gap := mfc_Gap c; mfc_Hole := true;
                                   mfc_File := mfc_File c;
                                   mfc_CompressedSize := mfc_CompressedSize c;
                                   mfc_UncompressedSize := mfc_UncompressedSize c |})
                      (mp_Chunks mp) |}.

(** The loop over [r.Chunks]: the parts appended to [missingParts] and
    the new [missingPartsSize], or the error of the cache. *)
Fixpoint planChunks `{ChunkTypes} `{ChunkCache} (r : FileMetadata)
    (chunks : list FileMetadata) (remainingSize missingPartsSize : Z)
    (missingParts : list missingPart) : (list missingPart * Z) + error :=
  match chunks with
  | [] => inl (missingParts, missingPartsSize)
  | chunk :: rest =>
      let size := if 0 <? ChunkSize chunk then ChunkSize chunk else remainingSize in
      let remainingSize := to_int (remainingSize - size) in
      let mp := chunkPart r chunk size in
      if String.eqb (ChunkType chunk) ChunkTypeData then
        match findChunkInOtherLayers chunk with
        | inr err => inr err
        | inl (root, path, offset) =>
            if (0 <=? offset) && validateChunkChecksum chunk root path offset
            then planChunks r rest remainingSize (to_int (missingPartsSize - size))
                   (missingParts ++
                    [withOriginFile mp {| of_Root := root; of_Path := path;
                                          of_Offset := offset |}])
            else planChunks r rest remainingSize missingPartsSize (missingParts ++ [mp])
        end
      else if String.eqb (ChunkType chunk) ChunkTypeZeros then
        planChunks r rest remainingSize (to_int (missingPartsSize - size))
          (missingParts ++ [asHole mp])
      else planChunks r rest remainingSize missingPartsSize (missingParts ++ [mp])
  end.

(** One result of a copy job: the index of its entry in
    [mergedEntries], whether the file was found, and the error. *)
Record copyResult := mkCopyResult {
  cr_index : nat;
  cr_found : bool;
  cr_err : option error
}.

Inductive planResult :=
  | Planned (missingParts : list missingPart) (missingPartsSize : Z)
  | PlanError (err : error)
  | PlanPanic.

(** The loop over [copyResults[:filesToWaitFor]].  The entry is looked
    up before the error of the job is tested. *)
Fixpoint planResults `{ChunkTypes} `{ChunkCache} (mergedEntries : list FileMetadata)
    (copyResults : list copyResult) (missingPartsSize : Z)
    (missingParts : list missingPart) : planResult :=
  match copyResults with
  | [] => Planned missingParts missingPartsSize
  | res :: rest =>
      match mergedEntries !! cr_index res with
      | None => PlanPanic
      | Some r =>
          if cr_err res is Some err then PlanError err
          else if cr_found res
          then planResults mergedEntries rest missingPartsSize missingParts
          else
            match planChunks r (Chunks r) (Size r) (to_int (missingPartsSize + Size r))
                    missingParts with
            | inr err => PlanError err
            | inl (missingParts, missingPartsSize) =>
                planResults mergedEntries rest missingPartsSize missingParts
            end
      end
  end.

(** A part as the loop builds it: one chunk, which carries the file and
    no gap, and is a hole exactly when the part is one; a part is never
    both a hole and a copy from a local file. *)
Definition plannedPart (p : missingPart) : Prop :=
  exists c, mp_Chunks p = [c] /\ is_Some (mfc_File c) /\ mfc_Gap c = 0 /\
            mfc_Hole c = mp_Hole p /\
            (mp_Hole p = true -> mp_OriginFile p = None).

(** A part that has to be fetched from the blob. *)
Definition remotePartOf (r : FileMetadata) (p : missingPart) : Prop :=
  mp_Hole p = false /\ mp_OriginFile p = None /\
  exists c, mp_Chunks p = [c] /\ mfc_File c = Some r.

(** The chunk types of the package [internal] as strings, and a cache
    that knows one chunk, by its digest. *)
Definition plainChunkTypes : ChunkTypes :=
  {| ChunkTypeData := ""; ChunkTypeZeros := "zeros";
     ChunkTypes_differ := ltac:(discriminate) |}.

Definition oneChunkCache : ChunkCache :=
  {| findChunkInOtherLayers := fun chunk =>
       if String.eqb (ChunkDigest chunk) "known"
       then inl ("/layers/1"%string, "usr/lib/libc.so"%string, 4096)
       else inl (""%string, ""%string, -1);
     validateChunkChecksum := fun _ _ _ _ => true |}.

(** A chunk of a file as [mergeTocEntries] leaves it. *)
Definition chunkEntry (type : string) (name : string) (offset endOffset chunkSize : Z)
    (chunkType chunkDigest : string) : FileMetadata :=
  {| Type_ := type; Name := name; Linkname := ""; Mode := 420;
     Size := to_int (endOffset - offset);
     UID := 0; GID := 0; ModTime := None; AccessTime := None; ChangeTime := None;
     Devmajor := 0; Devminor := 0; Xattrs := None; Digest := "";
     Offset := offset; EndOffset := endOffset; ChunkSize := chunkSize; ChunkOffset := 0;
     ChunkDigest := chunkDigest; ChunkType := chunkType; Chunks := [] |}.

(** A file of 300 bytes stored as three chunks back to back, none of
    them known to the cache. *)
Definition threeChunkFile : FileMetadata :=
  withChunks
    (withIDs (tocEntry TypeReg "usr/bin/tool" 300 1000) 0 0)
    [chunkEntry TypeReg "usr/bin/tool" 1000 1040 100 "" "c1";
     chunkEntry TypeChunk "usr/bin/tool" 1040 1100 100 "" "c2";
     chunkEntry TypeChunk "usr/bin/tool" 1100 1130 0 "" "c3"]
    1130.

(** A file with a chunk of data found in another layer, a run of zeros
    and a chunk to fetch. *)
Definition mixedChunkFile : FileMetadata :=
  withChunks
    (withIDs (tocEntry TypeReg "var/lib/db" 300 2000) 0 0)
    [chunkEntry TypeReg "var/lib/db" 2000 2040 100 "" "known";
     chunkEntry TypeChunk "var/lib/db" 2040 2040 100 "zeros" "";
     chunkEntry TypeChunk "var/lib/db" 2040 2100 0 "" "c4"]
    2100.

(** What the loop has planned for the chunk [chunk] of [r]: the byte
    range of the chunk in the blob and one file chunk for [r]. *)
Definition plannedFor (r chunk : FileMetadata) (p : missingPart) : Prop :=
  mp_SourceChunk p
  = {| sc_Offset := wrap64 (Offset chunk);
       sc_Length := wrap64 (to_int (EndOffset chunk - Offset chunk)) |} /\
  exists c, mp_Chunks p = [c] /\ mfc_File c = Some r /\
            mfc_CompressedSize c = to_int (EndOffset chunk - Offset chunk).

(** [remainingSize] after the loop over [chunks]. *)
Fixpoint remainingAfter (remainingSize : Z) (chunks : list FileMetadata) : Z :=
  match chunks with
  | [] => remainingSize
  | chunk :: rest =>
      let size := if 0 <? ChunkSize chunk then ChunkSize chunk else remainingSize in
      remainingAfter (to_int (remainingSize - size)) rest
  end.

(** *** Destination writer: the loop of [storeMissingFiles] *)

(** What the [select] on [streams] and [errs] yields for a part: a
    stream, a nil stream, or a value of [errs] (which can be nil). *)
Inductive received :=
  | GotStream
  | GotNilStream
  | GotError (err : option error).

(** The answers of the system to the calls made for part [i] and for
    chunk [j] of part [i]; each is the error of one call, [None] for
    nil.  [se_closeErr i j] is what [Close] returns for the destination
    file opened at chunk [j] of part [i]; [se_delivered i j] is the
    number of results that the goroutine [closeDestinationFiles] has
    delivered and the loop has not yet received when it polls
    [closeFilesErrors] there. *)
Record storeEnv := mkStoreEnv {
  se_receive : nat -> received;
  se_openOriginFile : nat -> option error;
  se_discardErr : nat -> nat -> option error;
  se_readerErr : nat -> nat -> option error;
  se_openDestinationFileErr : nat -> nat -> option error;
  se_appendErr : nat -> nat -> option error;
  se_drainErr : nat -> nat -> option error;
  se_closeErr : nat -> nat -> option error;
  se_delivered : nat -> nat -> nat
}.

(** Which of the reader fields of the differ are not nil. *)
Record differReaders := mkDifferReaders {
  rawReader : bool;
  zstdReader : bool;
  gzipReader : bool
}.

(** [prepareCompressedStreamToFile]: the readers afterwards, the
    compression to use and the error. *)
Definition prepareCompressedStreamToFile (env : storeEnv) (i j : nat)
    (readers : differReaders) (partCompression : Z) (mf : missingFileChunk)
    : differReaders * Z * option error :=
  if partCompression =? fileTypeHole then
    ({| rawReader := false; zstdReader := zstdReader readers;
        gzipReader := gzipReader readers |}, fileTypeHole, None)
  else if mfc_Hole mf then
    (readers, fileTypeHole, se_discardErr env i j)
  else if partCompression =? fileTypeZstdChunked then
    match se_readerErr env i j with
    | Some err =>
        ({| rawReader := true; zstdReader := zstdReader readers;
            gzipReader := gzipReader readers |}, partCompression, Some err)
    | None =>
        ({| rawReader := true; zstdReader := true;
            gzipReader := gzipReader readers |}, partCompression, None)
    end
  else if partCompression =? fileTypeEstargz then
    match se_readerErr env i j with
    | Some err =>
        ({| rawReader := true; zstdReader := zstdReader readers;
            gzipReader := gzipReader readers |}, partCompression, Some err)
    | None =>
        ({| rawReader := true; zstdReader := zstdReader readers;
            gzipReader := true |}, partCompression, None)
    end
  else if partCompression =? fileTypeNoCompression then
    ({| rawReader := true; zstdReader := zstdReader readers;
        gzipReader := gzipReader readers |}, partCompression, None)
  else (readers, partCompression, Some (ErrOther "unknown file type")).

(** The variables of the loop: [destFile] (the name in its metadata and
    where it was opened), the named result [Err], the results of
    [closeDestinationFiles] not yet received, in the order of the files
    sent to it, and the readers of the differ. *)
Record storeState := mkStoreState {
  ss_destFile : option (string * (nat * nat));
  ss_Err : option error;
  ss_pending : list (option error);
  ss_readers : differReaders
}.

Definition setErr (s : storeState) (err : error) : storeState :=
  {| ss_destFile := ss_destFile s; ss_Err := Some err;
     ss_pending := ss_pending s; ss_readers := ss_readers s |}.

(** The [cleanup] loop: receive the results that are there, up to the
    first error. *)
Fixpoint pollCloseErrors (delivered : nat) (pending : list (option error))
    : option error * list (option error) :=
  match delivered, pending with
  | S n, r :: rest =>
      match r with
      | Some err => (Some err, rest)
      | None => pollCloseErrors n rest
      end
  | _, _ => (None, pending)
  end.

Inductive chunkOutcome :=
  | ChunkNext (s : storeState)
  | ChunkExit (s : storeState)
  | ChunkPanic.

(** The body of the loop over [missingPart.Chunks], for chunk [j] of
    part [i].  [ChunkExit] is [goto exit].  Reading a gap from a nil
    [part] and reading the name of a nil [File] panic. *)
Definition storeChunk (env : storeEnv) (i j : nat) (partIsNil : bool)
    (partCompression : Z) (mf : missingFileChunk) (s : storeState) : chunkOutcome :=
  if 0 <? mfc_Gap mf then
    if partIsNil then ChunkPanic
    else match se_discardErr env i j with
         | Some err => ChunkExit (setErr s err)
         | None => ChunkNext s
         end
  else
    match mfc_File mf with
    | None => ChunkPanic
    | Some file =>
        if String.eqb (Name file) "" then ChunkExit (setErr s (ErrOther "file name empty"))
        else
          let '(readers, compression, err) :=
            prepareCompressedStreamToFile env i j (ss_readers s) partCompression mf in
          let s := {| ss_destFile := ss_destFile s; ss_Err := ss_Err s;
                      ss_pending := ss_pending s; ss_readers := readers |} in
          match err with
          | Some err => ChunkExit (setErr s err)
          | None =>
              let write (s : storeState) : chunkOutcome :=
                match se_appendErr env i j with
                | Some err => ChunkExit (setErr s err)
                | None =>
                    if rawReader (ss_readers s) then
                      match se_drainErr env i j with
                      | Some err => ChunkExit (setErr s err)
                      | None => ChunkNext s
                      end
                    else ChunkNext s
                end in
              let open (s : storeState) (pending : list (option error)) : chunkOutcome :=
                match se_openDestinationFileErr env i j with
                | Some err =>
                    ChunkExit {| ss_destFile := None; ss_Err := Some err;
                                 ss_pending := pending; ss_readers := ss_readers s |}
                | None =>
                    write {| ss_destFile := Some (Name file, (i, j)); ss_Err := ss_Err s;
                             ss_pending := pending; ss_readers := ss_readers s |}
                end in
              match ss_destFile s with
              | None => open s (ss_pending s)
              | Some (name, (oi, oj)) =>
                  if String.eqb name (Name file) then write s
                  else
                    match pollCloseErrors (se_delivered env i j) (ss_pending s) with
                    | (Some err, pending) =>
                        ChunkExit {| ss_destFile := ss_destFile s; ss_Err := Some err;
                                     ss_pending := pending; ss_readers := ss_readers s |}
                    | (None, pending) => open s (pending ++ [se_closeErr env oi oj])
                    end
              end
          end
    end.

(** The loop over the chunks of part [i], up to [exit]; [None] is a
    panic. *)
Fixpoint storeChunks (env : storeEnv) (i j : nat) (partIsNil : bool)
    (partCompression : Z) (chunks : list missingFileChunk) (s : storeState)
    : option storeState :=
  match chunks with
  | [] => Some s
  | mf :: rest =>
      match storeChunk env i j partIsNil partCompression mf s with
      | ChunkNext s' => storeChunks env i (S j) partIsNil partCompression rest s'
      | ChunkExit s' => Some s'
      | ChunkPanic => None
      end
  end.

Fixpoint firstError (results : list (option error)) : option error :=
  match results with
  | [] => None
  | Some err :: _ => Some err
  | None :: rest => firstError rest
  end.

(** What follows the loop: [return destFile.Close()] or [return nil]
    sets the named result, and the deferred function then replaces a
    nil result by the first error left in [closeFilesErrors]. *)
Definition storeReturn (env : storeEnv) (s : storeState) : option error :=
  let Err := match ss_destFile s with
             | Some (_, (i, j)) => se_closeErr env i j
             | None => None
             end in
  if Err is Some err then Some err else firstError (ss_pending s).

Inductive storeResult :=
  | StoreReturned (Err : option error)
  | StorePanic.

(** The loop over [missingParts], from part [i] on.  A part modelled
    here always has a [SourceChunk], so the [default] case of the
    [switch] is never taken. *)
Fixpoint storeParts (env : storeEnv) (fileType : Z) (i : nat)
    (missingParts : list missingPart) (s : storeState) : storeResult :=
  match missingParts with
  | [] => StoreReturned (storeReturn env s)
  | missingPart :: rest =>
      let opened : (bool * Z) + error :=
        if mp_Hole missingPart then inl (true, fileTypeHole)
        else if mp_OriginFile missingPart is Some _ then
          match se_openOriginFile env i with
          | Some err => inr err
          | None => inl (false, fileTypeNoCompression)
          end
        else
          match se_receive env i with
          | GotStream => inl (false, fileType)
          | GotNilStream => inr (ErrOther "invalid stream returned")
          | GotError None => inr (ErrOther "not enough data returned from the server")
          | GotError (Some err) => inr err
          end in
      match opened with
      | inr err => StoreReturned (Some err)
      | inl (partIsNil, partCompression) =>
          match storeChunks env i 0 partIsNil partCompression (mp_Chunks missingPart) s with
          | None => StorePanic
          | Some s' =>
              if negb partIsNil && (if ss_Err s' is Some _ then true else false)
              then StoreReturned (storeReturn env s')
              else storeParts env fileType (S i) rest s'
          end
      end
  end.

Definition storeMissingFiles (env : storeEnv) (fileType : Z) (readers : differReaders)
    (missingParts : list missingPart) : storeResult :=
  storeParts env fileType 0 missingParts
    {| ss_destFile := None; ss_Err := None; ss_pending := []; ss_readers := readers |}.

(** A chunk that the loop can store when it belongs to the part [p]: a
    gap to skip in a part that has a stream, or a chunk with its file. *)
Definition storableChunk (p : missingPart) (mf : missingFileChunk) : Prop :=
  (0 < mfc_Gap mf /\ mp_Hole p = false) \/ (mfc_Gap mf <= 0 /\ is_Some (mfc_File mf)).

Definition storablePart (p : missingPart) : Prop :=
  Forall (storableChunk p) (mp_Chunks p).

(** A system in which every call succeeds, except that no destination
    file can be created. *)
Definition readOnlyDestination : storeEnv :=
  {| se_receive := fun _ => GotStream;
     se_openOriginFile := fun _ => None;
     se_discardErr := fun _ _ => None;
     se_readerErr := fun _ _ => None;
     se_openDestinationFileErr := fun _ _ => Some (ErrOther "read-only file system");
     se_appendErr := fun _ _ => None;
     se_drainErr := fun _ _ => None;
     se_closeErr := fun _ _ => None;
     se_delivered := fun _ _ => 0%nat |}.

Definition noReaders : differReaders :=
  {| rawReader := false; zstdReader := false; gzipReader := false |}.

(** *** Flat layout: [makeEntriesFlat] *)

(** [Digest.Encoded] of the go-digest library, an external collaborator:
    the part of a parsed digest after the algorithm. *)
Class DigestEncoding := Encoded : string -> string.

(** [mergedEntries[i].Name = name]. *)
Definition withName (e : FileMetadata) (name : string) : FileMetadata :=
  {| Type_ := Type_ e; Name := name; Linkname := Linkname e; Mode := Mode e;
     Size := Size e; UID := UID e; GID := GID e; ModTime := ModTime e;
     AccessTime := AccessTime e; ChangeTime := ChangeTime e;
     Devmajor := Devmajor e; Devminor := Devminor e; Xattrs := Xattrs e;
     Digest := Digest e; Offset := Offset e; EndOffset := EndOffset e;
     ChunkSize := ChunkSize e; ChunkOffset := ChunkOffset e;
     ChunkDigest := ChunkDigest e; ChunkType := ChunkType e; Chunks := Chunks e |}.

(** [fmt.Sprintf("%s/%s", d[0:2], d[2:])]. *)
Definition flatName (d : string) : string :=
  (substring 0 2 d ++ "/" ++ substring 2 (String.length d - 2) d)%string.

Inductive flatResult :=
  | Flat (new : list FileMetadata)
  | FlatError (err : closeError)
  | FlatPanic.

(** The loop of [makeEntriesFlat].  A missing key of [hashes] reads as
    the empty string; [d[0:2]] panics when [d] is shorter than two
    bytes.  The renamed entry is also written back to the slice of the
    caller, who replaces that slice by the result.  The message of the
    first error names the entry (the quoting of [%q] is left out). *)
Fixpoint flatLoop `{Digester} `{DigestEncoding} (mergedEntries : list FileMetadata)
    (hashes : gmap string string) (new : list FileMetadata) : flatResult :=
  match mergedEntries with
  | [] => Flat new
  | e :: rest =>
      if negb (isReg e) then flatLoop rest hashes new
      else if String.eqb (Digest e) "" then
        FlatError (ErrIO ("missing digest for " ++ Name e))
      else
        match Parse (Digest e) with
        | inr err => FlatError err
        | inl digest =>
            let d := Encoded digest in
            if negb (String.eqb (default ""%string (hashes !! d)) "") then
              flatLoop rest hashes new
            else if (String.length d <? 2)%nat then FlatPanic
            else flatLoop rest (<[d := d]> hashes) (new ++ [withName e (flatName d)])
        end
  end.

Definition makeEntriesFlat `{Digester} `{DigestEncoding} (mergedEntries : list FileMetadata)
    : flatResult :=
  flatLoop mergedEntries ∅ [].

(** The encoded digest of an entry. *)
Definition encodedDigest `{DigestEncoding} (e : FileMetadata) : string :=
  Encoded (Digest e).

(** For the digester of the examples, the encoded part is what follows
    the prefix. *)
Definition rawEncoding : DigestEncoding :=
  fun s =>
    match s with
    | String _ (String _ (String _ (String _ rest))) => rest
    | _ => ""%string
    end.

Definition digestEntry (type name digest : string) : FileMetadata :=
  {| Type_ := type; Name := name; Linkname := ""; Mode := 420; Size := 3;
     UID := 0; GID := 0; ModTime := None; AccessTime := None; ChangeTime := None;
     Devmajor := 0; Devminor := 0; Xattrs := None; Digest := digest;
     Offset := 0; EndOffset := 0; ChunkSize := 0; ChunkOffset := 0;
     ChunkDigest := ""; ChunkType := ""; Chunks := [] |}.

(** Two files with the same content, a directory and a third file. *)
Definition duplicateFiles : list FileMetadata :=
  [digestEntry TypeReg "etc/motd" "raw:abc";
   digestEntry "dir" "etc" "";
   digestEntry TypeReg "usr/share/motd" "raw:abc";
   digestEntry TypeReg "etc/issue" "raw:xyz"].

(** *** The bad-range retry on a plan with holes *)

(** A file of 64 runs of 4096 zero bytes followed by three bytes of
    data, with its chunks as [mergeTocEntries] leaves them: the runs of
    zeros take no room in the blob, the data chunk is at [1000, 1040)
    and is not known to the layers cache. *)
Definition zerosThenDataFile : FileMetadata :=
  withChunks (tocEntry TypeReg "var/lib/image" (64 * 4096 + 3) 1000)
    (chunkEntry TypeReg "var/lib/image" 1000 1000 4096 "zeros" ""
     :: replicate 63 (chunkEntry TypeChunk "var/lib/image" 1000 1000 4096 "zeros" "")
     ++ [chunkEntry TypeChunk "var/lib/image" 1000 1040 0 "" "c1"])
    1040.

(** * Properties *)

(** ** Machine integers *)

Lemma wrap64_range z : 0 <= wrap64 z < 2 ^ 64.
Proof. unfold wrap64. apply Z.mod_pos_bound. lia. Qed.

Lemma to_int_range z : - 2 ^ 63 <= to_int z < 2 ^ 63.
Proof.
  unfold to_int.
  pose proof (Z.mod_pos_bound (z + 2 ^ 63) (2 ^ 64) ltac:(lia)). lia.
Qed.

Lemma to_int_small z : - 2 ^ 63 <= z < 2 ^ 63 -> to_int z = z.
Proof.
  intros H. unfold to_int. rewrite Z.mod_small; lia.
Qed.

Lemma wrap64_small z : 0 <= z < 2 ^ 64 -> wrap64 z = z.
Proof. intros H. unfold wrap64. apply Z.mod_small. lia. Qed.

Lemma wrap64_idemp z : wrap64 (wrap64 z) = wrap64 z.
Proof. unfold wrap64. apply Z.mod_mod. lia. Qed.

Lemma wrap64_add_l a b : wrap64 (wrap64 a + b) = wrap64 (a + b).
Proof. unfold wrap64. apply Zplus_mod_idemp_l. Qed.

Lemma wrap64_add_r a b : wrap64 (a + wrap64 b) = wrap64 (a + b).
Proof. unfold wrap64. apply Zplus_mod_idemp_r. Qed.

Lemma wrap64_sub_r a b : wrap64 (a - wrap64 b) = wrap64 (a - b).
Proof. unfold wrap64. apply Zminus_mod_idemp_r. Qed.

Lemma wrap64_to_int z : wrap64 (to_int z) = wrap64 z.
Proof.
  unfold to_int, wrap64.
  rewrite Zminus_mod_idemp_l.
  replace (z + 2 ^ 63 - 2 ^ 63) with z by lia. reflexivity.
Qed.

(** A converted unsigned value is zero exactly when the value is. *)
Lemma to_int_wrap64_zero z : to_int (wrap64 z) = 0 <-> wrap64 z = 0.
Proof.
  pose proof (wrap64_range z) as Hr.
  unfold to_int.
  split; intros H.
  - destruct (Z_lt_dec (wrap64 z) (2 ^ 63)).
    + rewrite Z.mod_small in H; lia.
    + replace (wrap64 z + 2 ^ 63) with ((wrap64 z - 2 ^ 63) + 1 * 2 ^ 64) in H by lia.
      rewrite Z_mod_plus_full, Z.mod_small in H; lia.
  - rewrite H. reflexivity.
Qed.


(** ** Request planner: same-file coalescing *)

Lemma wrap64_sub_l a b : wrap64 (wrap64 a - b) = wrap64 (a - b).
Proof. unfold wrap64. apply Zminus_mod_idemp_l. Qed.

Lemma getGap_partEnd a a' b : partEnd a = partEnd a' -> getGap a b = getGap a' b.
Proof. unfold getGap, partEnd. intros ->. reflexivity. Qed.

Lemma getGap_zero_end a b :
  getGap a b = 0 ->
  wrap64 (sc_Offset (mp_SourceChunk b)) = partEnd a.
Proof.
  unfold getGap. fold (partEnd a). intros H.
  apply to_int_wrap64_zero in H.
  assert (He : wrap64 (partEnd a) = partEnd a) by apply wrap64_idemp.
  set (o := sc_Offset (mp_SourceChunk b)) in *.
  set (e := partEnd a) in *.
  replace o with ((o - e) + e) at 1 by lia.
  rewrite <- wrap64_add_l, H. exact He.
Qed.

Lemma getGap_zero_iff a b : getGap a b = 0 <-> partStart b = partEnd a.
Proof.
  split; [apply getGap_zero_end|].
  unfold partStart, getGap. fold (partEnd a). intros H.
  apply to_int_wrap64_zero.
  rewrite <- wrap64_sub_l, H, Z.sub_diag. reflexivity.
Qed.

Lemma getGap_eqb a b : (getGap a b =? 0) = (partStart b =? partEnd a).
Proof.
  destruct (Z.eqb_spec (getGap a b) 0) as [H|H];
    destruct (Z.eqb_spec (partStart b) (partEnd a)) as [H'|H']; try reflexivity.
  - apply getGap_zero_iff in H. contradiction.
  - apply getGap_zero_iff in H'. contradiction.
Qed.

Lemma sameFileMergeableb_spec a b :
  sameFileMergeableb a b = true <-> sameFileMergeable a b.
Proof.
  unfold sameFileMergeableb, sameFileMergeable.
  rewrite !andb_true_iff, !negb_true_iff, !bool_decide_eq_true, Z.eqb_eq.
  split.
  - intros [[[[[Hg Ha] Hb] Hha] Hhb] Hc].
    repeat split; try assumption.
    destruct (mp_Chunks a) as [|ca [|? ?]]; try discriminate;
      destruct (mp_Chunks b) as [|cb [|? ?]]; try discriminate.
    apply bool_decide_eq_true in Hc. eauto.
  - intros (Hg & Ha & Hb & Hha & Hhb & ca & cb & -> & -> & Hn).
    repeat split; try assumption.
    apply bool_decide_eq_true. assumption.
Qed.

Lemma sameFileCond_mergeableb gap a b :
  singleHasFile a -> singleHasFile b -> gap = getGap a b ->
  sameFileCond gap a b = Some (sameFileMergeableb a b).
Proof.
  intros Ha Hb ->. unfold sameFileCond, sameFileMergeableb, singleHasFile in *.
  rewrite <- getGap_eqb.
  destruct (getGap a b =? 0); simpl; [|reflexivity].
  destruct (mp_OriginFile a); simpl; [reflexivity|].
  destruct (mp_OriginFile b); simpl; [reflexivity|].
  destruct (mp_Hole a); simpl; [reflexivity|].
  destruct (mp_Hole b); simpl; [reflexivity|].
  destruct (mp_Chunks a) as [|ca [|? ?]]; try reflexivity;
    destruct (mp_Chunks b) as [|cb [|? ?]]; try reflexivity.
  destruct (Ha ca eq_refl) as [fa Hfa]. destruct (Hb cb eq_refl) as [fb Hfb].
  unfold fileName. rewrite Hfa, Hfb. simpl. f_equal.
  destruct (String.eqb_spec (Name fa) (Name fb)) as [E|E].
  - symmetry. apply bool_decide_eq_true. congruence.
  - symmetry. apply bool_decide_eq_false. congruence.
Qed.

Lemma sameFileMerge_merged a b : sameFileMerge 0 a b = sameFileMerged a b.
Proof.
  unfold sameFileMerge, sameFileMerged. f_equal. f_equal.
  change (wrap64 0) with 0. rewrite Z.add_0_l. apply wrap64_add_r.
Qed.

Lemma sameFileMerged_hasFiles a b : singleHasFile a -> singleHasFile (sameFileMerged a b).
Proof.
  unfold singleHasFile, sameFileMerged. simpl. intros H.
  destruct (mp_Chunks a) as [|ca rest]; [assumption|].
  destruct (mp_Chunks b) as [|cb ?]; [assumption|].
  intros c [= <- ->]. simpl. apply H. reflexivity.
Qed.

Lemma sameFileMerged_end a b :
  getGap a b = 0 -> partEnd (sameFileMerged a b) = partEnd b.
Proof.
  intros H. apply getGap_zero_end in H.
  unfold partEnd in *. simpl.
  rewrite wrap64_add_r, Z.add_assoc, <- wrap64_add_l, <- H, wrap64_add_l.
  reflexivity.
Qed.

Lemma sameFileLoop_sweep rest :
  forall front absorber prev,
    partEnd absorber = partEnd prev ->
    singleHasFile absorber -> Forall singleHasFile rest ->
    sameFileLoop front absorber prev rest = Some (sameFileSweep front absorber rest).
Proof.
  induction rest as [|cur rest IH]; intros front absorber prev He Ha Hr; simpl.
  - reflexivity.
  - apply Forall_cons in Hr as [Hc Hr].
    rewrite (sameFileCond_mergeableb _ absorber cur Ha Hc (eq_sym (getGap_partEnd _ _ _ He))).
    simpl.
    destruct (sameFileMergeableb absorber cur) eqn:Hm.
    + assert (Hg : getGap absorber cur = 0).
      { apply sameFileMergeableb_spec in Hm. apply getGap_zero_iff. apply Hm. }
      rewrite <- (getGap_partEnd _ _ _ He), Hg, sameFileMerge_merged.
      apply IH; [apply sameFileMerged_end; assumption
                |apply sameFileMerged_hasFiles; assumption | assumption].
    + apply IH; [reflexivity | assumption | assumption].
Qed.

(** C2: the first pass of [mergeMissingChunks] is the sweep that merges a
    part into the one before it exactly when the gap between the two is
    zero (the second part starts at the byte where the first one ends),
    neither has an OriginFile, neither is a hole, each carries one chunk
    and both chunks name the same file; a merge adds the second length
    to the first and sums the compressed and the uncompressed sizes of
    the two chunks.  The sweep is written from these words alone: it
    does not use the gap that the code computes. *)
Theorem sameFileCoalescing_merges_iff (missingParts : list missingPart) :
  missingParts <> [] ->
  Forall singleHasFile missingParts ->
  sameFileCoalescing missingParts = Some (sameFileCoalescingSpec missingParts) /\
  (forall a b, sameFileMergeableb a b = true <-> sameFileMergeable a b) /\
  (forall a b ca cb,
      mp_Chunks a = [ca] -> mp_Chunks b = [cb] ->
      sc_Length (mp_SourceChunk (sameFileMerged a b)) =
        wrap64 (sc_Length (mp_SourceChunk a) + sc_Length (mp_SourceChunk b)) /\
      exists c, mp_Chunks (sameFileMerged a b) = [c] /\
        mfc_CompressedSize c = to_int (mfc_CompressedSize ca + mfc_CompressedSize cb) /\
        mfc_UncompressedSize c = to_int (mfc_UncompressedSize ca + mfc_UncompressedSize cb) /\
        mfc_File c = mfc_File ca).
Proof.
  intros Hne Hf. split; [|split].
  - destruct missingParts as [|p0 rest]; [congruence|].
    apply Forall_cons in Hf as [H0 Hr]. simpl.
    apply sameFileLoop_sweep; [reflexivity | assumption | assumption].
  - apply sameFileMergeableb_spec.
  - intros a b ca cb Ha Hb. unfold sameFileMerged. simpl. rewrite Ha, Hb.
    split; [reflexivity|]. eexists. split; [reflexivity|]. simpl. auto.
Qed.

(** ** Request planner: the zero-gap invariant *)

Lemma noAdjacent_snoc bad l a b :
  noAdjacent bad (l ++ [a]) = true -> bad a b = false ->
  noAdjacent bad ((l ++ [a]) ++ [b]) = true.
Proof.
  induction l as [|x l IH]; simpl; intros H Hb.
  - rewrite Hb. reflexivity.
  - destruct l as [|y l]; simpl in *.
    + apply andb_true_iff in H as [H1 _]. rewrite H1, Hb. reflexivity.
    + apply andb_true_iff in H as [H1 H2]. rewrite H1. simpl. apply IH; assumption.
Qed.

Lemma noAdjacent_last bad l a a' :
  noAdjacent bad (l ++ [a]) = true -> (forall x, bad x a' = bad x a) ->
  noAdjacent bad (l ++ [a']) = true.
Proof.
  induction l as [|x l IH]; simpl; intros H Hb.
  - reflexivity.
  - destruct l as [|y l]; simpl in *.
    + rewrite Hb. assumption.
    + apply andb_true_iff in H as [H1 H2]. rewrite H1. simpl. apply IH; assumption.
Qed.

(** A merge of the first pass leaves untouched everything the forbidden
    adjacency test reads from the part on its right-hand side. *)
Lemma zeroGapSameFileRemote_merge x gap a b :
  zeroGapSameFileRemote x (sameFileMerge gap a b) = zeroGapSameFileRemote x a.
Proof.
  assert (E : targetFiles (sameFileMerge gap a b) = targetFiles a).
  { unfold targetFiles, sameFileMerge. simpl.
    destruct (mp_Chunks a) as [|ca ra]; [reflexivity|].
    destruct (mp_Chunks b) as [|cb rb]; reflexivity. }
  unfold zeroGapSameFileRemote, sameTargetFileb. rewrite E. reflexivity.
Qed.

Lemma sameFileMerge_single gap a b : singleChunk a -> singleChunk (sameFileMerge gap a b).
Proof.
  unfold singleChunk, sameFileMerge. simpl.
  destruct (mp_Chunks a) as [|ca ra]; [discriminate|].
  destruct (mp_Chunks b) as [|cb rb]; simpl; auto.
Qed.

Lemma sameFileMerge_end gap a b prev :
  gap = getGap prev b -> gap = 0 -> partEnd a = partEnd prev ->
  partEnd (sameFileMerge gap a b) = partEnd b.
Proof.
  intros -> Hg He. rewrite Hg, sameFileMerge_merged.
  apply sameFileMerged_end. rewrite (getGap_partEnd _ _ _ He). assumption.
Qed.

Lemma sameFileCond_true gap a b : sameFileCond gap a b = Some true -> gap = 0.
Proof.
  unfold sameFileCond. destruct (Z.eqb_spec gap 0); simpl; [auto | discriminate].
Qed.

(** When the test of the first loop fails on two single-chunk parts, the
    pair is not a forbidden adjacency. *)
Lemma sameFileCond_false a b :
  singleChunk a -> singleChunk b ->
  sameFileCond (getGap a b) a b = Some false ->
  zeroGapSameFileRemote a b = false.
Proof.
  unfold singleChunk, sameFileCond, zeroGapSameFileRemote. intros Ha Hb.
  destruct (getGap a b =? 0); simpl; [|reflexivity].
  destruct (mp_OriginFile a) eqn:Eoa; simpl;
    [intros _; rewrite ?andb_false_r; reflexivity|].
  destruct (mp_OriginFile b) eqn:Eob; simpl;
    [intros _; rewrite ?andb_false_r; reflexivity|].
  destruct (mp_Hole a); simpl; [intros _; rewrite ?andb_false_r; reflexivity|].
  destruct (mp_Hole b); simpl; [intros _; rewrite ?andb_false_r; reflexivity|].
  unfold sameTargetFileb, targetFiles.
  destruct (mp_Chunks a) as [|ca [|? ?]]; try discriminate.
  destruct (mp_Chunks b) as [|cb [|? ?]]; try discriminate.
  simpl. destruct (fileName ca) as [na|]; simpl; [|discriminate].
  destruct (fileName cb) as [nb|]; simpl; [|discriminate].
  intros [= ->]. rewrite String.eqb_refl. reflexivity.
Qed.

Lemma sameFileLoop_invariant rest :
  forall front absorber prev out,
    partEnd absorber = partEnd prev ->
    singleChunk absorber -> Forall singleChunk rest ->
    noAdjacent zeroGapSameFileRemote (front ++ [absorber]) = true ->
    sameFileLoop front absorber prev rest = Some out ->
    noAdjacent zeroGapSameFileRemote out = true.
Proof.
  induction rest as [|cur rest IH]; intros front absorber prev out He Hs Hr Hn; simpl.
  - intros [= <-]. assumption.
  - apply Forall_cons in Hr as [Hc Hr].
    destruct (sameFileCond (getGap prev cur) absorber cur) as [[|]|] eqn:Hcond;
      simpl; [| |discriminate].
    + apply IH.
      * eapply sameFileMerge_end; [reflexivity| |exact He].
        eapply sameFileCond_true; eassumption.
      * apply sameFileMerge_single; assumption.
      * assumption.
      * eapply noAdjacent_last; [exact Hn|].
        intros x. apply zeroGapSameFileRemote_merge.
    + apply IH; [reflexivity | assumption | assumption |].
      apply noAdjacent_snoc; [assumption|].
      apply sameFileCond_false; [assumption | assumption |].
      rewrite (getGap_partEnd _ _ _ He). assumption.
Qed.



(** ** Request planner: cost-driven coalescing *)

Lemma to_int_congr x y : wrap64 x = wrap64 y -> to_int x = to_int y.
Proof.
  unfold wrap64, to_int. intros H.
  rewrite <- (Zplus_mod_idemp_l x), <- (Zplus_mod_idemp_l y), H. reflexivity.
Qed.

(** The gap that the code computes is the number of bytes between the
    two ranges. *)
Lemma getGap_gapBytes a b : getGap a b = gapBytes a b.
Proof.
  unfold getGap, gapBytes, partStart. fold (partEnd a).
  apply to_int_congr. rewrite wrap64_idemp, wrap64_sub_l. reflexivity.
Qed.

Lemma chunksOfRun_snoc (g : list missingPart) (orig cur : missingPart) :
  last g = Some orig ->
  chunksOfRun (g ++ [cur]) = chunksOfRun g ++ gapChunks orig cur ++ mp_Chunks cur.
Proof.
  induction g as [|a g IH]; [discriminate|].
  destruct g as [|b g].
  - intros [= ->]. simpl. rewrite !app_nil_r. reflexivity.
  - intros Hl. change (last (b :: g) = Some orig) in Hl.
    change (chunksOfRun ((a :: b :: g) ++ [cur]))
      with (mp_Chunks a ++ gapChunks a b ++ chunksOfRun ((b :: g) ++ [cur])).
    rewrite (IH Hl).
    change (chunksOfRun (a :: b :: g))
      with (mp_Chunks a ++ gapChunks a b ++ chunksOfRun (b :: g)).
    rewrite <- !app_assoc. reflexivity.
Qed.

Lemma costMerge_chunks (prev orig cur : missingPart) :
  mp_Chunks (costMerge (getGap orig cur) prev cur)
  = mp_Chunks prev ++ gapChunks orig cur ++ mp_Chunks cur.
Proof.
  unfold costMerge, gapChunks. simpl. rewrite getGap_gapBytes.
  destruct (0 <? gapBytes orig cur).
  - rewrite <- app_assoc. reflexivity.
  - reflexivity.
Qed.

Lemma mergedRun_single p : mergedRun [p] p.
Proof.
  exists p, []. repeat split; try reflexivity; try congruence.
  simpl. rewrite app_nil_r. reflexivity.
Qed.

Lemma mergedRun_costMerge g prev orig cur :
  mergedRun g prev -> last g = Some orig ->
  mergedRun (g ++ [cur]) (costMerge (getGap orig cur) prev cur).
Proof.
  intros (q & g' & -> & _ & _ & Ho & Hc) Hl.
  exists q, (g' ++ [cur]). split; [reflexivity|]. split; [|split; [|split]].
  - intros H. destruct g'; discriminate.
  - intros _. split; reflexivity.
  - exact Ho.
  - rewrite costMerge_chunks, Hc. symmetry. apply (chunksOfRun_snoc (q :: g') orig cur Hl).
Qed.

Lemma costLoop_runs rest :
  forall T front prev orig gs g,
    Forall2 mergedRun gs front -> mergedRun g prev -> last g = Some orig ->
    exists groups,
      concat groups = concat gs ++ g ++ rest /\
      Forall2 mergedRun groups (costLoop T front prev orig rest).
Proof.
  induction rest as [|cur rest IH]; intros T front prev orig gs g Hf Hp Hl; simpl.
  - exists (gs ++ [g]). split.
    + rewrite concat_app. simpl. rewrite !app_nil_r. reflexivity.
    + apply Forall2_app; [assumption|]. constructor; [assumption|constructor].
  - destruct (T <? getCost orig cur).
    + destruct (IH T (front ++ [prev]) cur cur (gs ++ [g]) [cur]) as (groups & Hc & Hg).
      * apply Forall2_app; [assumption|]. constructor; [assumption|constructor].
      * apply mergedRun_single.
      * reflexivity.
      * exists groups. split; [|assumption].
        rewrite Hc, concat_app. simpl. rewrite app_nil_r, <- app_assoc. reflexivity.
    + destruct (IH T front (costMerge (getGap orig cur) prev cur) cur gs (g ++ [cur]))
        as (groups & Hc & Hg).
      * assumption.
      * apply mergedRun_costMerge; assumption.
      * apply last_snoc.
      * exists groups. split; [|assumption].
        rewrite Hc, <- app_assoc. reflexivity.
Qed.

(** The output of the cost-driven pass, part by part. *)
Lemma costCoalescing_runs (missingParts : list missingPart) (target : Z)
    (out : list missingPart) :
  costCoalescing missingParts target = Some out ->
  exists groups : list (list missingPart),
    concat groups = missingParts /\ Forall2 mergedRun groups out.
Proof.
  unfold costCoalescing. destruct missingParts as [|p0 rest]; [discriminate|].
  destruct (pickTargetValue _ _ _) as [T|]; simpl; [|discriminate].
  intros [= <-].
  destruct (costLoop_runs rest T [] p0 p0 [] [p0]) as (groups & Hc & Hg).
  - constructor.
  - apply mergedRun_single.
  - reflexivity.
  - exists groups. split; assumption.
Qed.

Lemma chunksOfRun_appended (g' : list missingPart) :
  forall q, exists rest,
    chunksOfRun (q :: g') = mp_Chunks q ++ rest /\ appendedChunks g' rest.
Proof.
  induction g' as [|x g' IH]; intros q.
  - exists []. split; reflexivity.
  - destruct (IH x) as (rest & Hr & Ha).
    exists (gapChunks q x ++ mp_Chunks x ++ rest). split.
    + change (chunksOfRun (q :: x :: g'))
        with (mp_Chunks q ++ gapChunks q x ++ chunksOfRun (x :: g')).
      rewrite Hr. reflexivity.
    + simpl. exists (gapChunks q x), rest. split; [reflexivity|]. split; [|exact Ha].
      unfold gapChunks. destruct (0 <? gapBytes q x); eauto.
Qed.

Lemma mergedRun_absorbs g p : mergedRun g p -> absorbs g p.
Proof.
  intros (q & g' & -> & H1 & H2 & _ & Hc).
  exists q, g'. split; [reflexivity|]. split; [exact H1|]. split; [exact H2|].
  destruct (chunksOfRun_appended g' q) as (rest & Hr & Ha).
  exists rest. rewrite Hc. split; assumption.
Qed.

(** C10: the output of the cost-driven pass splits the input into runs of
    consecutive parts, one output part per run.  A part that absorbed
    others has [Hole] false and [OriginFile] nil, whatever the absorbed
    and the absorbing parts were before, and its chunk list is the chunk
    list of the absorbing part followed, for every absorbed part in
    order, by all the chunks of that part (after at most one gap
    chunk): no chunk is dropped. *)
Theorem costCoalescing_absorbed_parts_remote
    (missingParts : list missingPart) (target : Z) (out : list missingPart) :
  costCoalescing missingParts target = Some out ->
  exists groups : list (list missingPart),
    concat groups = missingParts /\ Forall2 absorbs groups out.
Proof.
  intros Hc. destruct (costCoalescing_runs _ _ _ Hc) as (groups & Hg & Hr).
  exists groups. split; [exact Hg|].
  eapply Forall2_impl; [exact Hr|]. apply mergedRun_absorbs.
Qed.

(** C8 (amended): in the output of the cost-driven pass, the chunk list
    of every part is the chunks of the consecutive input parts merged
    into it, in order, and between the chunks of two of them there is
    one synthetic gap chunk, carrying the number of bytes between the
    two byte ranges, exactly when that number is positive; a merged
    adjacency without a positive gap adds no chunk. *)
Theorem costCoalescing_gap_chunks_when_positive
    (missingParts : list missingPart) (target : Z) (out : list missingPart) :
  costCoalescing missingParts target = Some out ->
  exists groups : list (list missingPart),
    concat groups = missingParts /\
    Forall2 (fun g p => g <> [] /\ mp_Chunks p = chunksOfRun g) groups out.
Proof.
  intros Hc. destruct (costCoalescing_runs _ _ _ Hc) as (groups & Hg & Hr).
  exists groups. split; [exact Hg|].
  eapply Forall2_impl; [exact Hr|].
  intros g p (q & g' & -> & _ & _ & _ & Hch). split; [discriminate|exact Hch].
Qed.

(** C8, as stated, fails: with target 1 the two parts are merged by the
    cost-driven pass and the chunk list of the result is the two file
    chunks, with no gap chunk. *)
Lemma merged_adjacency_without_gap_chunk :
  exists merged,
    sameFileCoalescing backToBackParts = Some backToBackParts /\
    mergeMissingChunks backToBackParts 1 = Some [merged] /\
    mp_Chunks merged = [fileChunk "a" 10 10; fileChunk "b" 10 10] /\
    Forall (fun c => is_Some (mfc_File c)) (mp_Chunks merged).
Proof.
  eexists. split; [reflexivity|]. split; [vm_compute; reflexivity|].
  split; [reflexivity|]. repeat constructor; eexists; reflexivity.
Qed.

(** ** The planner reaches its target *)

Lemma costLoop_length rest :
  forall T front prev orig,
    length (costLoop T front prev orig rest) =
    (length front + 1 + length (filter (fun c => (T < c)%Z) (adjacentCosts orig rest)))%nat.
Proof.
  induction rest as [|cur rest IH]; intros T front prev orig; simpl.
  - rewrite length_app. simpl. lia.
  - destruct (Z.ltb_spec T (getCost orig cur)).
    + rewrite IH, filter_cons_True by assumption.
      rewrite length_app. simpl. lia.
    + rewrite IH, filter_cons_False by lia. reflexivity.
Qed.

Lemma adjacentCosts_length rest : forall prev, length (adjacentCosts prev rest) = length rest.
Proof. induction rest as [|c rest IH]; intros prev; simpl; [reflexivity | rewrite IH; reflexivity]. Qed.

Lemma filter_le_gt_length (T : Z) (l : list Z) :
  (length (filter (fun c => (c <= T)%Z) l) + length (filter (fun c => (T < c)%Z) l))%nat = length l.
Proof.
  induction l as [|x l IH]; [reflexivity|].
  destruct (Z_le_dec x T).
  - rewrite filter_cons_True, filter_cons_False by lia. simpl. lia.
  - rewrite filter_cons_False, filter_cons_True by lia. simpl. lia.
Qed.

(** In an ascending list at least [k+1] elements are at most the one at
    index [k]. *)
Lemma sorted_prefix_le (s : list Z) :
  StronglySorted Z.le s ->
  forall (k : nat) (T : Z), s !! k = Some T ->
    (k < length (filter (fun c => (c <= T)%Z) s))%nat.
Proof.
  induction 1 as [|x s Hs IH Hx]; intros k T Hk.
  - discriminate.
  - destruct k as [|k]; simpl in Hk.
    + injection Hk as ->. rewrite filter_cons_True by lia. simpl. lia.
    + assert (x <= T).
      { rewrite Forall_forall in Hx. apply Hx. eapply list_elem_of_lookup_2. eassumption. }
      rewrite filter_cons_True by assumption. simpl.
      specialize (IH k T Hk). lia.
Qed.

Lemma sortInts_prefix_le (l : list Z) (k : nat) (T : Z) :
  sortInts l !! k = Some T ->
  (k < length (filter (fun c => (c <= T)%Z) l))%nat.
Proof.
  intros Hk.
  pose proof (sorted_prefix_le (sortInts l)
                (StronglySorted_merge_sort Z.le l) k T Hk) as H.
  assert (E : filter (fun c => c <= T) (sortInts l) ≡ₚ filter (fun c => c <= T) l).
  { apply filter_Permutation. apply merge_sort_Permutation. }
  rewrite <- (Permutation_length E). assumption.
Qed.

Lemma sortInts_length l : length (sortInts l) = length l.
Proof. apply Permutation_length, merge_sort_Permutation. Qed.

(** The cost-driven pass leaves at most [target] parts. *)
Lemma costCoalescing_length (missingParts out : list missingPart) (target : Z) :
  1 <= target < Z.of_nat (length missingParts) ->
  Z.of_nat (length missingParts) < 2 ^ 63 ->
  costCoalescing missingParts target = Some out ->
  Z.of_nat (length out) <= target.
Proof.
  intros Ht Hlen. unfold costCoalescing.
  destruct missingParts as [|p0 rest]; [discriminate|].
  destruct (pickTargetValue _ _ _) as [T|] eqn:Hp; simpl; [|discriminate].
  intros [= <-].
  rewrite costLoop_length. simpl length.
  pose proof (filter_le_gt_length T (adjacentCosts p0 rest)) as Hsum.
  rewrite adjacentCosts_length in Hsum.
  unfold pickTargetValue in Hp.
  rewrite sortInts_length, adjacentCosts_length in Hp.
  simpl length in Ht, Hlen, Hp.
  rewrite to_int_small in Hp by lia.
  destruct (Z.leb_spec (Z.of_nat (length rest)) (Z.of_nat (S (length rest)) - target)).
  - destruct (Z.ltb_spec (Z.of_nat (length rest) - 1) 0); [discriminate|].
    apply sortInts_prefix_le in Hp. lia.
  - destruct (Z.ltb_spec (Z.of_nat (S (length rest)) - target) 0); [discriminate|].
    apply sortInts_prefix_le in Hp. lia.
Qed.

Lemma sameFileLoop_length rest :
  forall front absorber prev out,
    sameFileLoop front absorber prev rest = Some out ->
    (length out <= length front + 1 + length rest)%nat.
Proof.
  induction rest as [|cur rest IH]; intros front absorber prev out; simpl.
  - intros [= <-]. rewrite length_app. simpl. lia.
  - destruct (sameFileCond _ _ _) as [[|]|]; simpl; [| |discriminate]; intros H.
    + apply IH in H. lia.
    + apply IH in H. rewrite length_app in H. simpl in H. lia.
Qed.

Lemma sameFileCoalescing_length missingParts out :
  sameFileCoalescing missingParts = Some out ->
  (length out <= length missingParts)%nat.
Proof.
  destruct missingParts as [|p0 rest]; [discriminate|]. simpl.
  intros H. apply sameFileLoop_length in H. simpl in *. lia.
Qed.

(** [mergeMissingChunks] leaves at most [target] parts. *)
Lemma mergeMissingChunks_length (missingParts out : list missingPart) (target : Z) :
  1 <= target ->
  Z.of_nat (length missingParts) < 2 ^ 63 ->
  mergeMissingChunks missingParts target = Some out ->
  Z.of_nat (length out) <= target.
Proof.
  intros Ht Hlen. unfold mergeMissingChunks.
  destruct (sameFileCoalescing missingParts) as [out1|] eqn:H1; simpl; [|discriminate].
  apply sameFileCoalescing_length in H1.
  destruct (Z.leb_spec (Z.of_nat (length out1)) target).
  - intros [= <-]. assumption.
  - apply costCoalescing_length; lia.
Qed.

(** ** The planner does not panic on well-formed parts *)

Lemma headHasFile_single p : headHasFile p -> singleHasFile p.
Proof.
  intros (c & rest & Hc & Hf) c' Hc'. rewrite Hc in Hc'. injection Hc' as -> _. assumption.
Qed.

Lemma sameFileMerged_headHasFile a b : headHasFile a -> headHasFile (sameFileMerged a b).
Proof.
  intros (c & rest & Hc & Hf). unfold headHasFile, sameFileMerged. simpl. rewrite Hc.
  destruct (mp_Chunks b) as [|cb ?]; eauto.
Qed.

Lemma sameFileSweep_headHasFile rest :
  forall front a,
    Forall headHasFile front -> headHasFile a -> Forall headHasFile rest ->
    Forall headHasFile (sameFileSweep front a rest).
Proof.
  induction rest as [|b rest IH]; intros front a Hf Ha Hr; simpl.
  - apply Forall_app. split; [assumption|]. constructor; [assumption|constructor].
  - apply Forall_cons in Hr as [Hb Hr].
    destruct (sameFileMergeableb a b).
    + apply IH; [assumption | apply sameFileMerged_headHasFile; assumption | assumption].
    + apply IH; [|assumption|assumption].
      apply Forall_app. split; [assumption|]. constructor; [assumption|constructor].
Qed.

Lemma costMerge_headHasFile gap prev cur : headHasFile prev -> headHasFile (costMerge gap prev cur).
Proof.
  intros (c & rest & Hc & Hf). unfold headHasFile, costMerge. simpl. rewrite Hc.
  destruct (0 <? gap); simpl; eauto.
Qed.

Lemma costLoop_headHasFile rest :
  forall T front prev orig,
    Forall headHasFile front -> headHasFile prev -> Forall headHasFile rest ->
    Forall headHasFile (costLoop T front prev orig rest).
Proof.
  induction rest as [|cur rest IH]; intros T front prev orig Hf Hp Hr; simpl.
  - apply Forall_app. split; [assumption|]. constructor; [assumption|constructor].
  - apply Forall_cons in Hr as [Hc Hr].
    destruct (T <? getCost orig cur).
    + apply IH; [|assumption|assumption].
      apply Forall_app. split; [assumption|]. constructor; [assumption|constructor].
    + apply IH; [assumption | apply costMerge_headHasFile; assumption | assumption].
Qed.

Lemma pickTargetValue_is_Some (costs : list Z) (len target : Z) :
  len = Z.of_nat (length costs) + 1 -> 1 <= target < len -> len < 2 ^ 63 ->
  is_Some (pickTargetValue costs len target).
Proof.
  intros -> Ht Hl. unfold pickTargetValue.
  rewrite to_int_small by lia.
  destruct (Z.leb_spec (Z.of_nat (length costs)) (Z.of_nat (length costs) + 1 - target)).
  - destruct (Z.ltb_spec (Z.of_nat (length costs) - 1) 0); [lia|].
    apply lookup_lt_is_Some. lia.
  - destruct (Z.ltb_spec (Z.of_nat (length costs) + 1 - target) 0); [lia|].
    apply lookup_lt_is_Some. lia.
Qed.

Lemma mergeMissingChunks_total (missingParts : list missingPart) (target : Z) :
  missingParts <> [] -> Forall headHasFile missingParts ->
  1 <= target -> Z.of_nat (length missingParts) < 2 ^ 63 ->
  exists out, mergeMissingChunks missingParts target = Some out /\ Forall headHasFile out.
Proof.
  intros Hne Hh Ht Hl. unfold mergeMissingChunks.
  destruct missingParts as [|p0 rest]; [congruence|].
  pose proof Hh as Hh'. apply Forall_cons in Hh' as [H0 Hr].
  assert (H1 : sameFileCoalescing (p0 :: rest) = Some (sameFileSweep [] p0 rest)).
  { simpl. apply sameFileLoop_sweep; [reflexivity | apply headHasFile_single; assumption |].
    eapply Forall_impl; [exact Hr | apply headHasFile_single]. }
  assert (Hs : Forall headHasFile (sameFileSweep [] p0 rest)).
  { apply sameFileSweep_headHasFile; [constructor | assumption | assumption]. }
  pose proof (sameFileCoalescing_length _ _ H1) as Hlen1.
  rewrite H1. simpl.
  destruct (Z.leb_spec (Z.of_nat (length (sameFileSweep [] p0 rest))) target) as [Hle|Hgt].
  - eauto.
  - unfold costCoalescing.
    destruct (sameFileSweep [] p0 rest) as [|q0 qs] eqn:Eq; [simpl in Hgt; lia|].
    destruct (pickTargetValue_is_Some (sortInts (adjacentCosts q0 qs))
                (Z.of_nat (length (q0 :: qs))) target) as [T HT].
    + rewrite sortInts_length, adjacentCosts_length. simpl length. lia.
    + lia.
    + lia.
    + rewrite HT. simpl. eexists. split; [reflexivity|].
      apply Forall_cons in Hs as [Hq0 Hqs].
      apply costLoop_headHasFile; [constructor | assumption | assumption].
Qed.

(** ** The bad-range retry loop *)

(** The loop of [retrieveMissingFiles] ends: every retry at least halves
    the number of parts. *)
Lemma retrieveMissingFiles_terminates {S Streams : Type} `{!ImageSourceSeekable S Streams}
    (store : Streams -> list missingPart -> option error) (fuel : nat) :
  forall (stream : S) (missingParts : list missingPart),
    Z.of_nat (length missingParts) < 2 ^ 63 ->
    (length missingParts < fuel)%nat ->
    retrieveMissingFiles store fuel stream missingParts <> OutOfFuel.
Proof.
  induction fuel as [|fuel IH]; intros stream missingParts Hl Hf; [lia|].
  simpl.
  destruct (GetBlobAt stream (calculateChunksToRequest missingParts)) as [stream' [streams|[|msg]]];
    try discriminate.
  destruct (Z.ltb_spec (Z.of_nat (length missingParts)) 64); [discriminate|].
  destruct (mergeMissingChunks missingParts (Z.of_nat (length missingParts) ÷ 2))
    as [merged|] eqn:Hm; [|discriminate].
  assert (Hq : 32 <= Z.of_nat (length missingParts) ÷ 2 < Z.of_nat (length missingParts)).
  { rewrite Z.quot_div_nonneg by lia. split.
    - apply Z.div_le_lower_bound; lia.
    - apply Z.div_lt_upper_bound; lia. }
  apply mergeMissingChunks_length in Hm; [|lia|assumption].
  apply IH; lia.
Qed.

(** What the loop does on a bad-range error, in terms of the number it
    reads, [len(missingParts)], which counts every missing part, also
    the holes and the parts copied from a local file that the request
    leaves out: below 64 parts it returns the error at once; otherwise
    it merges the parts with half their number as target, which leaves
    at most that many parts, and goes on with the merged parts (the
    next request is computed from them). *)
Lemma retrieveMissingFiles_bad_range {S Streams : Type} `{!ImageSourceSeekable S Streams}
    (store : Streams -> list missingPart -> option error)
    (fuel : nat) (stream stream' : S) (missingParts : list missingPart) :
  Forall headHasFile missingParts ->
  Z.of_nat (length missingParts) < 2 ^ 63 ->
  GetBlobAt stream (calculateChunksToRequest missingParts) = (stream', inr ErrBadRequest) ->
  let requested := Z.of_nat (length missingParts) in
  (requested < 64 ->
     retrieveMissingFiles store (Datatypes.S fuel) stream missingParts
     = Returned stream' (Some ErrBadRequest)) /\
  (64 <= requested ->
     exists merged,
       mergeMissingChunks missingParts (requested ÷ 2) = Some merged /\
       Z.of_nat (length merged) <= requested ÷ 2 /\
       Forall headHasFile merged /\
       retrieveMissingFiles store (Datatypes.S fuel) stream missingParts
       = retrieveMissingFiles store fuel stream' merged) /\
  retrieveMissingFiles store (Datatypes.S (length missingParts)) stream missingParts
  <> OutOfFuel.
Proof.
  intros Hh Hl Hg requested. subst requested. split; [|split].
  - intros Hlt. simpl. rewrite Hg.
    destruct (Z.ltb_spec (Z.of_nat (length missingParts)) 64); [reflexivity|lia].
  - intros Hge.
    assert (Hq : 32 <= Z.of_nat (length missingParts) ÷ 2).
    { rewrite Z.quot_div_nonneg by lia. apply Z.div_le_lower_bound; lia. }
    destruct (mergeMissingChunks_total missingParts (Z.of_nat (length missingParts) ÷ 2))
      as (merged & Hm & Hhm); [|assumption|lia|assumption|].
    { intros ->. simpl in Hge. lia. }
    exists merged. split; [assumption|]. split; [|split; [assumption|]].
    + eapply mergeMissingChunks_length; [|eassumption|eassumption]. lia.
    + simpl. rewrite Hg, Hm.
      destruct (Z.ltb_spec (Z.of_nat (length missingParts)) 64); [lia|reflexivity].
  - apply retrieveMissingFiles_terminates; [assumption|lia].
Qed.

(** ** Destination writer *)

Lemma zeros_nonneg_length n : 0 <= n -> Z.of_nat (length (zeros n)) = n.
Proof. intros H. unfold zeros. rewrite length_replicate. lia. Qed.

Lemma zeros_add a b : 0 <= a -> 0 <= b -> zeros (a + b) = zeros a ++ zeros b.
Proof.
  intros Ha Hb. unfold zeros. rewrite Z2Nat.inj_add by assumption.
  apply replicate_add.
Qed.

Lemma zeros_nonpos n : n <= 0 -> zeros n = [].
Proof. intros H. unfold zeros. replace (Z.to_nat n) with 0%nat by lia. reflexivity. Qed.

(** The loop of [hashHole] ends and feeds exactly [size] zero bytes, as
    long as the buffer is not empty and starts with enough zeros. *)
Lemma hashHoleLoop_zeros (copyBuffer : list Byte.byte) (k : nat) :
  copyBuffer <> [] ->
  take k copyBuffer = replicate k Byte.x00 ->
  forall (fuel : nat) (h : list Byte.byte) (size : Z),
    (Z.to_nat size `min` length copyBuffer <= k)%nat ->
    (Z.to_nat size <= fuel)%nat ->
    hashHoleLoop fuel h size copyBuffer = Some (h ++ zeros size).
Proof.
  intros Hne Hk. induction fuel as [|fuel IH]; intros h size Hmin Hf.
  - simpl. destruct (Z.leb_spec size 0); [|lia].
    rewrite zeros_nonpos, app_nil_r by assumption. reflexivity.
  - simpl. destruct (Z.leb_spec size 0).
    + rewrite zeros_nonpos, app_nil_r by assumption. reflexivity.
    + assert (0 < length copyBuffer)%nat by (destruct copyBuffer; [congruence|simpl; lia]).
      set (count := if size <? Z.of_nat (length copyBuffer) then size
                    else Z.of_nat (length copyBuffer)).
      assert (Hc : 0 < count <= size /\ (Z.to_nat count <= k)%nat).
      { unfold count. destruct (Z.ltb_spec size (Z.of_nat (length copyBuffer))); lia. }
      assert (Ht : take (Z.to_nat count) copyBuffer = zeros count).
      { replace (Z.to_nat count) with (Z.to_nat count `min` k)%nat by lia.
        rewrite <- take_take, Hk, take_replicate. unfold zeros. f_equal. lia. }
      rewrite Ht, IH by lia.
      rewrite <- app_assoc, <- zeros_add by lia. do 3 f_equal. lia.
Qed.

Lemma hashHole_zeros (fuel : nat) (h copyBuffer : list Byte.byte) (size : Z) :
  copyBuffer <> [] -> 0 <= size -> (Z.to_nat size <= fuel)%nat ->
  exists copyBuffer',
    hashHole fuel h size copyBuffer = Some (h ++ zeros size, copyBuffer') /\
    length copyBuffer' = length copyBuffer.
Proof.
  intros Hne Hs Hf. unfold hashHole.
  set (count := if size <? Z.of_nat (length copyBuffer) then size
                else Z.of_nat (length copyBuffer)).
  assert (Hc : 0 <= count <= Z.of_nat (length copyBuffer) /\
               Z.to_nat count = (Z.to_nat size `min` length copyBuffer)%nat).
  { unfold count. destruct (Z.ltb_spec size (Z.of_nat (length copyBuffer))); lia. }
  set (buf' := zeros count ++ drop (Z.to_nat count) copyBuffer).
  assert (Hlen : length buf' = length copyBuffer).
  { unfold buf', zeros. rewrite length_app, length_replicate, length_drop. lia. }
  exists buf'. split; [|assumption].
  rewrite (hashHoleLoop_zeros buf' (Z.to_nat count)); [reflexivity | | | lia | assumption].
  - intros E. rewrite E in Hlen. destruct copyBuffer; [congruence|discriminate].
  - unfold buf', zeros. rewrite take_app_length'; [reflexivity|].
    rewrite length_replicate. reflexivity.
Qed.

(** With an empty buffer and a positive size the loop never ends. *)
Lemma hashHoleLoop_empty_buffer (fuel : nat) (h : list Byte.byte) (size : Z) :
  0 < size -> hashHoleLoop fuel h size [] = None.
Proof.
  revert h size. induction fuel as [|fuel IH]; intros h size Hs; simpl.
  - destruct (Z.leb_spec size 0); [lia|reflexivity].
  - destruct (Z.leb_spec size 0); [lia|].
    apply IH. destruct (Z.ltb_spec size (Z.of_nat 0)); lia.
Qed.

(** Whatever the fuel, a result of the loop of [hashHole] is the hash
    extended by [size] zeros. *)
Lemma hashHoleLoop_result (copyBuffer : list Byte.byte) (k : nat) :
  take k copyBuffer = replicate k Byte.x00 ->
  forall (fuel : nat) (h h' : list Byte.byte) (size : Z),
    (Z.to_nat size `min` length copyBuffer <= k)%nat ->
    hashHoleLoop fuel h size copyBuffer = Some h' ->
    h' = h ++ zeros size.
Proof.
  intros Hk. induction fuel as [|fuel IH]; intros h h' size Hmin; simpl.
  - destruct (Z.leb_spec size 0); [|discriminate].
    intros [= <-]. rewrite zeros_nonpos, app_nil_r by assumption. reflexivity.
  - destruct (Z.leb_spec size 0).
    + intros [= <-]. rewrite zeros_nonpos, app_nil_r by assumption. reflexivity.
    + set (count := if size <? Z.of_nat (length copyBuffer) then size
                    else Z.of_nat (length copyBuffer)).
      assert (Hc : 0 <= count <= size /\ (Z.to_nat count <= k)%nat).
      { unfold count. destruct (Z.ltb_spec size (Z.of_nat (length copyBuffer))); lia. }
      assert (Ht : take (Z.to_nat count) copyBuffer = zeros count).
      { replace (Z.to_nat count) with (Z.to_nat count `min` k)%nat by lia.
        rewrite <- take_take, Hk, take_replicate. unfold zeros. f_equal. lia. }
      rewrite Ht. intros Hr. apply IH in Hr; [|lia].
      rewrite Hr, <- app_assoc, <- zeros_add by lia. do 2 f_equal. lia.
Qed.

Lemma hashHole_result (fuel : nat) (h h' copyBuffer copyBuffer' : list Byte.byte) (size : Z) :
  hashHole fuel h size copyBuffer = Some (h', copyBuffer') -> h' = h ++ zeros size.
Proof.
  unfold hashHole.
  set (count := if size <? Z.of_nat (length copyBuffer) then size
                else Z.of_nat (length copyBuffer)).
  set (buf' := zeros count ++ drop (Z.to_nat count) copyBuffer).
  destruct (hashHoleLoop fuel h size buf') as [h1|] eqn:Hl; simpl; [|discriminate].
  intros [= <- _].
  assert (Hc : (Z.to_nat count <= length copyBuffer)%nat /\
               (Z.to_nat size `min` length copyBuffer <= Z.to_nat count)%nat).
  { unfold count. destruct (Z.ltb_spec size (Z.of_nat (length copyBuffer))); lia. }
  assert (Hlen : length buf' = length copyBuffer).
  { unfold buf', zeros. rewrite length_app, length_replicate, length_drop. lia. }
  eapply (hashHoleLoop_result buf' (Z.to_nat count)); [| |exact Hl].
  - unfold buf', zeros. rewrite take_app_length'; [reflexivity|].
    rewrite length_replicate. reflexivity.
  - rewrite Hlen. lia.
Qed.

Lemma fileWrite_at_end (f : osFile) (bs : list Byte.byte) :
  f_pos f = Z.of_nat (length (f_data f)) ->
  fileWrite f bs = {| f_name := f_name f; f_data := f_data f ++ bs;
                      f_pos := f_pos f + Z.of_nat (length bs) |}.
Proof.
  intros Hp. unfold fileWrite. f_equal.
  rewrite Hp, Nat2Z.id, take_ge, Nat.sub_diag, drop_ge by lia.
  simpl. rewrite app_nil_r. reflexivity.
Qed.

Lemma appendHole_at_end (f : osFile) (n : Z) :
  f_pos f = Z.of_nat (length (f_data f)) -> 0 <= n ->
  appendHole f n = inl {| f_name := f_name f; f_data := f_data f ++ zeros n;
                          f_pos := f_pos f + n |}.
Proof.
  intros Hp Hn. unfold appendHole, seekCur.
  destruct (Z.ltb_spec (f_pos f + n) 0); [lia|].
  unfold ftruncate. simpl.
  destruct (Z.ltb_spec (f_pos f + n) 0); [lia|].
  do 2 f_equal. rewrite take_ge by lia. f_equal. unfold zeros. f_equal. lia.
Qed.

(** What one successful call does to a file whose offset is at its end. *)
Lemma appendCompressedStreamToFile_step (fuel : nat) (c : appendCall)
    (d d' : destinationFile) (copyBuffer copyBuffer' : list Byte.byte) :
  f_pos (file d) = Z.of_nat (length (f_data (file d))) ->
  (ac_compression c = fileTypeHole -> 0 <= ac_size c) ->
  appendCompressedStreamToFile fuel (ac_compression c) (ac_decoded c) d (ac_size c) copyBuffer
    = Appended d' copyBuffer' ->
  f_data (file d') = f_data (file d) ++ callBytes c /\
  f_pos (file d') = Z.of_nat (length (f_data (file d'))) /\
  f_name (file d') = f_name (file d) /\
  hash d' = (fun h => h ++ callBytes c) <$> hash d /\
  metadata d' = metadata d /\ skipValidation d' = skipValidation d /\
  recordFsVerity d' = recordFsVerity d.
Proof.
  intros Hp Hs. unfold appendCompressedStreamToFile, callBytes.
  destruct (ac_compression c =? fileTypeHole) eqn:Eh.
  - apply Z.eqb_eq in Eh. specialize (Hs Eh). rewrite Eh. simpl.
    rewrite appendHole_at_end by assumption.
    destruct (hash d) as [h|] eqn:Ehash.
    + destruct (hashHole fuel h (ac_size c) copyBuffer) as [[h' b']|] eqn:Ehh; [|discriminate].
      apply hashHole_result in Ehh. intros [= <- <-]. simpl.
      rewrite length_app, Nat2Z.inj_add, zeros_nonneg_length by assumption.
      rewrite Ehh. repeat split; try reflexivity. lia.
    + intros [= <- <-]. simpl.
      rewrite length_app, Nat2Z.inj_add, zeros_nonneg_length by assumption.
      repeat split; try reflexivity. lia.
  - destruct ((ac_compression c =? fileTypeZstdChunked) || (ac_compression c =? fileTypeEstargz)
              || (ac_compression c =? fileTypeNoCompression)); [|discriminate].
    unfold writeTo. rewrite fileWrite_at_end by assumption.
    intros [= <- <-]. simpl.
    rewrite length_app, Nat2Z.inj_add. repeat split; try reflexivity. lia.
Qed.

(** What a written destination file looks like. *)
Lemma Written_state (md : FileMetadata) (skip rv : bool) (d : destinationFile)
    (bs : list Byte.byte) :
  Written md skip rv d bs ->
  f_data (file d) = bs /\
  f_pos (file d) = Z.of_nat (length (f_data (file d))) /\
  f_name (file d) = Name md /\
  hash d = (if skip then None else Some bs) /\
  metadata d = md /\ skipValidation d = skip /\ recordFsVerity d = rv.
Proof.
  induction 1 as [d Ho|d bs fuel c b d' b' Hw IH Hs Ha].
  - injection Ho as <-. simpl. repeat split; reflexivity.
  - destruct IH as (Hd & Hp & Hn & Hh & Hm & Hsk & Hr).
    apply appendCompressedStreamToFile_step in Ha as (Hd' & Hp' & Hn' & Hh' & Hm' & Hsk' & Hr');
      [|assumption|assumption].
    split; [rewrite Hd', Hd; reflexivity|].
    split; [exact Hp'|].
    split; [rewrite Hn'; exact Hn|].
    split; [|repeat split; congruence].
    rewrite Hh', Hh. destruct skip; reflexivity.
Qed.

Lemma closeDeferred_err (env : closeEnv) (d : destinationFile) (e : closeError) :
  closeDeferred env d (Some e) = Some e.
Proof.
  unfold closeDeferred. destruct (recordFsVerity d); [destruct (reopenErr env)|]; reflexivity.
Qed.

Lemma closeDeferred_io (env : closeEnv) (d : destinationFile) (msg : option string)
    (e : closeError) :
  closeDeferred env d (ErrIO <$> msg) = Some e -> exists m, e = ErrIO m.
Proof.
  unfold closeDeferred.
  destruct (recordFsVerity d), (reopenErr env), msg, (fileCloseErr env),
    (recordFsVerityErr env); simpl; intros [= <-]; eauto.
Qed.

(** C1 (amended): a destination file opened with validation and written
    by successful calls, none of them a hole of negative size, holds
    exactly the bytes written to it and has hashed exactly these bytes;
    [Close] fails with the parse error when the manifest digest is
    malformed, fails with the checksum-mismatch error carrying the file
    path, the computed digest and the manifest digest when the manifest
    digest parses and differs from the computed one, and goes on to the
    attributes when the two agree.  For a file opened as trusted,
    [Close] compares no digest: the file has no hash and the result is
    that of the attribute and clean-up steps. *)
Theorem Close_validates_unless_trusted `{Digester}
    (md : FileMetadata) (skip rv : bool) (d : destinationFile) (bs : list Byte.byte)
    (env : closeEnv) :
  Written md skip rv d bs ->
  f_data (file d) = bs /\
  (skip = false ->
     hash d = Some bs /\
     (forall manifest, Parse (Digest md) = inl manifest ->
        (FromBytes bs <> manifest ->
           Close env d = Some (Some (ErrChecksumMismatch (Name md) (FromBytes bs) manifest))) /\
        (FromBytes bs = manifest ->
           Close env d = Some (closeDeferred env d (ErrIO <$> setFileAttrsErr env)))) /\
     (forall err, Parse (Digest md) = inr err -> Close env d = Some (Some err))) /\
  (skip = true ->
     hash d = None /\
     Close env d = Some (closeDeferred env d (ErrIO <$> setFileAttrsErr env)) /\
     forall e, Close env d = Some (Some e) -> exists msg, e = ErrIO msg).
Proof.
  intros Hw.
  apply Written_state in Hw as (Hd & Hp & Hn & Hh & Hm & Hsk & Hr).
  split; [assumption|]. split.
  - intros ->. simpl in Hh. split; [assumption|]. split.
    + intros manifest Hparse. unfold Close. rewrite Hsk, Hm, Hparse, Hh, Hn. simpl.
      split; intros Hcmp.
      * destruct (String.eqb_spec (FromBytes bs) manifest); [contradiction|].
        simpl. rewrite closeDeferred_err. reflexivity.
      * rewrite Hcmp, String.eqb_refl. reflexivity.
    + intros err Hparse. unfold Close. rewrite Hsk, Hm, Hparse. simpl.
      rewrite closeDeferred_err. reflexivity.
  - intros ->. simpl in Hh. split; [assumption|].
    assert (Hc : Close env d = Some (closeDeferred env d (ErrIO <$> setFileAttrsErr env))).
    { unfold Close. rewrite Hsk. reflexivity. }
    split; [assumption|].
    intros e. rewrite Hc. intros [= He]. eapply closeDeferred_io. eassumption.
Qed.

(** C1, as stated, fails: the file holds the three bytes "abc", which
    the hash has digested, and the manifest digest of its entry is not a
    digest, so it differs from the computed one; [Close] fails with the
    parse error of the manifest digest, which carries neither the path
    nor the computed digest, and not with the checksum-mismatch error. *)
Lemma Close_malformed_manifest_digest :
  exists d b,
    appendCompressedStreamToFile 0 fileTypeZstdChunked [Byte.x61; Byte.x62; Byte.x63]
      (freshFile malformedDigestEntry false false) 3 dirtyBuffer = Appended d b /\
    hash d = Some [Byte.x61; Byte.x62; Byte.x63] /\
    @FromBytes rawDigester [Byte.x61; Byte.x62; Byte.x63] <> Digest malformedDigestEntry /\
    @Close rawDigester okEnv d = Some (Some (ErrInvalidDigest "not-a-digest")) /\
    forall path got expected,
      @Close rawDigester okEnv d <> Some (Some (ErrChecksumMismatch path got expected)).
Proof.
  do 2 eexists. split; [reflexivity|]. split; [reflexivity|].
  split; [discriminate|]. split; [reflexivity|]. discriminate.
Qed.

(** What the amended claim leaves out: a hole of negative size.  For the
    entry of one byte whose first chunk states three bytes, the second
    call is a hole of minus two bytes, whatever the copy buffer holds by
    then: it cuts the file down to "a" and leaves the hash at "abc", and
    [Close] accepts the file against the manifest digest of "abc". *)
Lemma Close_accepts_truncated_file :
  exists d1 b1,
    appendCompressedStreamToFile 0 fileTypeZstdChunked [Byte.x61; Byte.x62; Byte.x63]
      (freshFile shortFileEntry false false) 3 dirtyBuffer = Appended d1 b1 /\
    forall (fuel : nat) (copyBuffer : list Byte.byte),
      exists d2,
        appendCompressedStreamToFile fuel fileTypeHole [] d1 (-2) copyBuffer
        = Appended d2 copyBuffer /\
        f_data (file d2) = [Byte.x61] /\
        hash d2 = Some [Byte.x61; Byte.x62; Byte.x63] /\
        @FromBytes rawDigester (f_data (file d2)) <> Digest shortFileEntry /\
        @Close rawDigester okEnv d2 = Some None.
Proof.
  do 2 eexists. split; [reflexivity|].
  intros fuel copyBuffer. unfold appendCompressedStreamToFile. simpl.
  unfold hashHole.
  assert (Hc : (if -2 <? Z.of_nat (length copyBuffer) then -2
                else Z.of_nat (length copyBuffer)) = -2).
  { destruct (Z.ltb_spec (-2) (Z.of_nat (length copyBuffer))); [reflexivity|lia]. }
  rewrite Hc. change (zeros (-2)) with (@nil Byte.byte). simpl.
  assert (Hl : forall h, hashHoleLoop fuel h (-2) copyBuffer = Some h)
    by (intros h; destruct fuel; reflexivity).
  rewrite Hl. simpl. eexists. split; [reflexivity|]. simpl.
  split; [reflexivity|]. split; [reflexivity|]. split; [discriminate|reflexivity].
Qed.

(** C4: writing a hole of [n] bytes moves the offset and the length of
    the file forward by [n], appends [n] zero bytes to its content
    and, when the file has a hash, feeds exactly [n] zero bytes to it.
    A fresh file written through the hole path alone therefore records
    the digest of [n] zero bytes, and closing it against that digest
    passes the validation. *)
Theorem hole_advances_file_and_hash `{Digester}
    (d : destinationFile) (n : Z) (decoded copyBuffer : list Byte.byte) (fuel : nat) :
  0 <= n -> copyBuffer <> [] -> (Z.to_nat n <= fuel)%nat ->
  f_pos (file d) = Z.of_nat (length (f_data (file d))) ->
  exists d' copyBuffer',
    appendCompressedStreamToFile fuel fileTypeHole decoded d n copyBuffer
      = Appended d' copyBuffer' /\
    f_pos (file d') = f_pos (file d) + n /\
    Z.of_nat (length (f_data (file d'))) = Z.of_nat (length (f_data (file d))) + n /\
    f_data (file d') = f_data (file d) ++ zeros n /\
    hash d' = (fun h => h ++ zeros n) <$> hash d /\
    forall md rv env,
      d = freshFile md false rv -> Digest md = FromBytes (zeros n) ->
      hash d' = Some (zeros n) /\ f_data (file d') = zeros n /\
      Close env d' = Some (closeDeferred env d' (ErrIO <$> setFileAttrsErr env)) /\
      Close okEnv d' = Some None.
Proof.
  intros Hn Hb Hf Hp.
  assert (Hrun : exists d' copyBuffer',
             appendCompressedStreamToFile fuel fileTypeHole decoded d n copyBuffer
             = Appended d' copyBuffer').
  { unfold appendCompressedStreamToFile. simpl.
    rewrite appendHole_at_end by assumption.
    destruct (hash d) as [h|]; [|eauto].
    destruct (hashHole_zeros fuel h copyBuffer n Hb Hn Hf) as (b' & -> & _). eauto. }
  destruct Hrun as (d' & b' & Hrun). exists d', b'. split; [assumption|].
  pose proof (appendCompressedStreamToFile_step fuel
                {| ac_compression := fileTypeHole; ac_decoded := decoded; ac_size := n |}
                d d' copyBuffer b' Hp (fun _ => Hn) Hrun)
    as (Hd & Hp' & Hname & Hh & Hm & Hsk & Hr).
  unfold callBytes in Hd, Hh. simpl in Hd, Hh.
  split; [|split; [|split; [assumption|split; [assumption|]]]].
  - rewrite Hp', Hd, length_app, Nat2Z.inj_add, zeros_nonneg_length, Hp by assumption.
    reflexivity.
  - rewrite Hd, length_app, Nat2Z.inj_add, zeros_nonneg_length by assumption. reflexivity.
  - intros md rv env -> Hdig. simpl in *.
    split; [assumption|]. split; [assumption|].
    assert (Hc : forall env', Close env' d'
                 = Some (closeDeferred env' d' (ErrIO <$> setFileAttrsErr env'))).
    { intros env'. unfold Close. rewrite Hsk, Hm, Hh. simpl.
      unfold Parse. rewrite Hdig, FromBytes_valid. simpl.
      rewrite String.eqb_refl. reflexivity. }
    split; [apply Hc|].
    rewrite Hc. unfold closeDeferred. rewrite Hr. simpl. destruct rv; reflexivity.
Qed.

(** ** Entry merger *)

Lemma countNextChunks_take rest :
  forallb isChunk (take (countNextChunks rest) rest) = true.
Proof.
  induction rest as [|e rest IH]; simpl; [reflexivity|].
  destruct (isChunk e) eqn:E; simpl; [|reflexivity]. rewrite E. assumption.
Qed.

Lemma countNextChunks_drop rest :
  startsWithChunk (drop (countNextChunks rest) rest) = false.
Proof.
  induction rest as [|e rest IH]; simpl; [reflexivity|].
  destruct (isChunk e) eqn:E; simpl; assumption.
Qed.

Lemma countNextChunks_le rest : (countNextChunks rest <= length rest)%nat.
Proof.
  induction rest as [|e rest IH]; simpl; [lia|].
  destruct (isChunk e); simpl; lia.
Qed.

(** The preallocated slice is filled exactly: the loop never indexes
    outside it and leaves no zero entry behind. *)
Lemma mergeLoop_list (fileType : Z) (entries : list FileMetadata) :
  forall (skip m : nat) (arr : list FileMetadata) (total : Z),
    forallb isChunk (take skip entries) = true ->
    (m + mergedSize fileType entries)%nat = length arr ->
    mergeLoop fileType skip entries m arr total =
    match mergeLoopList fileType skip entries total with
    | Merged l t => Merged (take m arr ++ l) t
    | r => r
    end.
Proof.
  induction entries as [|e rest IH]; intros skip m arr total Hc Hm; simpl in *.
  - rewrite app_nil_r, take_ge by lia. reflexivity.
  - destruct skip as [|skip].
    + destruct (mustSkipFile fileType e) eqn:Es.
      * apply IH; [reflexivity|assumption].
      * destruct (isChunk e) eqn:Ec; [reflexivity|]. simpl in Hm.
        destruct (if isReg e then absorbChunks e rest else (e, 0%nat)) as [e' n] eqn:Ea.
        destruct (Nat.ltb_spec m (length arr)); [|lia].
        rewrite IH.
        -- destruct (mergeLoopList fileType n rest (to_int (total + Size e)));
             try reflexivity.
           f_equal.
           rewrite (take_S_r (<[m:=e']> arr) m e')
             by (apply list_lookup_insert_eq; assumption).
           rewrite take_insert_ge, <- app_assoc by lia. reflexivity.
        -- destruct (isReg e).
           ++ injection Ea as <- <-. apply countNextChunks_take.
           ++ injection Ea as <- <-. reflexivity.
        -- rewrite length_insert. lia.
    + simpl in Hc. apply andb_true_iff in Hc as [Hce Hc].
      rewrite Hce in Hm. simpl in Hm.
      destruct (mustSkipFile fileType e); apply IH; assumption.
Qed.

Lemma mergeTocEntries_list (tocOffset fileType : Z) (entries : list FileMetadata) :
  mergeTocEntries tocOffset fileType entries =
  match mergeLoopList fileType 0 entries 0 with
  | Merged l t => Merged (fixEndOffsets tocOffset l).1 t
  | r => r
  end.
Proof.
  unfold mergeTocEntries. rewrite mergeLoop_list.
  - destruct (mergeLoopList fileType 0 entries 0); reflexivity.
  - reflexivity.
  - rewrite length_replicate. reflexivity.
Qed.

Lemma mergeLoopList_skip (fileType : Z) (skip : nat) :
  forall (entries : list FileMetadata) (total : Z),
    mergeLoopList fileType skip entries total =
    mergeLoopList fileType 0 (drop skip entries) total.
Proof.
  induction skip as [|skip IH]; intros entries total.
  - rewrite drop_0. reflexivity.
  - destruct entries as [|e rest]; simpl; [reflexivity|]. apply IH.
Qed.

Lemma mergeLoopList_MergesTo (fileType : Z) (n : nat) :
  forall (entries l : list FileMetadata) (total t : Z),
    (length entries <= n)%nat ->
    mergeLoopList fileType 0 entries total = Merged l t ->
    MergesTo fileType entries l /\ t = sumSizes l total.
Proof.
  induction n as [|n IH]; intros entries l total t Hlen.
  - destruct entries; [|simpl in Hlen; lia]. simpl. intros [= <- <-].
    split; [constructor|reflexivity].
  - destruct entries as [|e rest]; simpl.
    { intros [= <- <-]. split; [constructor|reflexivity]. }
    simpl in Hlen.
    destruct (mustSkipFile fileType e) eqn:Es.
    { intros Hr. apply IH in Hr as [Hm Ht]; [|lia].
      split; [constructor; assumption|assumption]. }
    destruct (isChunk e) eqn:Ec; [discriminate|].
    destruct (isReg e) eqn:Er.
    + unfold absorbChunks. rewrite mergeLoopList_skip.
      destruct (mergeLoopList fileType 0 (drop (countNextChunks rest) rest)
                  (to_int (total + Size e))) as [l' t'| |] eqn:Hr; try discriminate.
      intros [= <- <-].
      apply IH in Hr as [Hm Ht]; [|rewrite length_drop; lia].
      split; [|exact Ht].
      rewrite <- (take_drop (countNextChunks rest) rest) at 1.
      apply MergesTo_reg; try assumption.
      * apply countNextChunks_take.
      * apply countNextChunks_drop.
    + destruct (mergeLoopList fileType 0 rest (to_int (total + Size e)))
        as [l' t'| |] eqn:Hr; try discriminate.
      intros [= <- <-].
      apply IH in Hr as [Hm Ht]; [|lia].
      split; [constructor; assumption|exact Ht].
Qed.

Lemma orphanChunks_run (fileType : Z) (rest : list FileMetadata) :
  orphanChunks fileType true rest =
  orphanChunks fileType true (drop (countNextChunks rest) rest).
Proof.
  induction rest as [|e rest IH]; simpl; [reflexivity|].
  destruct (isChunk e) eqn:Ec; simpl; [assumption|].
  rewrite Ec. reflexivity.
Qed.

(** The second loop fails exactly when some chunk entry is an orphan. *)
Lemma mergeLoopList_orphans (fileType : Z) (n : nat) :
  forall (entries : list FileMetadata) (inRun : bool) (total : Z),
    (length entries <= n)%nat ->
    inRun = false \/ startsWithChunk entries = false ->
    (orphanChunks fileType inRun entries <> [] ->
       mergeLoopList fileType 0 entries total = MergeError errChunkWithoutFile) /\
    (orphanChunks fileType inRun entries = [] ->
       exists l t, mergeLoopList fileType 0 entries total = Merged l t).
Proof.
  induction n as [|n IH]; intros entries inRun total Hlen Hb.
  - destruct entries; [|simpl in Hlen; lia]. simpl. split; [congruence|eauto].
  - destruct entries as [|e rest]; simpl.
    { split; [congruence|eauto]. }
    simpl in Hlen, Hb.
    destruct (isChunk e) eqn:Ec.
    + destruct Hb as [->|Hb]; [|discriminate].
      destruct (mustSkipFile fileType e) eqn:Es; simpl.
      * apply IH; [lia|left; reflexivity].
      * split; [reflexivity|discriminate].
    + destruct (mustSkipFile fileType e) eqn:Es; simpl.
      * rewrite andb_false_r. apply IH; [lia|left; reflexivity].
      * rewrite andb_true_r. destruct (isReg e) eqn:Er.
        -- unfold absorbChunks. rewrite mergeLoopList_skip, orphanChunks_run.
           destruct (IH (drop (countNextChunks rest) rest) true (to_int (total + Size e)))
             as [He Hok].
           { rewrite length_drop. lia. }
           { right. apply countNextChunks_drop. }
           split.
           ++ intros Ho. rewrite (He Ho). reflexivity.
           ++ intros Ho. destruct (Hok Ho) as (l & t & ->). eauto.
        -- destruct (IH rest false (to_int (total + Size e))) as [He Hok];
             [lia|left; reflexivity|].
           split.
           ++ intros Ho. rewrite (He Ho). reflexivity.
           ++ intros Ho. destruct (Hok Ho) as (l & t & ->). eauto.
Qed.

Lemma MergesTo_no_chunk (fileType : Z) (entries l : list FileMetadata) :
  MergesTo fileType entries l ->
  Forall (fun e => isChunk e = false /\ mustSkipFile fileType e = false) l.
Proof.
  induction 1 as [|e rest l Hs Hm IH|e rest l Hs Hc Hr Hm IH|r run rest l Hs Hr Hrun Hn Hm IH].
  - constructor.
  - assumption.
  - constructor; [split; assumption|assumption].
  - constructor; [|assumption]. split.
    + unfold isChunk, isReg in *. simpl.
      apply String.eqb_eq in Hr. rewrite Hr. reflexivity.
    + exact Hs.
Qed.

Lemma fixEndOffsets_types (tocOffset : Z) (l : list FileMetadata) :
  map Type_ (fixEndOffsets tocOffset l).1 = map Type_ l /\
  map Name (fixEndOffsets tocOffset l).1 = map Name l /\
  map Size (fixEndOffsets tocOffset l).1 = map Size l.
Proof.
  induction l as [|e rest IH]; simpl; [auto|].
  destruct (fixEndOffsets tocOffset rest) as [fixed lastOffset]. simpl in *.
  destruct IH as (H1 & H2 & H3). rewrite H1, H2, H3. auto.
Qed.

Lemma isChunk_false_iff (e : FileMetadata) : isChunk e = false <-> Type_ e <> TypeChunk.
Proof. unfold isChunk. apply String.eqb_neq. Qed.

(** C5 (amended): the merger returns the "chunk type without a regular
    file" error exactly when some chunk-continuation entry that is not
    dropped as codec metadata lies outside the run that follows a
    regular file that is kept; a dropped chunk-continuation entry outside
    a run is passed over without error.  In every successful result no
    entry of chunk-continuation type appears: the result is the input
    with each kept regular file turned into one entry whose chunk list
    is the file entry followed by the run of continuation entries after
    it, with the end offsets then filled in. *)
Theorem mergeTocEntries_chunks_absorbed (tocOffset fileType : Z) (entries : list FileMetadata) :
  (orphanChunks fileType false entries <> [] <->
     mergeTocEntries tocOffset fileType entries = MergeError errChunkWithoutFile) /\
  (orphanChunks fileType false entries = [] <->
     exists merged total, mergeTocEntries tocOffset fileType entries = Merged merged total) /\
  (forall merged total,
     mergeTocEntries tocOffset fileType entries = Merged merged total ->
     Forall (fun e => Type_ e <> TypeChunk) merged /\
     exists l, MergesTo fileType entries l /\ merged = (fixEndOffsets tocOffset l).1).
Proof.
  rewrite mergeTocEntries_list.
  destruct (mergeLoopList_orphans fileType (length entries) entries false 0
              (Nat.le_refl _) (or_introl eq_refl)) as [He Hok].
  split; [|split].
  - split.
    + intros Ho. rewrite (He Ho). reflexivity.
    + intros Hr Ho. destruct (Hok Ho) as (l & t & Hl). rewrite Hl in Hr. discriminate.
  - split.
    + intros Ho. destruct (Hok Ho) as (l & t & ->). eauto.
    + intros (merged & total & Hr).
      destruct (orphanChunks fileType false entries) eqn:Eo; [reflexivity|].
      rewrite He in Hr by discriminate. discriminate.
  - intros merged total.
    destruct (mergeLoopList fileType 0 entries 0) as [l t| |] eqn:Hl; try discriminate.
    intros [= <- <-].
    apply (mergeLoopList_MergesTo fileType (length entries)) in Hl as [Hm _]; [|lia].
    split; [|eauto].
    apply MergesTo_no_chunk in Hm.
    destruct (fixEndOffsets_types tocOffset l) as (Ht & _ & _).
    apply Forall_forall. intros e He'.
    apply list_elem_of_lookup in He' as [i Hi].
    assert (Hti : map Type_ l !! i = Some (Type_ e)).
    { rewrite <- Ht, list_lookup_fmap, Hi. reflexivity. }
    rewrite list_lookup_fmap in Hti.
    destruct (l !! i) as [e0|] eqn:Ei; [|discriminate]. injection Hti as Hti.
    rewrite Forall_forall in Hm.
    destruct (Hm e0) as [Hc _]; [eapply list_elem_of_lookup_2; eassumption|].
    apply isChunk_false_iff in Hc. congruence.
Qed.

(** C5, as stated, fails: the chunk entry is not preceded by a regular
    file, and the merge succeeds with an empty result. *)
Lemma stray_chunk_without_error :
  strayChunks false landmarkChunkEntries <> [] /\
  mergeTocEntries 0 fileTypeEstargz landmarkChunkEntries = Merged [] 0.
Proof. split; [discriminate|reflexivity]. Qed.

(** ** Merging a merged list again *)

Lemma countNextChunks_none rest : startsWithChunk rest = false -> countNextChunks rest = 0%nat.
Proof. destruct rest as [|e rest]; simpl; [reflexivity|]. intros ->. reflexivity. Qed.

Lemma mergeLoopList_merged (fileType : Z) (M : list FileMetadata) :
  forall total,
    Forall (fun e => isChunk e = false /\ mustSkipFile fileType e = false) M ->
    mergeLoopList fileType 0 M total = Merged (map remerged M) (sumSizes M total).
Proof.
  induction M as [|e rest IH]; intros total HM; simpl; [reflexivity|].
  apply Forall_cons in HM as [[Hc Hs] Hrest].
  rewrite Hs, Hc.
  assert (Hn : countNextChunks rest = 0%nat).
  { apply countNextChunks_none. destruct rest as [|e2 ?]; [reflexivity|].
    apply Forall_cons in Hrest as [[Hc2 _] _]. exact Hc2. }
  unfold remerged, absorbChunks. rewrite Hn.
  destruct (isReg e); simpl; rewrite IH by assumption; reflexivity.
Qed.

Lemma fixEndOffsets_keeps (fileType tocOffset : Z) (l : list FileMetadata) :
  Forall (fun e => isChunk e = false /\ mustSkipFile fileType e = false) l ->
  Forall (fun e => isChunk e = false /\ mustSkipFile fileType e = false)
    (fixEndOffsets tocOffset l).1.
Proof.
  induction 1 as [|e rest He Hrest IH]; simpl; [constructor|].
  destruct (fixEndOffsets tocOffset rest) as [fixed lastOffset]. simpl in *.
  constructor; assumption.
Qed.

Lemma sumSizes_map (l1 l2 : list FileMetadata) :
  map Size l1 = map Size l2 -> forall total, sumSizes l1 total = sumSizes l2 total.
Proof.
  revert l2. induction l1 as [|e1 l1 IH]; intros [|e2 l2]; simpl; try discriminate.
  - reflexivity.
  - intros [= Hs Hm] total. unfold sumSizes in *. simpl. rewrite Hs. apply IH. assumption.
Qed.

Lemma cons_eq_inv {A : Type} (x y : A) (l k : list A) :
  x :: l = y :: k -> x = y /\ l = k.
Proof. intros H. injection H. auto. Qed.

Lemma withoutChunks_withChunks (e : FileMetadata) (chunks : list FileMetadata) (endOffset : Z) :
  withoutChunks (withChunks e chunks endOffset) = withChunks (withoutChunks e) [] endOffset.
Proof. reflexivity. Qed.

(** The last pass reads of an entry nothing but its offsets. *)
Lemma fixEndOffsets_congr (tocOffset : Z) (l1 : list FileMetadata) :
  forall l2,
    map withoutChunks l1 = map withoutChunks l2 ->
    map withoutChunks (fixEndOffsets tocOffset l1).1
    = map withoutChunks (fixEndOffsets tocOffset l2).1 /\
    (fixEndOffsets tocOffset l1).2 = (fixEndOffsets tocOffset l2).2.
Proof.
  induction l1 as [|e1 l1 IH]; intros [|e2 l2]; cbn [map fixEndOffsets];
    try discriminate; [auto|].
  intros Heq. apply cons_eq_inv in Heq as [He Hm]. destruct (IH l2 Hm) as [H1 H2].
  destruct (fixEndOffsets tocOffset l1) as [f1 o1].
  destruct (fixEndOffsets tocOffset l2) as [f2 o2]. cbn [fst snd map] in *. subst o2.
  assert (HE : EndOffset e1 = EndOffset e2) by (apply (f_equal EndOffset) in He; exact He).
  assert (HO : Offset e1 = Offset e2) by (apply (f_equal Offset) in He; exact He).
  rewrite HE, HO, H1. split; [|reflexivity]. f_equal.
  rewrite !withoutChunks_withChunks, He. reflexivity.
Qed.

(** Running the last pass twice changes no offset. *)
Lemma fixEndOffsets_idem (tocOffset : Z) (l : list FileMetadata) :
  map withoutChunks (fixEndOffsets tocOffset (fixEndOffsets tocOffset l).1).1
  = map withoutChunks (fixEndOffsets tocOffset l).1 /\
  (fixEndOffsets tocOffset (fixEndOffsets tocOffset l).1).2 = (fixEndOffsets tocOffset l).2.
Proof.
  induction l as [|e rest IH]; simpl; [auto|].
  destruct (fixEndOffsets tocOffset rest) as [fixed lastOffset] eqn:Ef. simpl in *.
  destruct (fixEndOffsets tocOffset fixed) as [fixed2 lastOffset2] eqn:Ef2. simpl in *.
  destruct IH as [H1 H2]. subst lastOffset2. rewrite H1. split; [|reflexivity].
  f_equal. unfold withoutChunks, withChunks. simpl. f_equal.
  destruct (Z.eqb_spec (EndOffset e) 0) as [E0|E0].
  - destruct (Z.eqb_spec lastOffset 0); reflexivity.
  - destruct (Z.eqb_spec (EndOffset e) 0); [contradiction|reflexivity].
Qed.

Lemma withoutChunks_remerged (M : list FileMetadata) :
  map withoutChunks (map remerged M) = map withoutChunks M.
Proof.
  induction M as [|e M IH]; simpl; [reflexivity|]. rewrite IH. f_equal.
  unfold remerged. destruct (isReg e); reflexivity.
Qed.

Lemma fixEndOffsets_chunks (tocOffset : Z) (X : list FileMetadata) :
  Forall2 (fun e e' => Chunks e' = (fixChunks (EndOffset e') (Chunks e)).1)
    X (fixEndOffsets tocOffset X).1.
Proof.
  induction X as [|e X IH]; simpl; [constructor|].
  destruct (fixEndOffsets tocOffset X) as [fixed lastOffset]. simpl in *.
  constructor; [reflexivity|assumption].
Qed.

(** C6 (amended): merging a merged list again succeeds with the same
    total size and the same entries up to their chunk lists: every field
    other than [Chunks], the computed end offsets included, is
    unchanged, while the chunk list of every regular entry becomes a
    single chunk, a copy of the merged entry itself. *)
Theorem mergeTocEntries_again (tocOffset fileType : Z)
    (entries merged : list FileMetadata) (total : Z) :
  mergeTocEntries tocOffset fileType entries = Merged merged total ->
  exists merged',
    mergeTocEntries tocOffset fileType merged = Merged merged' total /\
    map withoutChunks merged' = map withoutChunks merged /\
    Forall2 (fun e e' =>
               isReg e = true -> Chunks e' = [withEndAndSize e (EndOffset e)])
      merged merged'.
Proof.
  rewrite !mergeTocEntries_list.
  destruct (mergeLoopList fileType 0 entries 0) as [l t| |] eqn:Hl; try discriminate.
  intros [= <- <-].
  apply (mergeLoopList_MergesTo fileType (length entries)) in Hl as [Hm Ht]; [|lia].
  apply MergesTo_no_chunk in Hm.
  pose proof (fixEndOffsets_keeps fileType tocOffset l Hm) as HM.
  set (M := (fixEndOffsets tocOffset l).1) in *.
  rewrite (mergeLoopList_merged fileType M 0 HM).
  exists (fixEndOffsets tocOffset (map remerged M)).1.
  assert (Hmeta : map withoutChunks (fixEndOffsets tocOffset (map remerged M)).1
                  = map withoutChunks M).
  { destruct (fixEndOffsets_congr tocOffset (map remerged M) M
                (withoutChunks_remerged M)) as [-> _].
    apply fixEndOffsets_idem. }
  split; [|split].
  - f_equal. rewrite Ht. apply sumSizes_map.
    destruct (fixEndOffsets_types tocOffset l) as (_ & _ & Hs). exact Hs.
  - exact Hmeta.
  - pose proof (fixEndOffsets_chunks tocOffset (map remerged M)) as Hc.
    apply Forall2_fmap_l in Hc.
    assert (Hlen : length M = length (fixEndOffsets tocOffset (map remerged M)).1).
    { apply (f_equal length) in Hmeta. rewrite !length_map in Hmeta. congruence. }
    apply Forall2_same_length_lookup. split; [exact Hlen|].
    intros i e e' Hi Hi' Hr.
    rewrite Forall2_lookup in Hc. specialize (Hc i). rewrite Hi, Hi' in Hc.
    inversion Hc as [? ? Hch|]; subst.
    assert (HE : EndOffset e' = EndOffset e).
    { apply (f_equal (fun x => x !! i)) in Hmeta.
      rewrite !list_lookup_fmap, Hi, Hi' in Hmeta.
      apply (f_equal (fun o => match o with Some x => EndOffset x | None => 0 end)) in Hmeta.
      exact Hmeta. }
    rewrite Hch. unfold remerged. rewrite Hr. simpl. rewrite HE. reflexivity.
Qed.

(** C6, as stated, fails: a file with one continuation chunk has two
    chunks after the first merge and one after the second. *)
Lemma mergeTocEntries_not_idempotent :
  exists merged total merged',
    mergeTocEntries 200 fileTypeZstdChunked twoChunkFileEntries = Merged merged total /\
    mergeTocEntries 200 fileTypeZstdChunked merged = Merged merged' total /\
    map (fun e => length (Chunks e)) merged = [2%nat] /\
    map (fun e => length (Chunks e)) merged' = [1%nat] /\
    merged' <> merged.
Proof.
  do 3 eexists. split; [reflexivity|]. split; [reflexivity|].
  split; [reflexivity|]. split; [reflexivity|].
  intros H. apply (f_equal (map (fun e => length (Chunks e)))) in H.
  discriminate H.
Qed.

(** ** Hard-link deduplication *)

Lemma readXattrs_lookup (cx : gmap string string) (names : list string) :
  forall acc : gmap string string,
    Forall (fun x => is_Some (cx !! x)) names ->
    exists m,
      readXattrs (fun x => cx !! x) names acc = Some m /\
      forall k,
        (k ∈ names -> k ∉ xattrsToIgnore -> m !! k = cx !! k) /\
        (k ∉ names \/ k ∈ xattrsToIgnore -> m !! k = acc !! k).
Proof.
  induction names as [|x names IH]; intros acc Hn; simpl.
  - exists acc. split; [reflexivity|]. intros k. split; [|reflexivity].
    intros H. inversion H.
  - apply Forall_cons in Hn as [[v Hv] Hn]. rewrite Hv.
    destruct (bool_decide_reflect (x ∈ xattrsToIgnore)) as [Hi|Hi].
    + destruct (IH acc Hn) as (m & -> & Hm). exists m. split; [reflexivity|].
      intros k. destruct (Hm k) as [Hin Hout]. split.
      * intros Hk Hni. apply elem_of_cons in Hk as [->|Hk]; [contradiction|].
        apply Hin; assumption.
      * intros [Hk|Hk]; apply Hout; [|right; assumption].
        left. intros Hk'. apply Hk. right. assumption.
    + destruct (IH (<[x:=v]> acc) Hn) as (m & -> & Hm). exists m. split; [reflexivity|].
      intros k. destruct (Hm k) as [Hin Hout]. split.
      * intros Hk Hni. destruct (decide (k ∈ names)) as [Hkn|Hkn].
        -- apply Hin; assumption.
        -- apply elem_of_cons in Hk as [->|Hk]; [|contradiction].
           rewrite Hout by (left; assumption).
           rewrite lookup_insert_eq. symmetry. assumption.
      * intros Hk. assert (Hne : x <> k).
        { intros ->. destruct Hk as [Hk|Hk]; [|contradiction]. apply Hk. left. }
        rewrite Hout.
        -- apply lookup_insert_ne. assumption.
        -- destruct Hk as [Hk|Hk]; [left|right; assumption].
           intros Hk'. apply Hk. right. assumption.
Qed.

(** The map built by [canDedupFileWithHardLink] is the candidate's
    attributes without the ignored ones. *)
Lemma readXattrs_withoutIgnored (cx : gmap string string) (names : list string) :
  (forall x, x ∈ names <-> is_Some (cx !! x)) ->
  readXattrs (fun x => cx !! x) names ∅ = Some (withoutIgnored cx).
Proof.
  intros Hn.
  destruct (readXattrs_lookup cx names ∅) as (m & -> & Hm).
  { apply Forall_forall. intros x Hx. apply Hn. assumption. }
  f_equal. apply map_eq. intros k. destruct (Hm k) as [Hin Hout].
  unfold withoutIgnored.
  destruct (decide (k ∈ xattrsToIgnore)) as [Hi|Hi].
  - rewrite Hout by (right; assumption). rewrite lookup_empty.
    symmetry. apply map_lookup_filter_None. right. intros v _ Hk. apply Hk. exact Hi.
  - destruct (cx !! k) as [v|] eqn:Ek.
    + rewrite Hin; [|apply Hn; rewrite Ek; eauto|assumption].
      symmetry. apply map_lookup_filter_Some. split; assumption.
    + rewrite Hout.
      * rewrite lookup_empty. symmetry. apply map_lookup_filter_None. left. assumption.
      * left. intros Hk. apply Hn in Hk. rewrite Ek in Hk. destruct Hk as [? [=]].
Qed.

(** Where the metadata of the candidate can be read, it is accepted
    exactly when owner and mode agree and the TOC entry has a non-nil
    xattr map equal to the candidate's attributes without the ignored
    ones. *)
Lemma canDedupFileWithHardLink_iff (file : FileMetadata) (uid gid mode : Z)
    (names : list string) (cx : gmap string string) :
  (forall x, x ∈ names <-> is_Some (cx !! x)) ->
  canDedupFileWithHardLink file (readableCandidate uid gid mode names cx) = true <->
  UID file = uid /\ GID file = gid /\ Mode file = mode /\
  Xattrs file = Some (withoutIgnored cx).
Proof.
  intros Hn. unfold canDedupFileWithHardLink, readableCandidate. simpl.
  rewrite (readXattrs_withoutIgnored cx names Hn).
  unfold canDedupMetadataWithHardLink, deepEqualXattrs. simpl.
  destruct (Z.eqb_spec (UID file) uid); simpl; [|split; [discriminate|tauto]].
  destruct (Z.eqb_spec (GID file) gid); simpl; [|split; [discriminate|tauto]].
  destruct (Z.eqb_spec (Mode file) mode); simpl; [|split; [discriminate|tauto]].
  destruct (bool_decide_reflect (Xattrs file = Some (withoutIgnored cx))); simpl;
    [tauto|split; [discriminate|tauto]].
Qed.

(** X18: where the TOC entry has an xattr map, a candidate whose
    metadata can be read is accepted for a hard link exactly when owner,
    group and mode are equal and the candidate's extended attributes
    other than the ignored ones are the attributes of the entry. *)
Lemma canDedupFileWithHardLink_compatible (file : FileMetadata) (uid gid mode : Z)
    (names : list string) (cx : gmap string string) :
  (forall x, x ∈ names <-> is_Some (cx !! x)) ->
  Xattrs file <> None ->
  canDedupFileWithHardLink file (readableCandidate uid gid mode names cx) = true <->
  metadataCompatible file uid gid mode cx.
Proof.
  intros Hn Hx. rewrite canDedupFileWithHardLink_iff by assumption.
  unfold metadataCompatible. destruct (Xattrs file) as [m|]; [|congruence]. simpl.
  split; intros (H1 & H2 & H3 & H4); repeat split; congruence.
Qed.

(** C7, on the failing input: the TOC entry has no xattrs and the
    candidate, same owner and mode, has none left once the ignored label
    is removed, so the two are compatible; yet the candidate is refused,
    because the nil map of the entry is not deeply equal to the empty
    map built for the candidate. *)
Theorem canDedupFileWithHardLink_refuses_nil_xattrs :
  metadataCompatible plainFileEntry 1000 1000 33188 selinuxLabel /\
  readXattrs (c_Lgetxattr labelledCandidate) ["security.selinux"%string] ∅ = Some ∅ /\
  canDedupFileWithHardLink plainFileEntry labelledCandidate = false.
Proof.
  split; [|split].
  - unfold metadataCompatible. repeat split.
  - reflexivity.
  - destruct (canDedupFileWithHardLink plainFileEntry labelledCandidate) eqn:E; [|reflexivity].
    apply canDedupFileWithHardLink_iff in E as (_ & _ & _ & Hx); [discriminate Hx|].
    intros x. unfold selinuxLabel. split.
    + intros Hx. apply list_elem_of_singleton in Hx as ->.
      rewrite lookup_singleton_eq. eauto.
    + intros [v Hv]. apply lookup_singleton_Some in Hv as [<- _]. left.
Qed.

(** ** The properties on concrete inputs *)

(** C1 on a file written by a hole and a data chunk, the buffer left
    dirty in between: the hash holds the six bytes of the file and, with
    the matching manifest digest, the close passes validation. *)
Lemma Close_validates_unless_trusted_witness :
  exists d,
    Written sparseFileEntry false false d
      (([] ++ callBytes sparseFileHole) ++ callBytes sparseFileData) /\
    f_data (file d) = [Byte.x00; Byte.x00; Byte.x00; Byte.x00; Byte.x61; Byte.x62] /\
    hash d = Some [Byte.x00; Byte.x00; Byte.x00; Byte.x00; Byte.x61; Byte.x62] /\
    @Close rawDigester okEnv d
      = Some (closeDeferred okEnv d (ErrIO <$> setFileAttrsErr okEnv)).
Proof.
  eexists.
  match goal with |- ?W /\ _ => assert (Hw : W) end.
  { eapply Written_append with (fuel := 0%nat) (c := sparseFileData)
      (copyBuffer := dirtyBuffer).
    - eapply Written_append with (fuel := 8%nat) (c := sparseFileHole)
        (copyBuffer := dirtyBuffer).
      + apply Written_open. reflexivity.
      + intros _. simpl. lia.
      + vm_compute. reflexivity.
    - intros [=].
    - vm_compute. reflexivity. }
  split; [exact Hw|].
  destruct (@Close_validates_unless_trusted rawDigester sparseFileEntry false false _ _
              okEnv Hw) as (Hd & Hv & _).
  split; [exact Hd|].
  destruct (Hv eq_refl) as (Hh & Hcmp & _). split; [exact Hh|].
  destruct (Hcmp (Digest sparseFileEntry) eq_refl) as [_ Hok].
  apply Hok. reflexivity.
Defined.

(** C2 on three chunks of one file: the first two are merged, the third
    is kept apart by its gap. *)
Lemma sameFileCoalescing_merges_iff_witness :
  sameFileCoalescing threeChunkParts = Some (sameFileCoalescingSpec threeChunkParts).
Proof.
  apply (sameFileCoalescing_merges_iff threeChunkParts).
  - discriminate.
  - repeat constructor; intros c [= <-]; eexists; reflexivity.
Defined.

(** On 64 remote parts and a source that rejects every request: the
    parts are merged down to at most 32 and requested again. *)
Lemma retrieveMissingFiles_bad_range_witness :
  exists merged,
    mergeMissingChunks (manyParts 64) 32 = Some merged /\
    Z.of_nat (length merged) <= 32 /\
    @retrieveMissingFiles nat unit rejectingSource (fun _ _ => None) 2 0%nat (manyParts 64)
    = @retrieveMissingFiles nat unit rejectingSource (fun _ _ => None) 1 1%nat merged.
Proof.
  destruct (@retrieveMissingFiles_bad_range nat unit rejectingSource (fun _ _ => None)
              1%nat 0%nat 1%nat (manyParts 64)) as (_ & Hretry & _).
  - apply Forall_forall. intros p Hp. unfold manyParts in Hp.
    apply list_elem_of_fmap in Hp as (i & -> & _).
    do 2 eexists. split; [reflexivity|]. eexists. reflexivity.
  - vm_compute. reflexivity.
  - reflexivity.
  - destruct Hretry as (merged & Hm & Hl & _ & Hr).
    + vm_compute. discriminate.
    + exists merged. split; [exact Hm|]. split; [exact Hl|exact Hr].
Defined.

(** C4 on a fresh file and a hole of 4096 bytes written through a dirty
    three-byte buffer. *)
Lemma hole_advances_file_and_hash_witness :
  exists d' b',
    appendCompressedStreamToFile 4096 fileTypeHole [] (freshFile zeroFileEntry false false)
      4096 dirtyBuffer = Appended d' b' /\
    f_pos (file d') = 4096 /\
    hash d' = Some (zeros 4096) /\
    @Close rawDigester okEnv d' = Some None.
Proof.
  destruct (@hole_advances_file_and_hash rawDigester (freshFile zeroFileEntry false false)
              4096 [] dirtyBuffer 4096)
    as (d' & b' & Hrun & Hpos & _ & _ & _ & Hfresh).
  - lia.
  - discriminate.
  - lia.
  - reflexivity.
  - exists d', b'. split; [exact Hrun|]. split; [exact Hpos|].
    destruct (Hfresh zeroFileEntry false okEnv eq_refl eq_refl) as (Hh & _ & _ & Hc).
    split; [exact Hh|exact Hc].
Defined.

(** C5 on a file stored as two chunks: the merge succeeds and its result
    holds no chunk entry. *)
Lemma mergeTocEntries_chunks_absorbed_witness :
  exists merged total,
    mergeTocEntries 200 fileTypeZstdChunked twoChunkFileEntries = Merged merged total /\
    Forall (fun e => Type_ e <> TypeChunk) merged.
Proof.
  destruct (mergeTocEntries_chunks_absorbed 200 fileTypeZstdChunked twoChunkFileEntries)
    as (_ & [Hok _] & Hres).
  destruct (Hok eq_refl) as (merged & total & Hm).
  exists merged, total. split; [exact Hm|].
  destruct (Hres merged total Hm) as [Hf _]. exact Hf.
Defined.

(** C6 on the same file: the second merge succeeds with the same total. *)
Lemma mergeTocEntries_again_witness :
  exists merged total merged',
    mergeTocEntries 200 fileTypeZstdChunked twoChunkFileEntries = Merged merged total /\
    mergeTocEntries 200 fileTypeZstdChunked merged = Merged merged' total /\
    map withoutChunks merged' = map withoutChunks merged.
Proof.
  eexists. eexists.
  assert (H1 : mergeTocEntries 200 fileTypeZstdChunked twoChunkFileEntries
               = Merged _ _) by (vm_compute; reflexivity).
  destruct (mergeTocEntries_again 200 fileTypeZstdChunked twoChunkFileEntries _ _ H1)
    as (merged' & H2 & H3 & _).
  exists merged'. split; [exact H1|]. split; [exact H2|exact H3].
Defined.

(** C8 on two parts four bytes apart and a target of one part: the two
    are merged, and one gap chunk of four bytes sits between the two
    file chunks. *)
Lemma costCoalescing_gap_chunks_when_positive_witness :
  exists out groups,
    costCoalescing gappedParts 1 = Some out /\
    map mp_Chunks out = [[fileChunk "a" 10 10; discardChunk 4; fileChunk "b" 10 10]] /\
    concat groups = gappedParts /\
    Forall2 (fun g p => g <> [] /\ mp_Chunks p = chunksOfRun g) groups out.
Proof.
  eexists.
  assert (H1 : costCoalescing gappedParts 1 = Some _) by (vm_compute; reflexivity).
  destruct (costCoalescing_gap_chunks_when_positive gappedParts 1 _ H1)
    as (groups & Hc & Hg).
  exists groups. split; [exact H1|]. split; [reflexivity|]. split; [exact Hc|exact Hg].
Defined.


(** C10 on the four interleaved parts with target 3: the two output
    parts stand for two runs of two input parts each. *)
Lemma costCoalescing_absorbed_parts_remote_witness :
  exists out groups,
    costCoalescing interleavedOriginParts 3 = Some out /\
    concat groups = interleavedOriginParts /\ Forall2 absorbs groups out.
Proof.
  eexists.
  assert (H1 : costCoalescing interleavedOriginParts 3 = Some _) by (vm_compute; reflexivity).
  destruct (costCoalescing_absorbed_parts_remote interleavedOriginParts 3 _ H1)
    as (groups & Hc & Hg).
  exists groups. split; [exact H1|]. split; [exact Hc|exact Hg].
Defined.

(** * Further properties of the code *)

(** ** Request planner *)

Lemma sameFileLoop_nonempty rest :
  forall front absorber prev out,
    sameFileLoop front absorber prev rest = Some out -> out <> [].
Proof.
  induction rest as [|cur rest IH]; intros front absorber prev out; simpl.
  - intros [= <-]. destruct front; discriminate.
  - destruct (sameFileCond _ _ _) as [[|]|]; simpl; [| |discriminate]; apply IH.
Qed.

Lemma costLoop_nonempty rest :
  forall T front prev orig, costLoop T front prev orig rest <> [].
Proof.
  intros T front prev orig H. apply (f_equal length) in H.
  rewrite costLoop_length in H. simpl in H. lia.
Qed.

(** X1: for a target of at least one, what [mergeMissingChunks] returns
    is not empty and has at most [target] parts. *)
Theorem mergeMissingChunks_reaches_target
    (missingParts out : list missingPart) (target : Z) :
  1 <= target ->
  Z.of_nat (length missingParts) < 2 ^ 63 ->
  mergeMissingChunks missingParts target = Some out ->
  out <> [] /\ Z.of_nat (length out) <= target.
Proof.
  intros Ht Hl Hm. split; [|eapply mergeMissingChunks_length; eassumption].
  unfold mergeMissingChunks in Hm.
  destruct (sameFileCoalescing missingParts) as [out1|] eqn:H1; simpl in Hm; [|discriminate].
  assert (Hne : out1 <> []).
  { destruct missingParts as [|p0 rest]; [discriminate|].
    simpl in H1. eapply sameFileLoop_nonempty. eassumption. }
  destruct (Z.of_nat (length out1) <=? target).
  - injection Hm as <-. assumption.
  - unfold costCoalescing in Hm. destruct out1 as [|q0 qs]; [discriminate|].
    destruct (pickTargetValue _ _ _); simpl in Hm; [|discriminate].
    injection Hm as <-. apply costLoop_nonempty.
Qed.

Lemma mergeMissingChunks_reaches_target_witness :
  exists out,
    mergeMissingChunks interleavedOriginParts 3 = Some out /\
    out <> [] /\ Z.of_nat (length out) <= 3.
Proof.
  eexists.
  assert (H1 : mergeMissingChunks interleavedOriginParts 3 = Some _)
    by (vm_compute; reflexivity).
  split; [exact H1|].
  apply (mergeMissingChunks_reaches_target interleavedOriginParts _ 3); [lia| |exact H1].
  vm_compute. reflexivity.
Defined.

(** X2: on a non-empty list of parts that each start with a file chunk,
    and for a target of at least one, [mergeMissingChunks] returns (no
    nil dereference, no index out of range), and the parts it returns
    start with a file chunk again. *)
Theorem mergeMissingChunks_no_panic (missingParts : list missingPart) (target : Z) :
  missingParts <> [] -> Forall headHasFile missingParts ->
  1 <= target -> Z.of_nat (length missingParts) < 2 ^ 63 ->
  exists out, mergeMissingChunks missingParts target = Some out /\ Forall headHasFile out.
Proof. apply mergeMissingChunks_total. Qed.

Lemma mergeMissingChunks_no_panic_witness :
  exists out, mergeMissingChunks interleavedOriginParts 3 = Some out /\ Forall headHasFile out.
Proof.
  apply (mergeMissingChunks_no_panic interleavedOriginParts 3).
  - discriminate.
  - repeat constructor; do 2 eexists; (split; [reflexivity|eexists; reflexivity]).
  - lia.
  - vm_compute. reflexivity.
Defined.

(** X3: with a single part and a target below one, the cost-driven pass
    reads [costs] at a negative index: [mergeMissingChunks] panics. *)
Theorem mergeMissingChunks_single_part_low_target (p : missingPart) (target : Z) :
  - 2 ^ 63 <= target <= 0 ->
  mergeMissingChunks [p] target = None.
Proof.
  intros Ht. unfold mergeMissingChunks. simpl.
  destruct (Z.leb_spec (Z.of_nat 1) target) as [H|H]; [simpl in H; lia|].
  unfold costCoalescing, pickTargetValue. cbn [adjacentCosts length].
  change (sortInts []) with (@nil Z). cbn [length].
  change (Z.of_nat 0) with 0. change (Z.of_nat 1) with 1.
  destruct (Z.leb_spec 0 (to_int (1 - target))).
  - reflexivity.
  - destruct (Z.ltb_spec (to_int (1 - target)) 0); [reflexivity|lia].
Qed.

Lemma mergeMissingChunks_single_part_low_target_witness :
  mergeMissingChunks [remotePart "a" 0 10 10] 0 = None.
Proof. apply mergeMissingChunks_single_part_low_target. lia. Defined.

Lemma costMerge_end (prev orig cur : missingPart) :
  partEnd prev = partEnd orig ->
  partEnd (costMerge (getGap orig cur) prev cur) = partEnd cur.
Proof.
  intros He. unfold partEnd in *. unfold costMerge, getGap. simpl.
  set (op := sc_Offset (mp_SourceChunk prev)) in *.
  set (lp := sc_Length (mp_SourceChunk prev)) in *.
  set (oo := sc_Offset (mp_SourceChunk orig)) in *.
  set (lo := sc_Length (mp_SourceChunk orig)) in *.
  set (oc := sc_Offset (mp_SourceChunk cur)).
  set (lc := sc_Length (mp_SourceChunk cur)).
  rewrite wrap64_to_int, wrap64_idemp.
  set (z := wrap64 (oc - wrap64 (oo + lo))).
  rewrite wrap64_add_r, Z.add_assoc, wrap64_add_r.
  replace (op + lp + (z + lc)) with (z + (op + lp + lc)) by lia.
  unfold z. rewrite wrap64_add_l.
  replace (oc - wrap64 (oo + lo) + (op + lp + lc))
    with (oc + (op + lp + lc) - wrap64 (oo + lo)) by lia.
  rewrite wrap64_sub_r.
  replace (oc + (op + lp + lc) - (oo + lo))
    with ((op + lp) + (oc + lc - (oo + lo))) by lia.
  rewrite <- wrap64_add_l, He, wrap64_add_l. f_equal. lia.
Qed.

Lemma spans_single p : spans [p] p.
Proof. exists p, p. repeat split; reflexivity. Qed.

Lemma spans_costMerge g prev orig cur :
  spans g prev -> last g = Some orig ->
  spans (g ++ [cur]) (costMerge (getGap orig cur) prev cur).
Proof.
  intros (first & final & Hh & Hl & Ho & He) Hlo.
  rewrite Hlo in Hl. injection Hl as <-.
  exists first, cur. split; [|split; [|split]].
  - destruct g; [discriminate|]. exact Hh.
  - apply last_snoc.
  - exact Ho.
  - apply costMerge_end. exact He.
Qed.

Lemma costLoop_spans rest :
  forall T front prev orig gs g,
    Forall2 spans gs front -> spans g prev -> last g = Some orig ->
    exists groups,
      concat groups = concat gs ++ g ++ rest /\
      Forall2 spans groups (costLoop T front prev orig rest).
Proof.
  induction rest as [|cur rest IH]; intros T front prev orig gs g Hf Hp Hl; simpl.
  - exists (gs ++ [g]). split.
    + rewrite concat_app. simpl. rewrite !app_nil_r. reflexivity.
    + apply Forall2_app; [assumption|]. constructor; [assumption|constructor].
  - destruct (T <? getCost orig cur).
    + destruct (IH T (front ++ [prev]) cur cur (gs ++ [g]) [cur]) as (groups & Hc & Hg).
      * apply Forall2_app; [assumption|]. constructor; [assumption|constructor].
      * apply spans_single.
      * reflexivity.
      * exists groups. split; [|assumption].
        rewrite Hc, concat_app. simpl. rewrite app_nil_r, <- app_assoc. reflexivity.
    + destruct (IH T front (costMerge (getGap orig cur) prev cur) cur gs (g ++ [cur]))
        as (groups & Hc & Hg).
      * assumption.
      * apply spans_costMerge; assumption.
      * apply last_snoc.
      * exists groups. split; [|assumption].
        rewrite Hc, <- app_assoc. reflexivity.
Qed.

(** X4: the cost-driven pass keeps the byte ranges together: the input
    splits into runs of consecutive parts, one per output part, and every
    output part starts at the offset of the first part of its run and
    ends at the end of the last one, whatever the gaps in between. *)
Theorem costCoalescing_spans_runs
    (missingParts : list missingPart) (target : Z) (out : list missingPart) :
  costCoalescing missingParts target = Some out ->
  exists groups : list (list missingPart),
    concat groups = missingParts /\ Forall2 spans groups out.
Proof.
  unfold costCoalescing. destruct missingParts as [|p0 rest]; [discriminate|].
  destruct (pickTargetValue _ _ _) as [T|]; simpl; [|discriminate].
  intros [= <-].
  destruct (costLoop_spans rest T [] p0 p0 [] [p0]) as (groups & Hc & Hg).
  - constructor.
  - apply spans_single.
  - reflexivity.
  - exists groups. split; assumption.
Qed.

Lemma costCoalescing_spans_runs_witness :
  exists out groups,
    costCoalescing interleavedOriginParts 3 = Some out /\
    concat groups = interleavedOriginParts /\ Forall2 spans groups out.
Proof.
  eexists.
  assert (H1 : costCoalescing interleavedOriginParts 3 = Some _) by (vm_compute; reflexivity).
  destruct (costCoalescing_spans_runs interleavedOriginParts 3 _ H1) as (groups & Hc & Hg).
  exists groups. split; [exact H1|]. split; [exact Hc|exact Hg].
Defined.

Lemma sameFileLoop_preserves (P : missingPart -> Prop) :
  (forall gap a b, P a -> P (sameFileMerge gap a b)) ->
  forall rest front absorber prev out,
    Forall P front -> P absorber -> Forall P rest ->
    sameFileLoop front absorber prev rest = Some out -> Forall P out.
Proof.
  intros HP. induction rest as [|cur rest IH]; intros front absorber prev out Hf Ha Hr; simpl.
  - intros [= <-]. apply Forall_app. split; [assumption|]. constructor; [assumption|constructor].
  - apply Forall_cons in Hr as [Hc Hr].
    destruct (sameFileCond _ _ _) as [[|]|]; simpl; [| |discriminate].
    + apply IH; [assumption|apply HP; assumption|assumption].
    + apply IH; [|assumption|assumption].
      apply Forall_app. split; [assumption|]. constructor; [assumption|constructor].
Qed.

Lemma sameFileMerge_singleHasFile gap a b :
  singleHasFile a -> singleHasFile (sameFileMerge gap a b).
Proof.
  unfold singleHasFile, sameFileMerge. simpl. intros H.
  destruct (mp_Chunks a) as [|ca rest]; [assumption|].
  destruct (mp_Chunks b) as [|cb ?]; [assumption|].
  intros c [= <- ->]. simpl. apply H. reflexivity.
Qed.

Lemma sameFileMergeableb_zeroGap a b :
  singleChunk a -> singleChunk b -> singleHasFile a -> singleHasFile b ->
  sameFileMergeableb a b = zeroGapSameFileRemote a b.
Proof.
  unfold singleChunk, singleHasFile, sameFileMergeableb, zeroGapSameFileRemote,
    sameTargetFileb, targetFiles.
  intros Ha Hb Hfa Hfb.
  destruct (mp_Chunks a) as [|ca [|? ?]]; try discriminate.
  destruct (mp_Chunks b) as [|cb [|? ?]]; try discriminate.
  destruct (Hfa ca eq_refl) as [fa Ea]. destruct (Hfb cb eq_refl) as [fb Eb].
  assert (Na : fileName ca = Some (Name fa)) by (unfold fileName; rewrite Ea; reflexivity).
  assert (Nb : fileName cb = Some (Name fb)) by (unfold fileName; rewrite Eb; reflexivity).
  cbn [omap list_omap]. rewrite Na, Nb. rewrite Ea, Eb. cbn [fmap option_fmap option_map].
  cbn [forallb].
  rewrite String.eqb_refl, !andb_true_r. cbn [andb].
  rewrite <- getGap_eqb.
  destruct (getGap a b =? 0); simpl; [|reflexivity].
  destruct (String.eqb_spec (Name fa) (Name fb)) as [E|E].
  - rewrite (bool_decide_eq_true_2 (Some (Name fa) = Some (Name fb))) by congruence.
    destruct (bool_decide (mp_OriginFile a = None)), (bool_decide (mp_OriginFile b = None)),
      (mp_Hole a), (mp_Hole b); reflexivity.
  - rewrite (bool_decide_eq_false_2 (Some (Name fa) = Some (Name fb))) by congruence.
    destruct (bool_decide (mp_OriginFile a = None)), (bool_decide (mp_OriginFile b = None)),
      (mp_Hole a), (mp_Hole b); reflexivity.
Qed.

Lemma sameFileSweep_fixed rest :
  forall front a,
    Forall (fun p => singleChunk p /\ singleHasFile p) (a :: rest) ->
    noAdjacent zeroGapSameFileRemote (a :: rest) = true ->
    sameFileSweep front a rest = front ++ a :: rest.
Proof.
  induction rest as [|b rest IH]; intros front a HP Hn; simpl; [reflexivity|].
  apply Forall_cons in HP as [[Hsa Hfa] HP]. pose proof HP as HP'.
  apply Forall_cons in HP' as [[Hsb Hfb] _].
  simpl in Hn. apply andb_true_iff in Hn as [Hab Hn]. apply negb_true_iff in Hab.
  rewrite (sameFileMergeableb_zeroGap a b Hsa Hsb Hfa Hfb), Hab.
  rewrite IH by assumption. rewrite <- app_assoc. reflexivity.
Qed.

(** X5: the same-file pass is idempotent on parts that carry one file
    chunk each: run on its own output, it merges nothing more. *)
Theorem sameFileCoalescing_idempotent (missingParts out : list missingPart) :
  Forall singleChunk missingParts -> Forall singleHasFile missingParts ->
  sameFileCoalescing missingParts = Some out ->
  sameFileCoalescing out = Some out.
Proof.
  intros Hs Hf Hc.
  destruct missingParts as [|p0 rest]; [discriminate|]. simpl in Hc.
  apply Forall_cons in Hs as [Hs0 Hsr]. apply Forall_cons in Hf as [Hf0 Hfr].
  assert (Hos : Forall singleChunk out).
  { eapply (sameFileLoop_preserves singleChunk);
      [intros; apply sameFileMerge_single; assumption|constructor|exact Hs0|exact Hsr|exact Hc]. }
  assert (Hof : Forall singleHasFile out).
  { eapply (sameFileLoop_preserves singleHasFile);
      [intros; apply sameFileMerge_singleHasFile; assumption|constructor|exact Hf0
      |exact Hfr|exact Hc]. }
  assert (Hinv : noAdjacent zeroGapSameFileRemote out = true).
  { apply (sameFileLoop_invariant rest [] p0 p0 out);
      [reflexivity|exact Hs0|exact Hsr|reflexivity|exact Hc]. }
  destruct out as [|q0 qs]; [exfalso; eapply sameFileLoop_nonempty; eauto|].
  simpl.
  pose proof Hof as Hof'. apply Forall_cons in Hof' as [Hq0 Hqs].
  rewrite (sameFileLoop_sweep qs [] q0 q0 eq_refl Hq0 Hqs).
  f_equal. apply (sameFileSweep_fixed qs [] q0); [|exact Hinv].
  apply Forall_forall. intros p Hp. rewrite Forall_forall in Hos, Hof. auto.
Qed.

Lemma sameFileCoalescing_idempotent_witness :
  exists out,
    sameFileCoalescing threeChunkParts = Some out /\ sameFileCoalescing out = Some out.
Proof.
  eexists.
  assert (H1 : sameFileCoalescing threeChunkParts = Some _) by (vm_compute; reflexivity).
  split; [exact H1|].
  apply (sameFileCoalescing_idempotent threeChunkParts _); [| |exact H1].
  - repeat constructor.
  - repeat constructor; intros c [= <-]; eexists; reflexivity.
Defined.

Lemma sumChunks_app size l k : sumChunks size (l ++ k) = sumChunks size l + sumChunks size k.
Proof.
  unfold sumChunks. rewrite fmap_app, concat_app, fmap_app.
  induction (size <$> concat (mp_Chunks <$> l)) as [|x xs IH]; simpl; [reflexivity|].
  rewrite IH. lia.
Qed.

Lemma sumChunks_cons size p l :
  sumChunks size (p :: l) = sumChunks size [p] + sumChunks size l.
Proof. apply (sumChunks_app size [p] l). Qed.

Lemma sameFileCond_single gap a b :
  sameFileCond gap a b = Some true ->
  exists ca cb, mp_Chunks a = [ca] /\ mp_Chunks b = [cb].
Proof.
  unfold sameFileCond.
  destruct (negb (gap =? 0)); [discriminate|].
  destruct (mp_OriginFile a); [discriminate|].
  destruct (mp_OriginFile b); [discriminate|].
  destruct (mp_Hole a); [discriminate|].
  destruct (mp_Hole b); [discriminate|].
  destruct (mp_Chunks a) as [|ca [|? ?]]; try discriminate.
  destruct (mp_Chunks b) as [|cb [|? ?]]; try discriminate.
  eauto.
Qed.

Lemma wrap64_merged_sum F a b R :
  wrap64 (F + (to_int (a + b) + R)) = wrap64 (F + (a + (b + R))).
Proof.
  replace (F + (to_int (a + b) + R)) with (to_int (a + b) + (F + R)) by lia.
  rewrite <- wrap64_add_l, wrap64_to_int, wrap64_add_l. f_equal. lia.
Qed.

Lemma sameFileLoop_sums rest :
  forall front absorber prev out,
    sameFileLoop front absorber prev rest = Some out ->
    wrap64 (sumCompressed out) = wrap64 (sumCompressed (front ++ absorber :: rest)) /\
    wrap64 (sumUncompressed out) = wrap64 (sumUncompressed (front ++ absorber :: rest)).
Proof.
  induction rest as [|cur rest IH]; intros front absorber prev out; simpl.
  - intros [= <-]. split; reflexivity.
  - destruct (sameFileCond (getGap prev cur) absorber cur) as [[|]|] eqn:Hc;
      simpl; [| |discriminate]; intros Hl; apply IH in Hl as [H1 H2].
    + apply sameFileCond_single in Hc as (ca & cb & Ha & Hb).
      rewrite H1, H2. unfold sumCompressed, sumUncompressed.
      rewrite !(sumChunks_app _ front), !(sumChunks_cons _ _ rest), (sumChunks_cons _ _ (cur :: rest)),
        !(sumChunks_cons _ cur rest).
      unfold sumChunks, sameFileMerge. simpl. rewrite Ha, Hb. simpl.
      rewrite !Z.add_0_r. split; apply wrap64_merged_sum.
    + rewrite H1, H2, <- !app_assoc. split; reflexivity.
Qed.

(** X6: the same-file pass neither loses nor invents bytes: the
    compressed and the uncompressed sizes of all chunks add up to the
    same totals before and after it (as 64-bit sums). *)
Theorem sameFileCoalescing_keeps_sizes (missingParts out : list missingPart) :
  sameFileCoalescing missingParts = Some out ->
  wrap64 (sumCompressed out) = wrap64 (sumCompressed missingParts) /\
  wrap64 (sumUncompressed out) = wrap64 (sumUncompressed missingParts).
Proof.
  destruct missingParts as [|p0 rest]; [discriminate|]. simpl.
  intros H. apply sameFileLoop_sums in H. exact H.
Qed.

Lemma sameFileCoalescing_keeps_sizes_witness :
  exists out,
    sameFileCoalescing threeChunkParts = Some out /\
    wrap64 (sumCompressed out) = wrap64 (sumCompressed threeChunkParts) /\
    wrap64 (sumUncompressed out) = wrap64 (sumUncompressed threeChunkParts).
Proof.
  eexists.
  assert (H1 : sameFileCoalescing threeChunkParts = Some _) by (vm_compute; reflexivity).
  split; [exact H1|]. exact (sameFileCoalescing_keeps_sizes threeChunkParts _ H1).
Defined.

(** ** Destination writer *)

Lemma hashHole_empty_buffer (fuel : nat) (h : list Byte.byte) (size : Z) :
  0 < size -> hashHole fuel h size [] = None.
Proof.
  intros Hs. unfold hashHole. change (Z.of_nat (length (@nil Byte.byte))) with 0.
  destruct (Z.ltb_spec size 0); [lia|].
  change (zeros 0 ++ drop (Z.to_nat 0) []) with (@nil Byte.byte).
  rewrite hashHoleLoop_empty_buffer by assumption. reflexivity.
Qed.

(** X7: with an empty copy buffer, writing a hole of positive size to a
    file that has a hash never ends: the loop of [hashHole] writes zero
    bytes per round, whatever the number of rounds allowed. *)
Theorem hole_with_empty_buffer_never_returns
    (fuel : nat) (d : destinationFile) (h decoded : list Byte.byte) (size : Z) :
  0 < size -> 0 <= f_pos (file d) -> hash d = Some h ->
  appendCompressedStreamToFile fuel fileTypeHole decoded d size [] = AppendNoFuel.
Proof.
  intros Hs Hp Hh. unfold appendCompressedStreamToFile. simpl.
  unfold appendHole, seekCur.
  destruct (Z.ltb_spec (f_pos (file d) + size) 0); [lia|].
  unfold ftruncate. simpl.
  destruct (Z.ltb_spec (f_pos (file d) + size) 0); [lia|].
  rewrite Hh, hashHole_empty_buffer by assumption. reflexivity.
Qed.

Lemma hole_with_empty_buffer_never_returns_witness :
  appendCompressedStreamToFile 1000 fileTypeHole [] (freshFile zeroFileEntry false false)
    4096 [] = AppendNoFuel.
Proof.
  apply (hole_with_empty_buffer_never_returns 1000 (freshFile zeroFileEntry false false) []).
  - lia.
  - simpl. lia.
  - reflexivity.
Defined.

(** X8: a hole of negative size that stays inside the file cuts the
    file short by that many bytes and leaves the hash as it was, so the
    hash no longer describes the content; one that would move the offset
    below zero fails with EINVAL. *)
Theorem negative_hole_truncates
    (fuel : nat) (d : destinationFile) (decoded copyBuffer : list Byte.byte) (size : Z) :
  size < 0 ->
  f_pos (file d) = Z.of_nat (length (f_data (file d))) ->
  (0 <= f_pos (file d) + size ->
     exists d',
       appendCompressedStreamToFile fuel fileTypeHole decoded d size copyBuffer
       = Appended d' copyBuffer /\
       f_data (file d') = take (Z.to_nat (f_pos (file d) + size)) (f_data (file d)) /\
       f_pos (file d') = f_pos (file d) + size /\
       hash d' = hash d) /\
  (f_pos (file d) + size < 0 ->
     appendCompressedStreamToFile fuel fileTypeHole decoded d size copyBuffer
     = AppendFailed (ErrIO "invalid argument")).
Proof.
  intros Hs Hp. unfold appendCompressedStreamToFile. simpl.
  unfold appendHole, seekCur. split; intros Hr.
  - destruct (Z.ltb_spec (f_pos (file d) + size) 0); [lia|].
    unfold ftruncate. simpl.
    destruct (Z.ltb_spec (f_pos (file d) + size) 0); [lia|].
    assert (Hrep : (Z.to_nat (f_pos (file d) + size) - length (f_data (file d)))%nat = 0%nat)
      by lia.
    rewrite Hrep. simpl. rewrite app_nil_r.
    destruct (hash d) as [h|] eqn:Hh.
    + unfold hashHole.
      assert (Hc : (if size <? Z.of_nat (length copyBuffer) then size
                    else Z.of_nat (length copyBuffer)) = size).
      { destruct (Z.ltb_spec size (Z.of_nat (length copyBuffer))); [reflexivity|lia]. }
      rewrite Hc. rewrite zeros_nonpos by lia.
      replace (Z.to_nat size) with 0%nat by lia. rewrite drop_0. simpl.
      assert (Hl : hashHoleLoop fuel h size copyBuffer = Some h).
      { destruct fuel; simpl; destruct (Z.leb_spec size 0); try reflexivity; lia. }
      rewrite Hl. simpl. eexists. split; [reflexivity|]. simpl. auto.
    + eexists. split; [reflexivity|]. simpl. auto.
  - destruct (Z.ltb_spec (f_pos (file d) + size) 0); [reflexivity|lia].
Qed.

Lemma negative_hole_truncates_witness :
  exists d',
    appendCompressedStreamToFile 0 fileTypeHole []
      (writeTo (freshFile sparseFileEntry false false) [Byte.x61; Byte.x62; Byte.x63])
      (-2) dirtyBuffer = Appended d' dirtyBuffer /\
    f_data (file d') = [Byte.x61] /\
    hash d' = Some [Byte.x61; Byte.x62; Byte.x63].
Proof.
  destruct (negative_hole_truncates 0
              (writeTo (freshFile sparseFileEntry false false) [Byte.x61; Byte.x62; Byte.x63])
              [] dirtyBuffer (-2)) as [Hin _].
  - lia.
  - reflexivity.
  - destruct Hin as (d' & Hrun & Hd & _ & Hh).
    + simpl. lia.
    + exists d'. split; [exact Hrun|]. split; [exact Hd|exact Hh].
Defined.

(** X9: [Close] returns nil exactly when the validation lets the file
    through and every system call it makes succeeds; the calls about
    fs-verity count only when the callback is set. *)
Theorem Close_succeeds_iff `{Digester} (env : closeEnv) (d : destinationFile)
    (h : list Byte.byte) :
  (skipValidation d = false -> hash d = Some h) ->
  Close env d = Some None <-> validationPasses d h /\ closeCallsSucceed env d.
Proof.
  intros Hh. unfold Close, validationPasses, closeCallsSucceed, Parse.
  destruct (skipValidation d) eqn:Hs; simpl.
  - unfold closeDeferred.
    destruct (recordFsVerity d), (reopenErr env), (setFileAttrsErr env), (fileCloseErr env),
      (recordFsVerityErr env); simpl; split;
      try (intros [= ]); try (intros (_ & ? & ? & ?)); try discriminate;
      try (repeat split; auto; intros; discriminate);
      try (destruct (H2 eq_refl); discriminate).
  - rewrite (Hh eq_refl).
    destruct (Validate (Digest (metadata d))) eqn:Hv; simpl.
    + destruct (String.eqb_spec (FromBytes h) (Digest (metadata d))) as [He|He]; simpl.
      * unfold closeDeferred.
        destruct (recordFsVerity d), (reopenErr env), (setFileAttrsErr env), (fileCloseErr env),
          (recordFsVerityErr env); simpl; split;
          try (intros [= ]); try (intros (_ & ? & ? & ?)); try discriminate;
          try (repeat split; auto; intros; discriminate);
          try (destruct (H2 eq_refl); discriminate).
      * rewrite closeDeferred_err. split; [discriminate|].
        intros ([[=]|[_ Hc]] & _). contradiction.
    + rewrite closeDeferred_err. split; [discriminate|].
      intros ([[=]|[Hc _]] & _). discriminate.
Qed.

Lemma Close_succeeds_iff_witness :
  @Close rawDigester okEnv
    (writeTo (freshFile sparseFileEntry false true)
       [Byte.x00; Byte.x00; Byte.x00; Byte.x00; Byte.x61; Byte.x62]) = Some None.
Proof.
  apply (@Close_succeeds_iff rawDigester okEnv _
           [Byte.x00; Byte.x00; Byte.x00; Byte.x00; Byte.x61; Byte.x62]).
  - intros _. reflexivity.
  - split.
    + right. split; reflexivity.
    + repeat split; reflexivity.
Defined.

(** ** Recording fs-verity digests *)

(** X10: [recordFsVerity] touches the map of digests at no other path,
    and leaves it as it was whenever it returns an error or fs-verity is
    disabled. *)
Theorem recordFsVerity_changes_only_path (useFsVerity : DifferFsVerity)
    (digests : gmap string string) (path : string)
    (enable : option verityError) (measure : string + verityError) :
  let '(digests', err) := differRecordFsVerity useFsVerity digests path enable measure in
  (forall other, other <> path -> digests' !! other = digests !! other) /\
  (err <> None -> digests' = digests) /\
  (useFsVerity = DifferFsVerityDisabled -> digests' = digests /\ err = None).
Proof.
  unfold differRecordFsVerity.
  destruct useFsVerity, enable as [[| |msg]|], measure as [verity|e]; simpl;
    repeat split; try congruence; try discriminate;
    intros other Hne; try reflexivity; apply lookup_insert_ne; congruence.
Qed.

(** X11: when fs-verity is required, [recordFsVerity] returns nil only
    after the measured digest has been stored under the path; every
    failure to enable or to measure is returned. *)
Theorem recordFsVerity_required (digests digests' : gmap string string) (path : string)
    (enable : option verityError) (measure : string + verityError) :
  differRecordFsVerity DifferFsVerityRequired digests path enable measure = (digests', None) ->
  enable = None /\ exists verity, measure = inl verity /\ digests' !! path = Some verity.
Proof.
  unfold differRecordFsVerity.
  destruct enable as [e|]; [discriminate|].
  destruct measure as [verity|e]; [|discriminate].
  intros [= <-]. split; [reflexivity|]. exists verity. split; [reflexivity|].
  apply lookup_insert_eq.
Qed.

Lemma recordFsVerity_required_witness :
  exists verity,
    (inl "sha256:abc" : string + verityError) = inl verity /\
    (<["etc/motd" := "sha256:abc"]> (∅ : gmap string string)) !! "etc/motd" = Some verity.
Proof.
  destruct (recordFsVerity_required ∅ (<["etc/motd" := "sha256:abc"]> ∅) "etc/motd" None
              (inl "sha256:abc") eq_refl) as (_ & verity & Hm & Hl).
  exists verity. split; [exact Hm|exact Hl].
Defined.

(** X12: when fs-verity is used only if available, the error of
    [EnableVerity] is never what [recordFsVerity] returns: an error that
    comes back is the error of the measurement, made after a successful
    or a failed attempt to enable other than ENOTSUP and ENOTTY. *)
Theorem recordFsVerity_if_available_errors (digests digests' : gmap string string)
    (path : string) (enable : option verityError) (measure : string + verityError)
    (err : verityError) :
  differRecordFsVerity DifferFsVerityEnabled digests path enable measure
  = (digests', Some err) ->
  measure = inr err /\ enable <> Some ENOTSUP /\ enable <> Some ENOTTY /\ digests' = digests.
Proof.
  unfold differRecordFsVerity.
  destruct enable as [[| |msg]|], measure as [verity|e]; simpl; intros [= ]; subst;
    repeat split; discriminate.
Qed.

Lemma recordFsVerity_if_available_errors_witness :
  (inr (EVerityOther "no key") : string + verityError) = inr (EVerityOther "no key") /\
  Some (EVerityOther "EPERM") <> Some ENOTSUP.
Proof.
  destruct (recordFsVerity_if_available_errors ∅ ∅ "etc/motd" (Some (EVerityOther "EPERM"))
              (inr (EVerityOther "no key")) (EVerityOther "no key") eq_refl)
    as (Hm & Hn & _).
  split; [exact Hm|exact Hn].
Defined.

(** ** Entry merger *)

Lemma mergedSize_chunks (fileType : Z) (run rest : list FileMetadata) :
  forallb isChunk run = true ->
  mergedSize fileType (run ++ rest) = mergedSize fileType rest.
Proof.
  induction run as [|c run IH]; simpl; [reflexivity|].
  intros H. apply andb_true_iff in H as [Hc Hr]. rewrite Hc. simpl.
  destruct (mustSkipFile fileType c); apply IH; assumption.
Qed.

Lemma MergesTo_length (fileType : Z) (entries l : list FileMetadata) :
  MergesTo fileType entries l -> length l = mergedSize fileType entries.
Proof.
  induction 1 as [|e rest l Hs Hm IH|e rest l Hs Hc Hr Hm IH|r run rest l Hs Hr Hrun Hn Hm IH];
    simpl.
  - reflexivity.
  - rewrite Hs. assumption.
  - rewrite Hs, Hc. simpl. rewrite IH. reflexivity.
  - rewrite Hs. assert (Hc : isChunk r = false).
    { unfold isChunk, isReg in *. apply String.eqb_eq in Hr. rewrite Hr. reflexivity. }
    rewrite Hc. simpl. rewrite mergedSize_chunks by assumption. rewrite IH. reflexivity.
Qed.

Lemma fixEndOffsets_length (tocOffset : Z) (l : list FileMetadata) :
  length (fixEndOffsets tocOffset l).1 = length l.
Proof.
  induction l as [|e rest IH]; simpl; [reflexivity|].
  destruct (fixEndOffsets tocOffset rest) as [fixed lastOffset]. simpl in *. rewrite IH.
  reflexivity.
Qed.

(** X13: [mergeTocEntries] never indexes outside the slice it allocates
    from its first count, and fills it completely: it does not panic, and
    a successful result has exactly as many entries as the input has
    entries that are neither dropped nor of chunk type. *)
Theorem mergeTocEntries_fills_slice (tocOffset fileType : Z) (entries : list FileMetadata) :
  mergeTocEntries tocOffset fileType entries <> MergePanic /\
  forall merged total,
    mergeTocEntries tocOffset fileType entries = Merged merged total ->
    length merged = mergedSize fileType entries /\
    length merged = length (filter (fun e => keptEntry fileType e = true) entries).
Proof.
  rewrite mergeTocEntries_list.
  destruct (mergeLoopList_orphans fileType (length entries) entries false 0
              (Nat.le_refl _) (or_introl eq_refl)) as [He Hok].
  split.
  - destruct (orphanChunks fileType false entries) eqn:Eo.
    + destruct (Hok eq_refl) as (l & t & ->). discriminate.
    + rewrite He by discriminate. discriminate.
  - intros merged total.
    destruct (mergeLoopList fileType 0 entries 0) as [l t| |] eqn:Hl; try discriminate.
    intros [= <- <-].
    apply (mergeLoopList_MergesTo fileType (length entries)) in Hl as [Hm _]; [|lia].
    rewrite fixEndOffsets_length, (MergesTo_length _ _ _ Hm).
    split; [reflexivity|].
    clear. induction entries as [|e rest IH]; simpl; [reflexivity|].
    unfold keptEntry at 1.
    destruct (mustSkipFile fileType e) eqn:Es; simpl.
    + rewrite filter_cons_False; [exact IH|]. unfold keptEntry. rewrite Es. discriminate.
    + destruct (isChunk e) eqn:Ec; simpl.
      * rewrite filter_cons_False; [exact IH|]. unfold keptEntry. rewrite Es, Ec. discriminate.
      * rewrite filter_cons_True; [simpl; rewrite IH; reflexivity|].
        unfold keptEntry. rewrite Es, Ec. reflexivity.
Qed.

Lemma mergeTocEntries_fills_slice_witness :
  exists merged total,
    mergeTocEntries 200 fileTypeZstdChunked twoChunkFileEntries = Merged merged total /\
    length merged = mergedSize fileTypeZstdChunked twoChunkFileEntries.
Proof.
  do 2 eexists.
  assert (H1 : mergeTocEntries 200 fileTypeZstdChunked twoChunkFileEntries = Merged _ _)
    by (vm_compute; reflexivity).
  split; [exact H1|].
  destruct (mergeTocEntries_fills_slice 200 fileTypeZstdChunked twoChunkFileEntries) as [_ H].
  destruct (H _ _ H1) as [Hl _]. exact Hl.
Defined.

(** X14: the total that [mergeTocEntries] returns is the 64-bit sum of
    the [Size] fields of the merged entries: the sizes of dropped entries
    and of continuation chunks are not counted. *)
Theorem mergeTocEntries_total (tocOffset fileType : Z)
    (entries merged : list FileMetadata) (total : Z) :
  mergeTocEntries tocOffset fileType entries = Merged merged total ->
  total = sumSizes merged 0.
Proof.
  rewrite mergeTocEntries_list.
  destruct (mergeLoopList fileType 0 entries 0) as [l t| |] eqn:Hl; try discriminate.
  intros [= <- <-].
  apply (mergeLoopList_MergesTo fileType (length entries)) in Hl as [_ Ht]; [|lia].
  rewrite Ht. symmetry. apply sumSizes_map.
  destruct (fixEndOffsets_types tocOffset l) as (_ & _ & Hs). exact Hs.
Qed.

Lemma mergeTocEntries_total_witness :
  exists merged total,
    mergeTocEntries 200 fileTypeZstdChunked twoChunkFileEntries = Merged merged total /\
    total = sumSizes merged 0.
Proof.
  do 2 eexists.
  assert (H1 : mergeTocEntries 200 fileTypeZstdChunked twoChunkFileEntries = Merged _ _)
    by (vm_compute; reflexivity).
  split; [exact H1|].
  exact (mergeTocEntries_total 200 fileTypeZstdChunked twoChunkFileEntries _ _ H1).
Defined.

Lemma fixChunks_tiles (endOffset : Z) (chunks : list FileMetadata) :
  tiles endOffset (fixChunks endOffset chunks).1 /\
  map Offset (fixChunks endOffset chunks).1 = map Offset chunks /\
  (fixChunks endOffset chunks).2 = match chunks with
                                   | [] => endOffset
                                   | c :: _ => Offset c
                                   end.
Proof.
  induction chunks as [|c rest IH]; simpl; [auto|].
  destruct (fixChunks endOffset rest) as [fixed lastChunkOffset] eqn:Ef. simpl in *.
  destruct IH as (Ht & Hm & Hl). subst lastChunkOffset.
  repeat split; [| assumption | rewrite Hm; reflexivity].
  destruct rest as [|c' rest']; simpl in Ef.
  - injection Ef as <-. reflexivity.
  - destruct (fixChunks endOffset rest') as [fixed' l']. injection Ef as <-. reflexivity.
Qed.

Lemma MergesTo_first_chunk (fileType : Z) (entries l : list FileMetadata) :
  MergesTo fileType entries l ->
  Forall (fun e => isReg e = true ->
                   exists c rest, Chunks e = c :: rest /\ Offset c = Offset e) l.
Proof.
  induction 1 as [|e rest l Hs Hm IH|e rest l Hs Hc Hr Hm IH|r run rest l Hs Hr Hrun Hn Hm IH].
  - constructor.
  - assumption.
  - constructor; [|assumption]. rewrite Hr. discriminate.
  - constructor; [|assumption]. intros _. exists r, run. split; reflexivity.
Qed.

(** X15: in a merged list, the chunks of every entry tile its byte range
    in the blob: each chunk ends where the next one starts, the last one
    ends at the end offset of the entry, the size of each chunk is the
    length of its range, and the first chunk of a regular file starts at
    the offset of the file. *)
Theorem mergeTocEntries_chunks_tile (tocOffset fileType : Z)
    (entries merged : list FileMetadata) (total : Z) :
  mergeTocEntries tocOffset fileType entries = Merged merged total ->
  Forall (fun e =>
            tiles (EndOffset e) (Chunks e) /\
            (isReg e = true ->
             exists c rest, Chunks e = c :: rest /\ Offset c = Offset e)) merged.
Proof.
  rewrite mergeTocEntries_list.
  destruct (mergeLoopList fileType 0 entries 0) as [l t| |] eqn:Hl; try discriminate.
  intros [= <- <-].
  apply (mergeLoopList_MergesTo fileType (length entries)) in Hl as [Hm _]; [|lia].
  apply MergesTo_first_chunk in Hm. clear entries.
  induction l as [|e rest IH]; simpl; [constructor|].
  apply Forall_cons in Hm as [He Hrest]. specialize (IH Hrest).
  destruct (fixEndOffsets tocOffset rest) as [fixed lastOffset]. simpl in *.
  constructor; [|assumption]. simpl. split.
  - apply fixChunks_tiles.
  - intros Hr. destruct (He Hr) as (c & cs & Hc & Ho). rewrite Hc. simpl.
    destruct (fixChunks _ cs) as [fixed' l']. simpl. eauto.
Qed.

Lemma mergeTocEntries_chunks_tile_witness :
  exists merged total,
    mergeTocEntries 200 fileTypeZstdChunked twoChunkFileEntries = Merged merged total /\
    Forall (fun e => tiles (EndOffset e) (Chunks e)) merged.
Proof.
  do 2 eexists.
  assert (H1 : mergeTocEntries 200 fileTypeZstdChunked twoChunkFileEntries = Merged _ _)
    by (vm_compute; reflexivity).
  split; [exact H1|].
  eapply Forall_impl;
    [exact (mergeTocEntries_chunks_tile 200 fileTypeZstdChunked twoChunkFileEntries _ _ H1)|].
  intros e [He _]. exact He.
Defined.

Lemma filter_kept_chunks (fileType : Z) (run rest : list FileMetadata) :
  forallb isChunk run = true ->
  filter (fun e => keptEntry fileType e = true) (run ++ rest)
  = filter (fun e => keptEntry fileType e = true) rest.
Proof.
  induction run as [|c run IH]; simpl; [reflexivity|].
  intros H. apply andb_true_iff in H as [Hc Hr].
  rewrite filter_cons_False; [exact (IH Hr)|].
  unfold keptEntry. rewrite Hc, andb_false_r. discriminate.
Qed.

Lemma MergesTo_asListed (fileType : Z) (entries l : list FileMetadata) :
  MergesTo fileType entries l ->
  map asListed l = map asListed (filter (fun e => keptEntry fileType e = true) entries).
Proof.
  induction 1 as [|e rest l Hs Hm IH|e rest l Hs Hc Hr Hm IH|r run rest l Hs Hr Hrun Hn Hm IH].
  - reflexivity.
  - rewrite filter_cons_False; [exact IH|]. unfold keptEntry. rewrite Hs. discriminate.
  - rewrite filter_cons_True by (unfold keptEntry; rewrite Hs, Hc; reflexivity).
    simpl. rewrite IH. reflexivity.
  - assert (Hc : isChunk r = false).
    { unfold isChunk, isReg in *. apply String.eqb_eq in Hr. rewrite Hr. reflexivity. }
    rewrite filter_cons_True by (unfold keptEntry; rewrite Hs, Hc; reflexivity).
    rewrite filter_kept_chunks by assumption.
    simpl. rewrite IH. reflexivity.
Qed.

Lemma fixEndOffsets_asListed (tocOffset : Z) (l : list FileMetadata) :
  map asListed (fixEndOffsets tocOffset l).1 = map asListed l.
Proof.
  induction l as [|e rest IH]; simpl; [reflexivity|].
  destruct (fixEndOffsets tocOffset rest) as [fixed lastOffset]. simpl in *. rewrite IH.
  reflexivity.
Qed.

(** X16: [mergeTocEntries] keeps the order of the table of contents and
    rewrites only two fields: the merged entries are, in the order of the
    input, the entries that are neither dropped nor of chunk type, each
    with all its fields but [Chunks] and [EndOffset] as listed. *)
Theorem mergeTocEntries_keeps_entries (tocOffset fileType : Z)
    (entries merged : list FileMetadata) (total : Z) :
  mergeTocEntries tocOffset fileType entries = Merged merged total ->
  map asListed merged
  = map asListed (filter (fun e => keptEntry fileType e = true) entries).
Proof.
  rewrite mergeTocEntries_list.
  destruct (mergeLoopList fileType 0 entries 0) as [l t| |] eqn:Hl; try discriminate.
  intros [= <- <-].
  apply (mergeLoopList_MergesTo fileType (length entries)) in Hl as [Hm _]; [|lia].
  rewrite fixEndOffsets_asListed. apply (MergesTo_asListed _ _ _ Hm).
Qed.

Lemma mergeTocEntries_keeps_entries_witness :
  exists merged total,
    mergeTocEntries 200 fileTypeZstdChunked twoChunkFileEntries = Merged merged total /\
    map asListed merged
    = map asListed (filter (fun e => keptEntry fileTypeZstdChunked e = true)
                      twoChunkFileEntries).
Proof.
  do 2 eexists.
  assert (H1 : mergeTocEntries 200 fileTypeZstdChunked twoChunkFileEntries = Merged _ _)
    by (vm_compute; reflexivity).
  split; [exact H1|].
  exact (mergeTocEntries_keeps_entries 200 fileTypeZstdChunked twoChunkFileEntries _ _ H1).
Defined.

Lemma fixEndOffsets_last (tocOffset : Z) (l : list FileMetadata) :
  (fixEndOffsets tocOffset l).2 = firstOffset tocOffset l.
Proof.
  induction l as [|e rest IH]; simpl; [reflexivity|].
  destruct (fixEndOffsets tocOffset rest) as [fixed lastOffset]. simpl in *.
  rewrite IH. reflexivity.
Qed.

Lemma firstOffset_fixed (tocOffset t : Z) (l : list FileMetadata) :
  firstOffset t (fixEndOffsets tocOffset l).1 = firstOffset t l.
Proof.
  induction l as [|e rest IH]; simpl; [reflexivity|].
  destruct (fixEndOffsets tocOffset rest) as [fixed lastOffset]. simpl in *.
  rewrite IH. reflexivity.
Qed.

Lemma fixEndOffsets_drop (tocOffset : Z) (l : list FileMetadata) (i : nat) :
  firstOffset tocOffset (drop i (fixEndOffsets tocOffset l).1)
  = firstOffset tocOffset (drop i l).
Proof.
  revert i. induction l as [|e rest IH]; intros i; simpl.
  - rewrite !drop_nil. reflexivity.
  - destruct (fixEndOffsets tocOffset rest) as [fixed lastOffset] eqn:Ef. simpl in *.
    destruct i as [|i]; simpl.
    + pose proof (firstOffset_fixed tocOffset tocOffset rest) as Hf.
      rewrite Ef in Hf. simpl in Hf. rewrite Hf. reflexivity.
    + apply IH.
Qed.

Lemma fixEndOffsets_end (tocOffset : Z) (l : list FileMetadata) :
  forall (i : nat) (e : FileMetadata),
    l !! i = Some e ->
    exists e', (fixEndOffsets tocOffset l).1 !! i = Some e' /\
      EndOffset e' = if EndOffset e =? 0
                     then firstOffset tocOffset (drop (S i) l)
                     else EndOffset e.
Proof.
  induction l as [|x rest IH]; intros i e Hi; [discriminate|].
  simpl. pose proof (fixEndOffsets_last tocOffset rest) as Hlast.
  destruct (fixEndOffsets tocOffset rest) as [fixed lastOffset] eqn:Ef. simpl in *.
  destruct i as [|i]; simpl in *.
  - injection Hi as ->. eexists. split; [reflexivity|]. simpl.
    rewrite drop_0, Hlast. reflexivity.
  - apply IH. assumption.
Qed.

Lemma MergesTo_no_end (fileType : Z) (entries l : list FileMetadata) :
  MergesTo fileType entries l ->
  Forall (fun e => EndOffset e = 0) entries ->
  Forall (fun e => EndOffset e = 0) l.
Proof.
  induction 1 as [|e rest l Hs Hm IH|e rest l Hs Hc Hr Hm IH|r run rest l Hs Hr Hrun Hn Hm IH];
    intros Hall.
  - constructor.
  - apply Forall_cons in Hall as [_ Hall]. auto.
  - apply Forall_cons in Hall as [He Hall]. constructor; auto.
  - change (r :: run ++ rest) with ((r :: run) ++ rest) in Hall.
    apply Forall_app in Hall as [Hrun' Hrest].
    constructor; [|auto]. simpl.
    assert (Hin : List.last (r :: run) r ∈ r :: run).
    { clear. generalize r at 1 3. induction run as [|c run IH]; intros x.
      - simpl. apply list_elem_of_here.
      - change (List.last (x :: c :: run) r) with (List.last (c :: run) r).
        apply list_elem_of_further. apply IH. }
    rewrite Forall_forall in Hrun'. apply Hrun'. exact Hin.
Qed.

(** X17: for a table of contents that stores no end offsets (stargz and
    eStargz), [mergeTocEntries] makes every merged entry end at the
    offset of the next merged entry that has a non-zero offset, and at
    the offset of the table of contents when there is none. *)
Theorem mergeTocEntries_computes_end_offsets (tocOffset fileType : Z)
    (entries merged : list FileMetadata) (total : Z) :
  mergeTocEntries tocOffset fileType entries = Merged merged total ->
  Forall (fun e => EndOffset e = 0) entries ->
  forall (i : nat) (e : FileMetadata),
    merged !! i = Some e ->
    EndOffset e = firstOffset tocOffset (drop (S i) merged).
Proof.
  rewrite mergeTocEntries_list.
  destruct (mergeLoopList fileType 0 entries 0) as [l t| |] eqn:Hl; try discriminate.
  intros [= <- <-] Hall i e Hi.
  apply (mergeLoopList_MergesTo fileType (length entries)) in Hl as [Hm _]; [|lia].
  pose proof (MergesTo_no_end _ _ _ Hm Hall) as Hzero.
  assert (Hlt : (i < length l)%nat).
  { apply lookup_lt_Some in Hi. rewrite fixEndOffsets_length in Hi. exact Hi. }
  destruct (lookup_lt_is_Some_2 l i Hlt) as [x Hx].
  destruct (fixEndOffsets_end tocOffset l i x Hx) as (e' & He' & Hend).
  rewrite Hi in He'. injection He' as <-.
  rewrite Forall_forall in Hzero.
  rewrite (Hzero x) in Hend by (eapply list_elem_of_lookup_2; exact Hx).
  simpl in Hend. rewrite Hend. symmetry. apply fixEndOffsets_drop.
Qed.

Lemma mergeTocEntries_computes_end_offsets_witness :
  exists merged total e,
    mergeTocEntries 200 fileTypeEstargz twoChunkFileEntries = Merged merged total /\
    Forall (fun e => EndOffset e = 0) twoChunkFileEntries /\
    merged !! 0%nat = Some e /\
    EndOffset e = firstOffset 200 (drop 1 merged).
Proof.
  do 3 eexists.
  assert (H1 : mergeTocEntries 200 fileTypeEstargz twoChunkFileEntries = Merged _ _)
    by (vm_compute; reflexivity).
  assert (H2 : Forall (fun e => EndOffset e = 0) twoChunkFileEntries)
    by (repeat constructor).
  split; [exact H1|]. split; [exact H2|]. split; [reflexivity|].
  exact (mergeTocEntries_computes_end_offsets 200 fileTypeEstargz twoChunkFileEntries
           _ _ H1 H2 0%nat _ eq_refl).
Defined.

(** ** Dedup probe *)

Lemma canDedupFileWithHardLink_compatible_witness :
  canDedupFileWithHardLink xattrFileEntry
    (readableCandidate 1000 1000 33261 ["user.origin"%string] userXattrs) = true <->
  metadataCompatible xattrFileEntry 1000 1000 33261 userXattrs.
Proof.
  apply (canDedupFileWithHardLink_compatible xattrFileEntry 1000 1000 33261
           ["user.origin"%string] userXattrs).
  - intros x. unfold userXattrs. rewrite list_elem_of_singleton.
    split.
    + intros ->. rewrite lookup_singleton_eq. eauto.
    + intros [v Hv]. apply lookup_singleton_Some in Hv as [<- _]. reflexivity.
  - discriminate.
Defined.

(** X19: a TOC entry without extended attributes is never deduplicated
    with a hard link, whatever the candidate file is: the attribute map
    read from the candidate is never nil, and [reflect.DeepEqual] tells a
    nil map from every other map. *)
Theorem canDedupFileWithHardLink_nil_xattrs (file : FileMetadata) (cand : candidateFile) :
  Xattrs file = None ->
  canDedupFileWithHardLink file cand = false.
Proof.
  intros Hx. unfold canDedupFileWithHardLink.
  destruct (c_Sys cand) as [st|]; [|reflexivity].
  destruct (c_Llistxattr cand) as [names|]; [|reflexivity].
  destruct (readXattrs (c_Lgetxattr cand) names ∅) as [xattrs|]; [|reflexivity].
  unfold canDedupMetadataWithHardLink, deepEqualXattrs. simpl.
  rewrite Hx.
  destruct (negb (UID file =? st_Uid st)); [reflexivity|].
  destruct (negb (GID file =? st_Gid st)); [reflexivity|].
  destruct (negb (Mode file =? st_Mode st)); [reflexivity|].
  rewrite (bool_decide_eq_false_2 (None = Some xattrs)) by discriminate. reflexivity.
Qed.

Lemma canDedupFileWithHardLink_nil_xattrs_witness :
  canDedupFileWithHardLink plainFileEntry
    (readableCandidate 1000 1000 33188 [] ∅) = false.
Proof.
  apply (canDedupFileWithHardLink_nil_xattrs plainFileEntry). reflexivity.
Defined.

Lemma readXattrs_error (Lgetxattr : string -> option string) (x : string)
    (names : list string) :
  x ∈ names -> Lgetxattr x = None ->
  forall xattrs, readXattrs Lgetxattr names xattrs = None.
Proof.
  intros Hin Hx. induction names as [|y rest IH]; intros xattrs.
  - apply elem_of_nil in Hin. contradiction.
  - simpl. apply elem_of_cons in Hin as [<-|Hin].
    + rewrite Hx. reflexivity.
    + destruct (Lgetxattr y); [|reflexivity].
      destruct (bool_decide (y ∈ xattrsToIgnore)); apply IH; assumption.
Qed.

(** X20: a candidate one of whose listed extended attributes cannot be
    read is refused, also when the attribute is one of the ignored ones:
    the value is read before the name is looked up in [xattrsToIgnore]. *)
Theorem canDedupFileWithHardLink_unreadable_xattr (file : FileMetadata)
    (cand : candidateFile) (names : list string) (x : string) :
  c_Llistxattr cand = Some names ->
  x ∈ names ->
  c_Lgetxattr cand x = None ->
  canDedupFileWithHardLink file cand = false.
Proof.
  intros Hl Hin Hx. unfold canDedupFileWithHardLink.
  destruct (c_Sys cand) as [st|]; [|reflexivity].
  rewrite Hl, (readXattrs_error _ x names Hin Hx). reflexivity.
Qed.

Lemma canDedupFileWithHardLink_unreadable_xattr_witness :
  "security.selinux"%string ∈ xattrsToIgnore /\
  canDedupFileWithHardLink xattrFileEntry unreadableLabelCandidate = false.
Proof.
  split; [unfold xattrsToIgnore; apply elem_of_singleton; reflexivity|].
  apply (canDedupFileWithHardLink_unreadable_xattr xattrFileEntry unreadableLabelCandidate
           ["security.selinux"%string; "user.origin"%string] "security.selinux"%string).
  - reflexivity.
  - apply list_elem_of_here.
  - reflexivity.
Defined.

(** ** ID remapping *)

Lemma remapLoop_chown {IDMap : Type} (ids : IDPair)
    (toContainer : IDPair -> Z * Z * option error) (manifest : list FileMetadata) :
  remapLoop (Some ids) toContainer manifest
  = (map (fun e => withIDs e (ip_UID ids) (ip_GID ids)) manifest, None).
Proof.
  induction manifest as [|e rest IH]; simpl; [reflexivity|].
  rewrite IH. reflexivity.
Qed.

(** X21: with [ChownOpts] set, [maybeDoIDRemap] gives every entry the
    requested owner and never fails when there are GID maps; without GID
    maps it leaves the manifest as it is, whatever [ChownOpts] and the
    UID maps are, since the test reads
    [(ChownOpts == nil && no UID maps) || no GID maps]. *)
Theorem maybeDoIDRemap_chown {IDMap : Type} `{IDMappings IDMap}
    (manifest : list FileMetadata) (options : TarOptions IDMap) (ids : IDPair) :
  ChownOpts options = Some ids ->
  maybeDoIDRemap manifest options
  = (match GIDMaps options with
     | [] => manifest
     | _ :: _ => map (fun e => withIDs e (ip_UID ids) (ip_GID ids)) manifest
     end, None).
Proof.
  intros Hc. unfold maybeDoIDRemap. rewrite Hc. simpl.
  destruct (GIDMaps options) as [|g gs]; simpl; [reflexivity|].
  apply (remapLoop_chown (IDMap := IDMap)).
Qed.

Lemma maybeDoIDRemap_chown_witness :
  (maybeDoIDRemap (H := shiftMappings) threeOwners
     {| ChownOpts := Some (mkIDPair 0 0); UIDMaps := [(1000, 10)]; GIDMaps := [] |}).1
  = threeOwners /\
  map UID (maybeDoIDRemap (H := shiftMappings) threeOwners
     {| ChownOpts := Some (mkIDPair 0 0); UIDMaps := []; GIDMaps := [(1000, 10)] |}).1
  = [0; 0; 0].
Proof.
  split.
  - rewrite (maybeDoIDRemap_chown (H := shiftMappings) threeOwners
               {| ChownOpts := Some (mkIDPair 0 0); UIDMaps := [(1000, 10)]; GIDMaps := [] |}
               (mkIDPair 0 0) eq_refl).
    reflexivity.
  - rewrite (maybeDoIDRemap_chown (H := shiftMappings) threeOwners
               {| ChownOpts := Some (mkIDPair 0 0); UIDMaps := []; GIDMaps := [(1000, 10)] |}
               (mkIDPair 0 0) eq_refl).
    reflexivity.
Defined.

Lemma remapLoop_frame (chownOpts : option IDPair)
    (toContainer : IDPair -> Z * Z * option error) (manifest : list FileMetadata) :
  map withoutIDs (remapLoop chownOpts toContainer manifest).1 = map withoutIDs manifest.
Proof.
  induction manifest as [|e rest IH]; simpl; [reflexivity|].
  destruct chownOpts as [ids|].
  - destruct (remapLoop (Some ids) toContainer rest) as [rest' err]. simpl in *.
    rewrite IH. reflexivity.
  - destruct (toContainer _) as [[uid gid] [err|]]; simpl; [reflexivity|].
    destruct (remapLoop None toContainer rest) as [rest' err']. simpl in *.
    rewrite IH. reflexivity.
Qed.

(** X22: whatever the options are and whether or not it fails,
    [maybeDoIDRemap] leaves the caller a manifest with the same entries
    in the same order, changed in nothing but [UID] and [GID]. *)
Theorem maybeDoIDRemap_changes_only_owner {IDMap : Type} `{IDMappings IDMap}
    (manifest : list FileMetadata) (options : TarOptions IDMap) :
  map withoutIDs (maybeDoIDRemap manifest options).1 = map withoutIDs manifest.
Proof.
  unfold maybeDoIDRemap.
  destruct (_ || _); [reflexivity|]. apply remapLoop_frame.
Qed.

Lemma remapLoop_error (toContainer : IDPair -> Z * Z * option error)
    (manifest : list FileMetadata) (err : error) :
  (remapLoop None toContainer manifest).2 = Some err ->
  exists (i : nat) (e : FileMetadata),
    manifest !! i = Some e /\
    (toContainer {| ip_UID := UID e; ip_GID := GID e |}).2 = Some err /\
    (forall (j : nat) (x : FileMetadata),
        (j < i)%nat -> manifest !! j = Some x ->
        (toContainer {| ip_UID := UID x; ip_GID := GID x |}).2 = None) /\
    drop (S i) (remapLoop None toContainer manifest).1 = drop (S i) manifest.
Proof.
  induction manifest as [|e rest IH]; simpl; [discriminate|].
  destruct (toContainer {| ip_UID := UID e; ip_GID := GID e |}) as [[uid gid] [er|]] eqn:Et;
    simpl.
  - intros [= ->]. exists 0%nat, e. rewrite Et. simpl.
    split; [reflexivity|]. split; [reflexivity|]. split; [|reflexivity].
    intros j x Hj. lia.
  - destruct (remapLoop None toContainer rest) as [rest' err'] eqn:Er. simpl in *.
    intros Herr. destruct (IH Herr) as (i & x & Hi & Hx & Hbefore & Hdrop).
    exists (S i), x. split; [exact Hi|]. split; [exact Hx|]. split; [|exact Hdrop].
    intros [|j] y Hj Hy; simpl in Hy.
    + injection Hy as <-. rewrite Et. reflexivity.
    + apply (Hbefore j y); [lia|exact Hy].
Qed.

(** X23: [maybeDoIDRemap] fails only when it maps ids (no [ChownOpts],
    some GID maps), with the error of the first entry whose owner
    [ToContainer] rejects; the entries after that one are left as they
    were. *)
Theorem maybeDoIDRemap_stops_at_first_error {IDMap : Type} `{IDMappings IDMap}
    (manifest : list FileMetadata) (options : TarOptions IDMap) (err : error) :
  (maybeDoIDRemap manifest options).2 = Some err ->
  ChownOpts options = None /\ GIDMaps options <> [] /\
  exists (i : nat) (e : FileMetadata),
    manifest !! i = Some e /\
    (ToContainer (UIDMaps options) (GIDMaps options)
       {| ip_UID := UID e; ip_GID := GID e |}).2 = Some err /\
    (forall (j : nat) (x : FileMetadata),
        (j < i)%nat -> manifest !! j = Some x ->
        (ToContainer (UIDMaps options) (GIDMaps options)
           {| ip_UID := UID x; ip_GID := GID x |}).2 = None) /\
    drop (S i) (maybeDoIDRemap manifest options).1 = drop (S i) manifest.
Proof.
  unfold maybeDoIDRemap.
  destruct (GIDMaps options) as [|g gs] eqn:Eg; simpl;
    [rewrite orb_true_r; discriminate|].
  rewrite orb_false_r.
  destruct (ChownOpts options) as [ids|] eqn:Ec; simpl.
  - rewrite (remapLoop_chown (IDMap := IDMap)). discriminate.
  - destruct (UIDMaps options) as [|u us] eqn:Eu; simpl; [discriminate|].
    intros Herr. split; [reflexivity|]. split; [discriminate|].
    apply remapLoop_error. exact Herr.
Qed.

Lemma maybeDoIDRemap_stops_at_first_error_witness :
  (maybeDoIDRemap (H := shiftMappings) threeOwners
     {| ChownOpts := None; UIDMaps := [(1000, 10)]; GIDMaps := [(1000, 10)] |}).2
  = Some (ErrOther "host ID not mapped") /\
  exists (i : nat) (e : FileMetadata),
    threeOwners !! i = Some e /\
    drop (S i) (maybeDoIDRemap (H := shiftMappings) threeOwners
                  {| ChownOpts := None; UIDMaps := [(1000, 10)]; GIDMaps := [(1000, 10)] |}).1
    = drop (S i) threeOwners.
Proof.
  split; [reflexivity|].
  destruct (maybeDoIDRemap_stops_at_first_error (H := shiftMappings) threeOwners
              {| ChownOpts := None; UIDMaps := [(1000, 10)]; GIDMaps := [(1000, 10)] |}
              (ErrOther "host ID not mapped") eq_refl)
    as (_ & _ & i & e & Hi & _ & _ & Hdrop).
  exists i, e. split; [exact Hi|exact Hdrop].
Defined.

(** ** Planning the missing parts *)

Lemma plannedPart_chunkPart (r chunk : FileMetadata) (size : Z) :
  plannedPart (chunkPart r chunk size).
Proof.
  eexists. split; [reflexivity|]. simpl. repeat split; eauto; discriminate.
Qed.

Lemma plannedPart_withOriginFile (r chunk : FileMetadata) (size : Z) (o : originFile) :
  plannedPart (withOriginFile (chunkPart r chunk size) o).
Proof.
  eexists. split; [reflexivity|]. simpl. repeat split; eauto; discriminate.
Qed.

Lemma plannedPart_asHole (r chunk : FileMetadata) (size : Z) :
  plannedPart (asHole (chunkPart r chunk size)).
Proof.
  eexists. split; [reflexivity|]. simpl. repeat split; eauto.
Qed.

Lemma plannedFor_chunkPart (r chunk : FileMetadata) (size : Z) :
  plannedFor r chunk (chunkPart r chunk size) /\
  plannedFor r chunk (asHole (chunkPart r chunk size)) /\
  forall o, plannedFor r chunk (withOriginFile (chunkPart r chunk size) o).
Proof.
  repeat split; simpl; eauto.
Qed.

Lemma planChunks_parts `{ChunkTypes} `{ChunkCache} (r : FileMetadata)
    (chunks : list FileMetadata) :
  forall (remainingSize missingPartsSize : Z) (acc parts : list missingPart) (size : Z),
    planChunks r chunks remainingSize missingPartsSize acc = inl (parts, size) ->
    exists new,
      parts = acc ++ new /\
      Forall plannedPart new /\
      Forall2 (plannedFor r) chunks new /\
      wrap64 (sumUncompressed new + remainingAfter remainingSize chunks)
      = wrap64 remainingSize.
Proof.
  induction chunks as [|chunk rest IH]; intros rem mps acc parts size; simpl.
  - intros [= <- <-]. exists []. rewrite app_nil_r.
    repeat split; constructor.
  - set (sz := if 0 <? ChunkSize chunk then ChunkSize chunk else rem).
    assert (Hstep : forall p mps',
               plannedPart p -> plannedFor r chunk p ->
               mp_Chunks p = mp_Chunks (chunkPart r chunk sz) \/
               mp_Chunks p = mp_Chunks (asHole (chunkPart r chunk sz)) ->
               planChunks r rest (to_int (rem - sz)) mps' (acc ++ [p]) = inl (parts, size) ->
               exists new,
                 parts = acc ++ new /\ Forall plannedPart new /\
                 Forall2 (plannedFor r) (chunk :: rest) new /\
                 wrap64 (sumUncompressed new + remainingAfter (to_int (rem - sz)) rest)
                 = wrap64 rem).
    { intros p mps' Hp Hf Hc Hplan.
      destruct (IH _ _ _ _ _ Hplan) as (new & -> & Hnew & Hfor & Hsum).
      exists (p :: new). rewrite <- app_assoc. split; [reflexivity|].
      split; [constructor; assumption|]. split; [constructor; assumption|].
      assert (Hu : sumUncompressed (p :: new) = sz + sumUncompressed new).
      { unfold sumUncompressed, sumChunks. simpl.
        destruct Hc as [-> | ->]; reflexivity. }
      rewrite Hu.
      replace (sz + sumUncompressed new + remainingAfter (to_int (rem - sz)) rest)
        with (sz + (sumUncompressed new + remainingAfter (to_int (rem - sz)) rest)) by lia.
      rewrite <- wrap64_add_r, Hsum, wrap64_to_int, wrap64_add_r. f_equal. lia. }
    destruct (String.eqb (ChunkType chunk) ChunkTypeData).
    + destruct (findChunkInOtherLayers chunk) as [[[root path] offset]|err]; [|discriminate].
      destruct ((0 <=? offset) && validateChunkChecksum chunk root path offset).
      * apply Hstep; [apply plannedPart_withOriginFile|apply plannedFor_chunkPart|].
        left. reflexivity.
      * apply Hstep; [apply plannedPart_chunkPart|apply plannedFor_chunkPart|].
        left. reflexivity.
    + destruct (String.eqb (ChunkType chunk) ChunkTypeZeros).
      * apply Hstep; [apply plannedPart_asHole|apply plannedFor_chunkPart|].
        right. reflexivity.
      * apply Hstep; [apply plannedPart_chunkPart|apply plannedFor_chunkPart|].
        left. reflexivity.
Qed.

Lemma planResults_planned `{ChunkTypes} `{ChunkCache} (mergedEntries : list FileMetadata)
    (copyResults : list copyResult) :
  forall (missingPartsSize : Z) (acc parts : list missingPart) (size : Z),
    planResults mergedEntries copyResults missingPartsSize acc = Planned parts size ->
    Forall plannedPart acc -> Forall plannedPart parts.
Proof.
  induction copyResults as [|res rest IH]; intros mps acc parts size; simpl.
  - intros [= <- <-]. auto.
  - destruct (mergedEntries !! cr_index res) as [r|]; [|discriminate].
    destruct (cr_err res); [discriminate|].
    destruct (cr_found res); [apply IH|].
    destruct (planChunks r (Chunks r) (Size r) _ acc) as [[parts' size']|err] eqn:Hp;
      [|discriminate].
    intros Hrest Hacc. apply (IH _ _ _ _ Hrest).
    apply planChunks_parts in Hp as (new & -> & Hnew & _).
    apply Forall_app. split; assumption.
Qed.

(** X24: every part that the last loop of [ApplyDiff] plans carries
    exactly one chunk, which points to its file and has no gap; the
    chunk is marked as a hole exactly when the part is, and no part is
    both a hole and a copy from a local file. *)
Theorem planResults_parts (CT : ChunkTypes) (CC : ChunkCache)
    (mergedEntries : list FileMetadata) (copyResults : list copyResult)
    (missingPartsSize size : Z) (parts : list missingPart) :
  planResults mergedEntries copyResults missingPartsSize [] = Planned parts size ->
  Forall plannedPart parts.
Proof.
  intros Hp. apply (planResults_planned _ _ _ _ _ _ Hp). constructor.
Qed.

Lemma planResults_parts_witness :
  exists parts size,
    planResults (H := plainChunkTypes) (H0 := oneChunkCache)
      [threeChunkFile; mixedChunkFile]
      [mkCopyResult 0 false None; mkCopyResult 1 false None] 0 [] = Planned parts size /\
    length parts = 6%nat /\
    Forall plannedPart parts.
Proof.
  do 2 eexists.
  assert (H1 : planResults (H := plainChunkTypes) (H0 := oneChunkCache)
                 [threeChunkFile; mixedChunkFile]
                 [mkCopyResult 0 false None; mkCopyResult 1 false None] 0 []
               = Planned _ _) by (vm_compute; reflexivity).
  split; [exact H1|]. split; [reflexivity|].
  exact (planResults_parts plainChunkTypes oneChunkCache _ _ _ _ _ H1).
Defined.

Lemma plannedPart_headHasFile (p : missingPart) : plannedPart p -> headHasFile p.
Proof.
  intros (c & Hc & Hf & _). exists c, []. split; assumption.
Qed.

(** X25: the call [mergeMissingChunks(missingParts,
    maxNumberMissingChunks)] that [ApplyDiff] makes when the loop has
    planned at least one part does not panic, and it returns between one
    and 1024 parts. *)
Theorem planResults_then_merge (CT : ChunkTypes) (CC : ChunkCache)
    (mergedEntries : list FileMetadata) (copyResults : list copyResult)
    (missingPartsSize size : Z) (parts : list missingPart) :
  planResults mergedEntries copyResults missingPartsSize [] = Planned parts size ->
  (0 < length parts)%nat ->
  Z.of_nat (length parts) < 2 ^ 63 ->
  exists out,
    mergeMissingChunks parts maxNumberMissingChunks = Some out /\
    out <> [] /\ Z.of_nat (length out) <= maxNumberMissingChunks.
Proof.
  intros Hp Hne Hlen.
  assert (Hh : Forall headHasFile parts).
  { eapply Forall_impl; [|apply plannedPart_headHasFile].
    apply (planResults_planned _ _ _ _ _ _ Hp). constructor. }
  destruct (mergeMissingChunks_total parts maxNumberMissingChunks) as (out & Hout & _);
    [destruct parts; [simpl in Hne; lia|discriminate] | exact Hh
    | unfold maxNumberMissingChunks; lia | exact Hlen |].
  exists out. split; [exact Hout|].
  split.
  - unfold mergeMissingChunks in Hout.
    destruct (sameFileCoalescing parts) as [out1|] eqn:H1; simpl in Hout; [|discriminate].
    assert (Hne1 : out1 <> []).
    { destruct parts as [|p0 rest]; [discriminate|].
      simpl in H1. eapply sameFileLoop_nonempty. eassumption. }
    destruct (Z.of_nat (length out1) <=? maxNumberMissingChunks).
    + injection Hout as <-. assumption.
    + unfold costCoalescing in Hout. destruct out1 as [|q0 qs]; [discriminate|].
      destruct (pickTargetValue _ _ _); simpl in Hout; [|discriminate].
      injection Hout as <-. apply costLoop_nonempty.
  - apply (mergeMissingChunks_length parts out maxNumberMissingChunks);
      [unfold maxNumberMissingChunks; lia|exact Hlen|exact Hout].
Qed.

Lemma planResults_then_merge_witness :
  exists out,
    mergeMissingChunks
      match planResults (H := plainChunkTypes) (H0 := oneChunkCache)
              [threeChunkFile; mixedChunkFile]
              [mkCopyResult 0 false None; mkCopyResult 1 false None] 0 [] with
      | Planned parts _ => parts
      | _ => []
      end maxNumberMissingChunks = Some out /\
    out <> [] /\ Z.of_nat (length out) <= maxNumberMissingChunks.
Proof.
  assert (H1 : exists parts size,
             planResults (H := plainChunkTypes) (H0 := oneChunkCache)
               [threeChunkFile; mixedChunkFile]
               [mkCopyResult 0 false None; mkCopyResult 1 false None] 0 []
             = Planned parts size /\ length parts = 6%nat)
    by (do 2 eexists; split; [vm_compute; reflexivity|vm_compute; reflexivity]).
  destruct H1 as (parts & size & H1 & Hl). rewrite H1.
  apply (planResults_then_merge plainChunkTypes oneChunkCache _ _ _ _ _ H1); rewrite Hl.
  - lia.
  - vm_compute. reflexivity.
Defined.

Lemma remainingAfter_last (chunks : list FileMetadata) :
  forall (remainingSize : Z) (c : FileMetadata),
    last chunks = Some c -> ChunkSize c <= 0 ->
    remainingAfter remainingSize chunks = 0.
Proof.
  induction chunks as [|c1 rest IH]; intros rem c Hl Hc; [discriminate|].
  destruct rest as [|c2 rest'].
  - simpl in Hl. injection Hl as ->. simpl.
    destruct (Z.ltb_spec 0 (ChunkSize c)); [lia|].
    rewrite Z.sub_diag. reflexivity.
  - change (remainingAfter rem (c1 :: c2 :: rest'))
      with (remainingAfter
              (to_int (rem - (if 0 <? ChunkSize c1 then ChunkSize c1 else rem)))
              (c2 :: rest')).
    apply (IH _ c); [exact Hl|exact Hc].
Qed.

(** X26: when the last chunk of a file does not state its size, the
    uncompressed sizes of the parts planned for the file add up to the
    size the loop started with, which [ApplyDiff] sets to the size of
    the file (as 64-bit sums): every chunk with a [ChunkSize] takes that
    many bytes and the last one takes what remains. *)
Theorem planChunks_sizes (CT : ChunkTypes) (CC : ChunkCache) (r : FileMetadata)
    (chunks : list FileMetadata) (remainingSize missingPartsSize size : Z)
    (parts : list missingPart) (c : FileMetadata) :
  planChunks r chunks remainingSize missingPartsSize [] = inl (parts, size) ->
  last chunks = Some c -> ChunkSize c <= 0 ->
  wrap64 (sumUncompressed parts) = wrap64 remainingSize.
Proof.
  intros Hp Hl Hc.
  apply planChunks_parts in Hp as (new & -> & _ & _ & Hsum).
  rewrite (remainingAfter_last chunks remainingSize c Hl Hc), Z.add_0_r in Hsum.
  exact Hsum.
Qed.

Lemma planChunks_sizes_witness :
  exists parts size,
    planChunks (H := plainChunkTypes) (H0 := oneChunkCache) mixedChunkFile
      (Chunks mixedChunkFile) (Size mixedChunkFile) 0 [] = inl (parts, size) /\
    wrap64 (sumUncompressed parts) = wrap64 (Size mixedChunkFile).
Proof.
  do 2 eexists.
  assert (H1 : planChunks (H := plainChunkTypes) (H0 := oneChunkCache) mixedChunkFile
                 (Chunks mixedChunkFile) (Size mixedChunkFile) 0 [] = inl (_, _))
    by (vm_compute; reflexivity).
  split; [exact H1|].
  apply (planChunks_sizes plainChunkTypes oneChunkCache _ _ _ _ _ _
           (chunkEntry TypeChunk "var/lib/db" 2040 2100 0 "" "c4") H1).
  - reflexivity.
  - simpl. lia.
Defined.

Lemma plannedFor_end (r chunk : FileMetadata) (p : missingPart) :
  plannedFor r chunk p -> partEnd p = wrap64 (EndOffset chunk).
Proof.
  intros [Hs _]. unfold partEnd. rewrite Hs. simpl.
  rewrite wrap64_to_int, wrap64_add_l, wrap64_add_r. f_equal. lia.
Qed.

Lemma sameFileLoop_chain (r : FileMetadata) (endOffset : Z) (chunks : list FileMetadata) :
  forall (rest front : list missingPart) (absorber prev : missingPart)
         (cprev : FileMetadata),
    Forall2 (plannedFor r) chunks rest ->
    Forall (fun p => mp_Hole p = false /\ mp_OriginFile p = None) rest ->
    remotePartOf r absorber ->
    partEnd absorber = partEnd prev ->
    partEnd prev = wrap64 (EndOffset cprev) ->
    tiles endOffset (cprev :: chunks) ->
    exists p,
      sameFileLoop front absorber prev rest = Some (front ++ [p]) /\
      remotePartOf r p /\
      sc_Offset (mp_SourceChunk p) = sc_Offset (mp_SourceChunk absorber) /\
      partEnd p = wrap64 endOffset.
Proof.
  induction chunks as [|c cs IH]; intros rest front absorber prev cprev Hfor Hrem Ha He Hp Ht.
  - apply Forall2_nil_inv_l in Hfor as ->. simpl.
    exists absorber. split; [reflexivity|]. split; [exact Ha|]. split; [reflexivity|].
    destruct Ht as (_ & Hend & _). rewrite He, Hp, Hend. reflexivity.
  - apply Forall2_cons_inv_l in Hfor as (cur & rest' & Hcur & Hfor & ->).
    apply Forall_cons in Hrem as [[Hhole Horig] Hrem].
    destruct Ht as (_ & Hnext & Ht).
    assert (Hgap : getGap prev cur = 0).
    { unfold getGap. fold (partEnd prev). rewrite Hp.
      destruct Hcur as [Hs _]. rewrite Hs. simpl.
      rewrite wrap64_sub_l, wrap64_sub_r, Hnext, Z.sub_diag. reflexivity. }
    simpl. rewrite Hgap.
    destruct Ha as (Hah & Hao & ca & Hac & Haf).
    pose proof Hcur as Hcur'. destruct Hcur' as (_ & cc & Hcc & Hcf & _).
    assert (Hcond : sameFileCond 0 absorber cur = Some true).
    { unfold sameFileCond. simpl. rewrite Hao, Horig, Hah, Hhole, Hac, Hcc.
      unfold fileName. rewrite Haf, Hcf. simpl. rewrite String.eqb_refl. reflexivity. }
    rewrite Hcond. simpl.
    destruct (IH rest' front (sameFileMerge 0 absorber cur) cur c Hfor Hrem)
      as (p & Hl & Hr & Ho & Hpe).
    + unfold remotePartOf, sameFileMerge. simpl. rewrite Hac, Hcc.
      split; [exact Hah|]. split; [exact Hao|]. eexists. split; [reflexivity|]. exact Haf.
    + apply (sameFileMerge_end 0 absorber cur prev); [symmetry; exact Hgap|reflexivity|exact He].
    + apply (plannedFor_end r). exact Hcur.
    + exact Ht.
    + exists p. split; [exact Hl|]. split; [exact Hr|]. split; [|exact Hpe].
      rewrite Ho. reflexivity.
Qed.

(** X27: a file whose chunks lie back to back in the blob, as
    [mergeTocEntries] leaves them, and of which every chunk has to be
    fetched (none is a hole or found in another layer) is fetched with
    one request: the same-file pass of [mergeMissingChunks] turns the
    parts planned for it into a single part, for that file, whose range
    starts at the first chunk and ends at the end offset of the file. *)
Theorem planChunks_one_request (CT : ChunkTypes) (CC : ChunkCache) (r c0 : FileMetadata)
    (chunks : list FileMetadata) (endOffset remainingSize missingPartsSize size : Z)
    (parts : list missingPart) :
  planChunks r (c0 :: chunks) remainingSize missingPartsSize [] = inl (parts, size) ->
  tiles endOffset (c0 :: chunks) ->
  Forall (fun p => mp_Hole p = false /\ mp_OriginFile p = None) parts ->
  exists p,
    sameFileCoalescing parts = Some [p] /\
    remotePartOf r p /\
    sc_Offset (mp_SourceChunk p) = wrap64 (Offset c0) /\
    partEnd p = wrap64 endOffset.
Proof.
  intros Hp Ht Hrem.
  apply planChunks_parts in Hp as (new & -> & _ & Hfor & _). simpl in Hrem.
  apply Forall2_cons_inv_l in Hfor as (p0 & ps & Hp0 & Hfor & ->).
  apply Forall_cons in Hrem as [[Hh Ho] Hrem]. simpl.
  destruct (sameFileLoop_chain r endOffset chunks ps [] p0 p0 c0 Hfor Hrem)
    as (p & Hl & Hr & Hoff & Hend).
  - destruct Hp0 as (_ & c & Hc & Hf & _).
    split; [exact Hh|]. split; [exact Ho|]. exists c. split; assumption.
  - reflexivity.
  - apply (plannedFor_end r). exact Hp0.
  - exact Ht.
  - exists p. split; [exact Hl|]. split; [exact Hr|]. split; [|exact Hend].
    rewrite Hoff. destruct Hp0 as [Hs _]. rewrite Hs. reflexivity.
Qed.

Lemma planChunks_one_request_witness :
  exists parts size p,
    planChunks (H := plainChunkTypes) (H0 := oneChunkCache) threeChunkFile
      (Chunks threeChunkFile) (Size threeChunkFile) 0 [] = inl (parts, size) /\
    length parts = 3%nat /\
    sameFileCoalescing parts = Some [p] /\
    sc_Offset (mp_SourceChunk p) = 1000 /\ partEnd p = 1130.
Proof.
  assert (H1 : exists parts size,
             planChunks (H := plainChunkTypes) (H0 := oneChunkCache) threeChunkFile
               (Chunks threeChunkFile) (Size threeChunkFile) 0 [] = inl (parts, size) /\
             length parts = 3%nat /\
             Forall (fun p => mp_Hole p = false /\ mp_OriginFile p = None) parts)
    by (do 2 eexists; split; [vm_compute; reflexivity|];
        split; [reflexivity|repeat constructor]).
  destruct H1 as (parts & size & H1 & Hl & Hrem).
  destruct (planChunks_one_request plainChunkTypes oneChunkCache threeChunkFile
              _ _ 1130 _ _ _ _ H1) as (p & Hp & _ & Ho & He).
  - simpl. repeat split; vm_compute; reflexivity.
  - exact Hrem.
  - exists parts, size, p. repeat split; assumption.
Defined.

(** ** Destination writer: [storeMissingFiles] *)

Lemma pollCloseErrors_none (delivered : nat) (pending : list (option error)) :
  Forall (fun r => r = None) pending ->
  (pollCloseErrors delivered pending).1 = None /\
  Forall (fun r => r = None) (pollCloseErrors delivered pending).2.
Proof.
  revert pending. induction delivered as [|n IH]; intros pending Hp; simpl.
  - destruct pending; split; auto.
  - destruct pending as [|r rest]; [split; auto|].
    apply Forall_cons in Hp as [-> Hrest]. apply IH. exact Hrest.
Qed.

Lemma firstError_none (pending : list (option error)) :
  Forall (fun r => r = None) pending -> firstError pending = None.
Proof.
  induction 1 as [|r rest -> _ IH]; simpl; [reflexivity|exact IH].
Qed.

Lemma storeChunk_pending (env : storeEnv) (i j : nat) (partIsNil : bool)
    (partCompression : Z) (mf : missingFileChunk) (s s' : storeState) :
  (forall i j, se_closeErr env i j = None) ->
  Forall (fun r => r = None) (ss_pending s) ->
  storeChunk env i j partIsNil partCompression mf s = ChunkNext s' \/
  storeChunk env i j partIsNil partCompression mf s = ChunkExit s' ->
  Forall (fun r => r = None) (ss_pending s').
Proof.
  intros Hclose Hp. unfold storeChunk.
  destruct (0 <? mfc_Gap mf).
  { destruct partIsNil; [intros [H|H]; discriminate|].
    destruct (se_discardErr env i j); intros [H|H]; inversion H; subst; exact Hp. }
  destruct (mfc_File mf) as [file|]; [|intros [H|H]; discriminate].
  destruct (String.eqb (Name file) "");
    [intros [H|H]; inversion H; subst; exact Hp|].
  destruct (prepareCompressedStreamToFile env i j (ss_readers s) partCompression mf)
    as [[readers compression] [err|]];
    [intros [H|H]; inversion H; subst; exact Hp|].
  cbn [ss_destFile ss_pending ss_readers ss_Err].
  assert (Hwrite : forall t,
             Forall (fun r => r = None) (ss_pending t) ->
             match se_appendErr env i j with
             | Some err => ChunkExit (setErr t err)
             | None =>
                 if rawReader (ss_readers t)
                 then match se_drainErr env i j with
                      | Some err => ChunkExit (setErr t err)
                      | None => ChunkNext t
                      end
                 else ChunkNext t
             end = ChunkNext s' \/
             match se_appendErr env i j with
             | Some err => ChunkExit (setErr t err)
             | None =>
                 if rawReader (ss_readers t)
                 then match se_drainErr env i j with
                      | Some err => ChunkExit (setErr t err)
                      | None => ChunkNext t
                      end
                 else ChunkNext t
             end = ChunkExit s' ->
             Forall (fun r => r = None) (ss_pending s')).
  { intros t Ht.
    destruct (se_appendErr env i j); [intros [H|H]; inversion H; subst; exact Ht|].
    destruct (rawReader (ss_readers t)); [|intros [H|H]; inversion H; subst; exact Ht].
    destruct (se_drainErr env i j); intros [H|H]; inversion H; subst; exact Ht. }
  assert (Hopen : forall pending,
             Forall (fun r => r = None) pending ->
             forall out,
               out = match se_openDestinationFileErr env i j with
                     | Some err =>
                         ChunkExit {| ss_destFile := None; ss_Err := Some err;
                                      ss_pending := pending; ss_readers := readers |}
                     | None =>
                         match se_appendErr env i j with
                         | Some err =>
                             ChunkExit
                               (setErr {| ss_destFile := Some (Name file, (i, j));
                                          ss_Err := ss_Err s; ss_pending := pending;
                                          ss_readers := readers |} err)
                         | None =>
                             if rawReader readers
                             then match se_drainErr env i j with
                                  | Some err =>
                                      ChunkExit
                                        (setErr {| ss_destFile := Some (Name file, (i, j));
                                                   ss_Err := ss_Err s; ss_pending := pending;
                                                   ss_readers := readers |} err)
                                  | None =>
                                      ChunkNext {| ss_destFile := Some (Name file, (i, j));
                                                   ss_Err := ss_Err s; ss_pending := pending;
                                                   ss_readers := readers |}
                                  end
                             else ChunkNext {| ss_destFile := Some (Name file, (i, j));
                                               ss_Err := ss_Err s; ss_pending := pending;
                                               ss_readers := readers |}
                         end
                     end ->
               out = ChunkNext s' \/ out = ChunkExit s' ->
               Forall (fun r => r = None) (ss_pending s')).
  { intros pending Hpend out ->.
    destruct (se_openDestinationFileErr env i j);
      [intros [H|H]; inversion H; subst; exact Hpend|].
    apply (Hwrite {| ss_destFile := Some (Name file, (i, j)); ss_Err := ss_Err s;
                     ss_pending := pending; ss_readers := readers |}). exact Hpend. }
  destruct (ss_destFile s) as [[name [oi oj]]|].
  - destruct (String.eqb name (Name file)).
    + apply (Hwrite {| ss_destFile := Some (name, (oi, oj)); ss_Err := ss_Err s;
                       ss_pending := ss_pending s; ss_readers := readers |}). exact Hp.
    + destruct (pollCloseErrors_none (se_delivered env i j) (ss_pending s) Hp) as [H1 H2].
      destruct (pollCloseErrors (se_delivered env i j) (ss_pending s)) as [polled pending].
      simpl in H1, H2. subst polled.
      apply (Hopen (pending ++ [se_closeErr env oi oj])); [|reflexivity].
      apply Forall_app. split; [exact H2|]. constructor; [apply Hclose|constructor].
  - apply (Hopen (ss_pending s)); [exact Hp|reflexivity].
Qed.

Lemma storeChunks_pending (env : storeEnv) (i : nat) (partIsNil : bool)
    (partCompression : Z) (chunks : list missingFileChunk) :
  (forall i j, se_closeErr env i j = None) ->
  forall (j : nat) (s s' : storeState),
    Forall (fun r => r = None) (ss_pending s) ->
    storeChunks env i j partIsNil partCompression chunks s = Some s' ->
    Forall (fun r => r = None) (ss_pending s').
Proof.
  intros Hclose. induction chunks as [|mf rest IH]; intros j s s' Hp; simpl.
  - intros [= <-]. exact Hp.
  - destruct (storeChunk env i j partIsNil partCompression mf s) as [t|t|] eqn:Hc;
      [|intros [= <-]|discriminate].
    + apply IH. apply (storeChunk_pending _ _ _ _ _ _ _ _ Hclose Hp (or_introl Hc)).
    + apply (storeChunk_pending _ _ _ _ _ _ _ _ Hclose Hp (or_intror Hc)).
Qed.

Lemma storeReturn_none (env : storeEnv) (s : storeState) :
  (forall i j, se_closeErr env i j = None) ->
  Forall (fun r => r = None) (ss_pending s) ->
  storeReturn env s = None.
Proof.
  intros Hclose Hs. unfold storeReturn.
  destruct (ss_destFile s) as [[name [i j]]|]; [rewrite Hclose|];
    apply firstError_none; exact Hs.
Qed.

Lemma storeParts_drops_errors (env : storeEnv) (fileType : Z)
    (missingParts : list missingPart) (Err : option error) :
  (forall i j, se_closeErr env i j = None) ->
  (forall i, se_receive env i = GotStream) ->
  (forall i, se_openOriginFile env i = None) ->
  forall (i : nat) (s : storeState),
    Forall (fun r => r = None) (ss_pending s) ->
    storeParts env fileType i missingParts s = StoreReturned Err ->
    Err = None.
Proof.
  intros Hclose Hrecv Horigin.
  induction missingParts as [|p rest IH]; intros i s Hs; simpl.
  - intros [= <-]. apply storeReturn_none; assumption.
  - rewrite Hrecv, Horigin.
    assert (Hbody : forall partIsNil partCompression,
               match storeChunks env i 0 partIsNil partCompression (mp_Chunks p) s with
               | None => StorePanic
               | Some s' =>
                   if negb partIsNil && (if ss_Err s' is Some _ then true else false)
                   then StoreReturned (storeReturn env s')
                   else storeParts env fileType (S i) rest s'
               end = StoreReturned Err -> Err = None).
    { intros partIsNil partCompression.
      destruct (storeChunks env i 0 partIsNil partCompression (mp_Chunks p) s)
        as [s'|] eqn:Hc; [|discriminate].
      pose proof (storeChunks_pending _ _ _ _ _ Hclose _ _ _ Hs Hc) as Hs'.
      destruct (negb partIsNil && _).
      - intros [= <-]. apply storeReturn_none; assumption.
      - apply IH. exact Hs'. }
    destruct (mp_Hole p); [apply Hbody|].
    destruct (mp_OriginFile p); apply Hbody.
Qed.

(** X28: [storeMissingFiles] does not return the errors it meets while
    it stores the chunks.  What it returns after the loop is the result
    of closing the destination file that is open then, or nil when none
    is, and then the first error of the files closed in the background:
    so when the streams arrive and every [Close] succeeds it returns nil,
    whatever failed in between (an empty file name, a reader that cannot
    be set up, a destination file that cannot be created, a failed
    write). *)
Theorem storeMissingFiles_drops_errors (env : storeEnv) (fileType : Z)
    (readers : differReaders) (missingParts : list missingPart) (Err : option error) :
  (forall i j, se_closeErr env i j = None) ->
  (forall i, se_receive env i = GotStream) ->
  (forall i, se_openOriginFile env i = None) ->
  storeMissingFiles env fileType readers missingParts = StoreReturned Err ->
  Err = None.
Proof.
  intros Hclose Hrecv Horigin. unfold storeMissingFiles.
  apply storeParts_drops_errors; try assumption. constructor.
Qed.

Lemma storeMissingFiles_drops_errors_witness :
  se_openDestinationFileErr readOnlyDestination 0 0 = Some (ErrOther "read-only file system") /\
  storeMissingFiles readOnlyDestination fileTypeZstdChunked noReaders threeChunkParts
  = StoreReturned None.
Proof.
  split; [reflexivity|].
  assert (H1 : exists Err,
             storeMissingFiles readOnlyDestination fileTypeZstdChunked noReaders
               threeChunkParts = StoreReturned Err)
    by (eexists; vm_compute; reflexivity).
  destruct H1 as [Err H1]. rewrite H1. f_equal.
  apply (storeMissingFiles_drops_errors readOnlyDestination fileTypeZstdChunked noReaders
           threeChunkParts Err); try reflexivity. exact H1.
Defined.

Lemma storeChunks_no_panic (env : storeEnv) (i : nat) (p : missingPart)
    (partCompression : Z) (chunks : list missingFileChunk) :
  Forall (storableChunk p) chunks ->
  forall (j : nat) (s : storeState),
    is_Some (storeChunks env i j (mp_Hole p) partCompression chunks s).
Proof.
  induction 1 as [|mf rest Hmf _ IH]; intros j s; simpl; [eauto|].
  assert (Hc : storeChunk env i j (mp_Hole p) partCompression mf s <> ChunkPanic).
  { unfold storeChunk. destruct Hmf as [[Hg Hh]|[Hg [file Hf]]].
    - destruct (Z.ltb_spec 0 (mfc_Gap mf)); [|lia]. rewrite Hh.
      destruct (se_discardErr env i j); discriminate.
    - destruct (Z.ltb_spec 0 (mfc_Gap mf)); [lia|]. rewrite Hf.
      destruct (String.eqb (Name file) ""); [discriminate|].
      destruct (prepareCompressedStreamToFile _ _ _ _ _ _) as [[readers compression] [err|]];
        [discriminate|].
      cbn [ss_destFile ss_pending ss_readers ss_Err].
      destruct (ss_destFile s) as [[name [oi oj]]|].
      + destruct (String.eqb name (Name file)).
        * destruct (se_appendErr env i j); [discriminate|].
          destruct (rawReader _); [destruct (se_drainErr env i j)|]; discriminate.
        * destruct (pollCloseErrors _ _) as [[err|] pending]; [discriminate|].
          destruct (se_openDestinationFileErr env i j); [discriminate|].
          destruct (se_appendErr env i j); [discriminate|].
          destruct (rawReader _); [destruct (se_drainErr env i j)|]; discriminate.
      + destruct (se_openDestinationFileErr env i j); [discriminate|].
        destruct (se_appendErr env i j); [discriminate|].
        destruct (rawReader _); [destruct (se_drainErr env i j)|]; discriminate. }
  destruct (storeChunk env i j (mp_Hole p) partCompression mf s); [apply IH|eauto|congruence].
Qed.

Lemma storeParts_no_panic (env : storeEnv) (fileType : Z) (missingParts : list missingPart) :
  Forall storablePart missingParts ->
  forall (i : nat) (s : storeState),
    storeParts env fileType i missingParts s <> StorePanic.
Proof.
  induction 1 as [|p rest Hp _ IH]; intros i s; simpl; [discriminate|].
  assert (Hbody : forall partCompression,
             match storeChunks env i 0 (mp_Hole p) partCompression (mp_Chunks p) s with
             | None => StorePanic
             | Some s' =>
                 if negb (mp_Hole p) && (if ss_Err s' is Some _ then true else false)
                 then StoreReturned (storeReturn env s')
                 else storeParts env fileType (S i) rest s'
             end <> StorePanic).
  { intros partCompression.
    destruct (storeChunks_no_panic env i p partCompression (mp_Chunks p) Hp 0%nat s)
      as [s' ->].
    destruct (negb (mp_Hole p) && _); [discriminate|apply IH]. }
  destruct (mp_Hole p) eqn:Hh; [apply Hbody|].
  destruct (mp_OriginFile p).
  - destruct (se_openOriginFile env i); [discriminate|apply Hbody].
  - destruct (se_receive env i) as [| |[err|]]; try discriminate. apply Hbody.
Qed.

Lemma plannedPart_storable (p : missingPart) : plannedPart p -> storablePart p.
Proof.
  intros (c & Hc & Hf & Hg & _). unfold storablePart. rewrite Hc.
  constructor; [|constructor]. right. split; [lia|exact Hf].
Qed.

Lemma sameFileMerge_storable (gap : Z) (a b : missingPart) :
  storablePart a -> storablePart (sameFileMerge gap a b).
Proof.
  unfold storablePart, sameFileMerge. simpl. intros Ha.
  destruct (mp_Chunks a) as [|ca ra]; [constructor|].
  destruct (mp_Chunks b) as [|cb rb]; [exact Ha|].
  apply Forall_cons in Ha as [Hca Hra].
  constructor; [|exact Hra]. exact Hca.
Qed.

Lemma costMerge_storable (gap : Z) (prev cur : missingPart) :
  storablePart prev -> storablePart cur -> storablePart (costMerge gap prev cur).
Proof.
  unfold storablePart. intros Hp Hc.
  assert (Hweak : forall q l, Forall (storableChunk q) l ->
                              Forall (storableChunk (costMerge gap prev cur)) l).
  { intros q l Hl. eapply Forall_impl; [exact Hl|].
    intros mf [[Hg _]|H]; [left|right; exact H].
    split; [exact Hg|reflexivity]. }
  unfold costMerge at 2. simpl.
  apply Forall_app. split; [|apply (Hweak cur); exact Hc].
  destruct (Z.ltb_spec 0 gap); [|apply (Hweak prev); exact Hp].
  apply Forall_app. split; [apply (Hweak prev); exact Hp|].
  constructor; [|constructor]. left. split; [exact H|reflexivity].
Qed.

Lemma costLoop_storable (rest : list missingPart) :
  forall T front prev orig,
    Forall storablePart front -> storablePart prev -> Forall storablePart rest ->
    Forall storablePart (costLoop T front prev orig rest).
Proof.
  induction rest as [|cur rest IH]; intros T front prev orig Hf Hp Hr; simpl.
  - apply Forall_app. split; [exact Hf|]. constructor; [exact Hp|constructor].
  - apply Forall_cons in Hr as [Hc Hr].
    destruct (T <? getCost orig cur).
    + apply IH; [|exact Hc|exact Hr].
      apply Forall_app. split; [exact Hf|]. constructor; [exact Hp|constructor].
    + apply IH; [exact Hf| |exact Hr]. apply costMerge_storable; assumption.
Qed.

Lemma mergeMissingChunks_storable (missingParts out : list missingPart) (target : Z) :
  Forall storablePart missingParts ->
  mergeMissingChunks missingParts target = Some out ->
  Forall storablePart out.
Proof.
  intros Hs. unfold mergeMissingChunks.
  destruct (sameFileCoalescing missingParts) as [out1|] eqn:H1; simpl; [|discriminate].
  assert (Hs1 : Forall storablePart out1).
  { destruct missingParts as [|p0 rest]; [discriminate|]. simpl in H1.
    apply Forall_cons in Hs as [H0 Hr].
    eapply (sameFileLoop_preserves storablePart);
      [intros; apply sameFileMerge_storable; assumption|constructor|exact H0|exact Hr
      |exact H1]. }
  destruct (Z.of_nat (length out1) <=? target); [intros [= <-]; exact Hs1|].
  unfold costCoalescing. destruct out1 as [|q0 qs]; [discriminate|].
  destruct (pickTargetValue _ _ _); simpl; [|discriminate].
  intros [= <-]. apply Forall_cons in Hs1 as [Hq0 Hqs].
  apply costLoop_storable; [constructor|exact Hq0|exact Hqs].
Qed.

(** X29: the parts that [ApplyDiff] plans and [mergeMissingChunks] has
    merged, for any target, are parts that [storeMissingFiles] can walk:
    it never reads the name of a nil [File] and never reads a gap from a
    part without a stream, whatever the streams and the file system
    answer. *)
Theorem storeMissingFiles_no_panic (CT : ChunkTypes) (CC : ChunkCache)
    (mergedEntries : list FileMetadata) (copyResults : list copyResult)
    (missingPartsSize size target : Z) (parts out : list missingPart)
    (env : storeEnv) (fileType : Z) (readers : differReaders) :
  planResults mergedEntries copyResults missingPartsSize [] = Planned parts size ->
  mergeMissingChunks parts target = Some out ->
  storeMissingFiles env fileType readers out <> StorePanic.
Proof.
  intros Hp Hm. unfold storeMissingFiles. apply storeParts_no_panic.
  apply (mergeMissingChunks_storable parts out target); [|exact Hm].
  eapply Forall_impl; [|apply plannedPart_storable].
  apply (planResults_planned _ _ _ _ _ _ Hp). constructor.
Qed.

Lemma storeMissingFiles_no_panic_witness :
  exists parts size out,
    planResults (H := plainChunkTypes) (H0 := oneChunkCache)
      [threeChunkFile; mixedChunkFile]
      [mkCopyResult 0 false None; mkCopyResult 1 false None] 0 [] = Planned parts size /\
    mergeMissingChunks parts 2 = Some out /\
    storeMissingFiles readOnlyDestination fileTypeZstdChunked noReaders out <> StorePanic.
Proof.
  assert (H1 : exists parts size out,
             planResults (H := plainChunkTypes) (H0 := oneChunkCache)
               [threeChunkFile; mixedChunkFile]
               [mkCopyResult 0 false None; mkCopyResult 1 false None] 0 []
             = Planned parts size /\
             mergeMissingChunks parts 2 = Some out)
    by (do 3 eexists; split; [vm_compute; reflexivity|vm_compute; reflexivity]).
  destruct H1 as (parts & size & out & H1 & H2).
  exists parts, size, out. split; [exact H1|]. split; [exact H2|].
  exact (storeMissingFiles_no_panic plainChunkTypes oneChunkCache _ _ _ _ _ _ _
           readOnlyDestination fileTypeZstdChunked noReaders H1 H2).
Defined.

(** ** Flat layout *)

Lemma flatLoop_spec `{Digester} `{DigestEncoding} (mergedEntries : list FileMetadata) :
  forall (hashes : gmap string string) (acc new : list FileMetadata),
    (forall d, default ""%string (hashes !! d) <> ""%string <-> d ∈ map encodedDigest acc) ->
    NoDup (map encodedDigest acc) ->
    flatLoop mergedEntries hashes acc = Flat new ->
    exists added,
      new = acc ++ added /\
      NoDup (map encodedDigest new) /\
      Forall (fun e => isReg e = true /\ Name e = flatName (encodedDigest e)) added /\
      (forall e, e ∈ mergedEntries -> isReg e = true ->
                 encodedDigest e ∈ map encodedDigest new) /\
      (forall e', e' ∈ added ->
                  exists e, e ∈ mergedEntries /\ e' = withName e (flatName (encodedDigest e))).
Proof.
  induction mergedEntries as [|e rest IH]; intros hashes acc new Hh Hnd; simpl.
  - intros [= <-]. exists []. rewrite app_nil_r.
    split; [reflexivity|]. split; [exact Hnd|]. split; [constructor|].
    split; [intros e He; apply elem_of_nil in He; contradiction|].
    intros e' He'. apply elem_of_nil in He'. contradiction.
  - destruct (isReg e) eqn:Hr; simpl.
    2:{ intros Hl. destruct (IH _ _ _ Hh Hnd Hl) as (added & -> & Hn & Hf & Hall & Hfrom).
        exists added. split; [reflexivity|]. split; [exact Hn|]. split; [exact Hf|].
        split.
        - intros x Hx Hxr. apply elem_of_cons in Hx as [->|Hx]; [congruence|].
          apply Hall; assumption.
        - intros e' He'. destruct (Hfrom e' He') as (x & Hx & ->).
          exists x. split; [apply list_elem_of_further; exact Hx|reflexivity]. }
    destruct (String.eqb (Digest e) ""); [discriminate|].
    unfold Parse. destruct (Validate (Digest e)); [|discriminate].
    fold (encodedDigest e).
    destruct (String.eqb_spec (default ""%string (hashes !! encodedDigest e)) "")
      as [Hseen|Hseen]; simpl.
    + destruct (Nat.ltb_spec (String.length (encodedDigest e)) 2) as [Hshort|Hlong];
        [discriminate|].
      intros Hl.
      assert (Hfresh : encodedDigest e ∉ map encodedDigest acc).
      { intros Hin. apply Hh in Hin. contradiction. }
      assert (Hd : encodedDigest (withName e (flatName (encodedDigest e))) = encodedDigest e)
        by reflexivity.
      destruct (IH (<[encodedDigest e := encodedDigest e]> hashes)
                  (acc ++ [withName e (flatName (encodedDigest e))]) new)
        as (added & -> & Hn & Hf & Hall & Hfrom); [| |exact Hl|].
      * intros d. rewrite map_app. simpl. rewrite Hd, elem_of_app, list_elem_of_singleton.
        destruct (decide (d = encodedDigest e)) as [->|Hne].
        -- rewrite lookup_insert_eq. simpl. split; [auto|]. intros _ Hempty.
           rewrite Hempty in Hlong. simpl in Hlong. lia.
        -- rewrite lookup_insert_ne by congruence. rewrite Hh. tauto.
      * rewrite map_app. simpl. rewrite Hd. apply NoDup_app.
        split; [exact Hnd|]. split; [|apply NoDup_singleton].
        intros x Hx Hx'. apply list_elem_of_singleton in Hx'. subst x. contradiction.
      * exists (withName e (flatName (encodedDigest e)) :: added).
        rewrite <- app_assoc. split; [reflexivity|].
        rewrite <- app_assoc in Hn. split; [exact Hn|].
        split; [constructor; [split; [exact Hr|reflexivity]|exact Hf]|].
        split.
        -- intros x Hx Hxr. rewrite <- app_assoc in Hall.
           apply elem_of_cons in Hx as [->|Hx]; [|apply Hall; assumption].
           rewrite !map_app. simpl. rewrite Hd.
           apply elem_of_app. right. apply list_elem_of_here.
        -- intros e' He'. apply elem_of_cons in He' as [->|He'].
           ++ exists e. split; [apply list_elem_of_here|reflexivity].
           ++ destruct (Hfrom e' He') as (x & Hx & ->).
              exists x. split; [apply list_elem_of_further; exact Hx|reflexivity].
    + intros Hl. destruct (IH _ _ _ Hh Hnd Hl) as (added & -> & Hn & Hf & Hall & Hfrom).
      exists added. split; [reflexivity|]. split; [exact Hn|]. split; [exact Hf|].
      split.
      * intros x Hx Hxr. apply elem_of_cons in Hx as [->|Hx]; [|apply Hall; assumption].
        rewrite map_app. apply elem_of_app. left. apply Hh. exact Hseen.
      * intros e' He'. destruct (Hfrom e' He') as (x & Hx & ->).
        exists x. split; [apply list_elem_of_further; exact Hx|reflexivity].
Qed.

(** X30: the flat list of [makeEntriesFlat] has one entry per content:
    its entries are regular files of the input, renamed after their
    digest ([d[0:2]/d[2:]]); no two of them have the same encoded
    digest, and every regular file of the input has its digest among
    them. *)
Theorem makeEntriesFlat_one_per_digest (D : Digester) (DE : DigestEncoding)
    (mergedEntries new : list FileMetadata) :
  makeEntriesFlat mergedEntries = Flat new ->
  NoDup (map encodedDigest new) /\
  Forall (fun e => isReg e = true /\ Name e = flatName (encodedDigest e)) new /\
  (forall e, e ∈ mergedEntries -> isReg e = true ->
             encodedDigest e ∈ map encodedDigest new) /\
  (forall e', e' ∈ new ->
              exists e, e ∈ mergedEntries /\ e' = withName e (flatName (encodedDigest e))).
Proof.
  unfold makeEntriesFlat. intros Hl.
  destruct (flatLoop_spec mergedEntries ∅ [] new) as (added & -> & Hn & Hf & Hall & Hfrom).
  - intros d. rewrite lookup_empty. simpl. split; [congruence|].
    intros Hin. apply elem_of_nil in Hin. contradiction.
  - constructor.
  - exact Hl.
  - simpl in *. repeat split; assumption.
Qed.

Lemma makeEntriesFlat_one_per_digest_witness :
  exists new,
    makeEntriesFlat (H := rawDigester) (H0 := rawEncoding) duplicateFiles = Flat new /\
    map Name new = ["ab/c"%string; "xy/z"%string] /\
    NoDup (map (encodedDigest (H := rawEncoding)) new).
Proof.
  eexists.
  assert (H1 : makeEntriesFlat (H := rawDigester) (H0 := rawEncoding) duplicateFiles = Flat _)
    by (vm_compute; reflexivity).
  split; [exact H1|]. split; [reflexivity|].
  exact (proj1 (makeEntriesFlat_one_per_digest rawDigester rawEncoding duplicateFiles _ H1)).
Defined.

(** ** The bad-range retry counts the parts, not the ranges requested *)

(** C3: for a file of 64 runs of zeros and one chunk of data,
    [ApplyDiff] plans 65 parts, 64 of them holes, and the request holds
    the one range of the data chunk.  When the source rejects that
    request with a bad-range error, [retrieveMissingFiles] does not
    return the error, although one range is fewer than 64: it reads
    [len(missingParts)], 65, merges the parts with 32 as target and
    sends a second request; only then, with fewer than 64 parts left,
    does it return the error. *)
Theorem retrieveMissingFiles_retries_one_range :
  exists parts size merged,
    planChunks (H := plainChunkTypes) (H0 := oneChunkCache) zerosThenDataFile
      (Chunks zerosThenDataFile) (Size zerosThenDataFile) 0 [] = inl (parts, size) /\
    length parts = 65%nat /\
    length (List.filter mp_Hole parts) = 64%nat /\
    length (calculateChunksToRequest parts) = 1%nat /\
    mergeMissingChunks parts 32 = Some merged /\
    (forall (store : unit -> list missingPart -> option error) (fuel : nat),
        @retrieveMissingFiles nat unit rejectingSource store (S fuel) 0%nat parts
        = @retrieveMissingFiles nat unit rejectingSource store fuel 1%nat merged) /\
    (forall store : unit -> list missingPart -> option error,
        @retrieveMissingFiles nat unit rejectingSource store 2 0%nat parts
        = Returned 2%nat (Some ErrBadRequest)).
Proof.
  assert (H : exists parts size merged,
             planChunks (H := plainChunkTypes) (H0 := oneChunkCache) zerosThenDataFile
               (Chunks zerosThenDataFile) (Size zerosThenDataFile) 0 [] = inl (parts, size) /\
             length parts = 65%nat /\
             length (List.filter mp_Hole parts) = 64%nat /\
             length (calculateChunksToRequest parts) = 1%nat /\
             mergeMissingChunks parts 32 = Some merged /\
             (length merged < 64)%nat).
  { do 3 eexists. split; [vm_compute; reflexivity|].
    split; [vm_compute; reflexivity|]. split; [vm_compute; reflexivity|].
    split; [vm_compute; reflexivity|]. split; [vm_compute; reflexivity|].
    vm_compute. lia. }
  destruct H as (parts & size & merged & Hplan & Hlen & Hholes & Hreq & Hmerge & Hshort).
  exists parts, size, merged.
  assert (Hstep : forall (store : unit -> list missingPart -> option error) (fuel : nat),
             @retrieveMissingFiles nat unit rejectingSource store (S fuel) 0%nat parts
             = @retrieveMissingFiles nat unit rejectingSource store fuel 1%nat merged).
  { intros store fuel. cbn [retrieveMissingFiles]. unfold GetBlobAt, rejectingSource.
    rewrite Hlen. change (Z.of_nat 65 <? 64) with false. cbn iota.
    change (Z.of_nat 65 ÷ 2) with 32. rewrite Hmerge. reflexivity. }
  repeat split; try assumption.
  intros store. rewrite Hstep. cbn [retrieveMissingFiles]. unfold GetBlobAt, rejectingSource.
  destruct (Z.ltb_spec (Z.of_nat (length merged)) 64); [reflexivity|lia].
Qed.
